(** * Transitional Markov Chain Monte Carlo: the stage engine of
      [modules/performUQ/common/tmcmc.py]

    A shallow embedding of the sampler and the proofs of its specified
    properties.

    Numbers.  Python floats are idealised as real numbers ([R]): every
    array entry is finite, there is no rounding, no overflow and no NaN.
    Where the source divides by a quantity that can be zero, the embedding
    makes the non-finite outcome explicit instead of using the value of
    [/ 0], and it does not follow a computation that goes on with
    non-finite values: what numpy and LAPACK do with them (a NaN factor, a
    NaN log-evidence) has no counterpart over [R].

    Arrays.  A one-dimensional numpy array is a [list R], its [size] is the
    length of the list.  A two-dimensional array is a record holding the
    rows and the number of columns, so that [shape[1]] is defined for an
    array without rows as well.

    Exceptions.  A Python call that can raise returns a [result]; [Diverge]
    stands for a computation the embedding does not follow to a value or
    an exception: a loop that did not finish within the fuel it was given,
    or an operation whose value is not a finite number. *)

From Stdlib Require Import Reals Lra Lia ZArith String Ascii.
From stdpp Require Import gmap list strings sorting pretty.

Open Scope R_scope.

(** ** Exceptions and results *)

Inductive exn : Type :=
| ValueError (msg : string)
| RuntimeError (msg : string)
| LinAlgError (msg : string)
| KeyError (key : Z)
| IndexError
| ZeroDivisionError.

Inductive result (A : Type) : Type :=
| Ok (a : A)
| Raise (e : exn)
| Diverge.

Arguments Ok {A} a.
Arguments Raise {A} e.
Arguments Diverge {A}.

#[export] Instance result_ret : MRet result := fun A a => Ok a.
#[export] Instance result_bind : MBind result := fun A B f r =>
  match r with
  | Ok a => f a
  | Raise e => Raise e
  | Diverge => Diverge
  end.

(** Reduction of the binds of [result] in a goal. *)
Ltac simpl_result := cbn [mbind result_bind mret result_ret].

(** ** numpy reductions over one-dimensional arrays *)

Definition np_sum (a : list R) : R := fold_right Rplus 0 a.

(** [np.max]: the reduction has no identity, an empty array is an error. *)
Definition np_max (a : list R) : result R :=
  match a with
  | [] => Raise (ValueError
      "zero-size array to reduction operation maximum which has no identity")
  | x :: a' => Ok (fold_left Rmax a' x)
  end.

Definition np_mean (a : list R) : R := np_sum a / INR (length a).

(** [np.std] with the default [ddof = 0]: the root of the mean squared
    deviation from the mean. *)
Definition np_std (a : list R) : R :=
  let m := np_mean a in
  sqrt (np_mean (map (fun x => (x - m) * (x - m)) a)).

(** Over the reals no entry is NaN, so [np.nanstd] and [np.nanmean] skip
    nothing. *)
Definition np_nanstd (a : list R) : R := np_std a.
Definition np_nanmean (a : list R) : R := np_mean a.

(** ** Weight kernel *)

(** [_calculate_weights(beta_increment, log_likelihoods)] *)
Definition _calculate_weights (beta_increment : R) (log_likelihoods : list R)
  : result (list R) :=
  let log_weights := map (fun l => beta_increment * l) log_likelihoods in
  m ← np_max log_weights;
  let normalized_log_weights := map (fun x => x - m) log_weights in
  let normalized_weights := map exp normalized_log_weights in
  let s := np_sum normalized_weights in
  let weights := map (fun x => x / s) normalized_weights in
  mret weights.

(** The normalised weights before the division by their sum, for a maximum
    [m]: used to state properties of the weights. *)
Definition shifted_exp (beta_increment m : R) (log_likelihoods : list R)
  : list R :=
  map exp (map (fun x => x - m)
             (map (fun l => beta_increment * l) log_likelihoods)).


(** Comparisons of reals are decided classically; they stand for the
    float comparisons of the source. *)
#[export] Instance Rlt_decision (x y : R) : Decision (x < y) := Rlt_dec x y.
#[export] Instance Rle_decision (x y : R) : Decision (x <= y) := Rle_dec x y.
#[export] Instance Rgt_decision (x y : R) : Decision (x > y) := Rgt_dec x y.
#[export] Instance Rge_decision (x y : R) : Decision (x >= y) := Rge_dec x y.
#[export] Instance Req_decision : EqDecision R := Req_dec_T.

(** [np.sign] *)
Definition np_sign (x : R) : R :=
  if decide (x < 0) then -1 else if decide (x = 0) then 0 else 1.

(** The builtin [min(a, b)]: the first argument unless the second is
    smaller. *)
Definition py_min (a b : R) : R := if decide (b < a) then b else a.

(** ** Evidence accumulator *)

(** [scipy.special.logsumexp] of a one-dimensional array, computed the way
    the library does: the maximum is taken out before exponentiation.  For
    an empty array the library does not raise: it returns minus infinity,
    which is not a real number. *)
Definition logsumexp (a : list R) : result R :=
  match a with
  | [] => Diverge
  | _ :: _ =>
      a_max ← np_max a;
      let tmp := map (fun x => exp (x - a_max)) a in
      mret (ln (np_sum tmp) + a_max)
  end.

(** [_calculate_log_evidence(beta_increment, log_likelihoods)]; for an
    empty vector the source returns NaN, the difference of two minus
    infinities. *)
Definition _calculate_log_evidence (beta_increment : R)
  (log_likelihoods : list R) : result R :=
  lse ← logsumexp (map (fun l => beta_increment * l) log_likelihoods);
  let log_evidence := lse - ln (INR (length log_likelihoods)) in
  mret log_evidence.

(** The increment as the specification words it: the logarithm of the sum
    of the exponentials of [beta_increment * l_i], minus [log N]. *)
Definition log_evidence_increment_spec (beta_increment : R)
  (log_likelihoods : list R) : R :=
  ln (np_sum (map (fun l => exp (beta_increment * l)) log_likelihoods))
  - ln (INR (length log_likelihoods)).

(** ** Temperature stepper *)

(** The coefficient of variation of a weight vector, as the source writes it
    at each of its uses. *)
Definition cov_of_weights (weights : list R) : R :=
  np_nanstd weights / np_nanmean weights.

(** The fields of scipy's [RootResults] that the source reads. *)
Record RootResults : Type := mkRootResults {
  root : R;
  converged : bool
}.

(** The nested function [cov_objective] of [_increment_beta], closed over
    [log_likelihoods] and [threshold_cov]. *)
Definition cov_objective (log_likelihoods : list R) (threshold_cov : R)
  (beta_increment : R) : result R :=
  weights ← _calculate_weights beta_increment log_likelihoods;
  let cov_weights := cov_of_weights weights in
  mret (cov_weights - threshold_cov).

(** The trial-and-error loop at the end of [_increment_beta]:
    [while cov_weights > threshold_cov: ...].  Each turn of the loop uses
    one unit of fuel. *)
Fixpoint shrink_beta_increment (fuel : nat) (log_likelihoods : list R)
  (threshold_cov : R) (beta_increment cov_weights : R) : result R :=
  if decide (cov_weights > threshold_cov) then
    match fuel with
    | O => Diverge
    | S fuel' =>
        let beta_increment := 0.99 * beta_increment in
        weights ← _calculate_weights beta_increment log_likelihoods;
        let cov_weights := cov_of_weights weights in
        shrink_beta_increment fuel' log_likelihoods threshold_cov
          beta_increment cov_weights
    end
  else mret beta_increment.

Section Stepper.

(** [scipy.optimize.root_scalar(f, bracket=[a, b], method='bisect')] is a
    parameter of the embedding.  The callback may raise, and so may the
    solver. *)
Variable root_scalar : (R -> result R) -> R -> R -> result RootResults.

(** [_increment_beta(log_likelihoods, beta, threshold_cov=1)] *)
Definition _increment_beta (fuel : nat) (log_likelihoods : list R)
  (beta : R) (threshold_cov : R) : result R :=
  let cov_objective := cov_objective log_likelihoods threshold_cov in
  f0 ← cov_objective 0;
  f1 ← cov_objective (1 - beta);
  if decide (np_sign f0 = np_sign f1) then mret 1
  else
    result ← root_scalar cov_objective 0 (1 - beta);
    if converged result then
      let new_beta := py_min (beta + root result) 1 in
      mret new_beta
    else
      let beta_increment := 1 - beta in
      weights ← _calculate_weights beta_increment log_likelihoods;
      let cov_weights := cov_of_weights weights in
      beta_increment ← shrink_beta_increment fuel log_likelihoods
                         threshold_cov beta_increment cov_weights;
      let proposed_beta := beta + beta_increment in
      let new_beta := py_min proposed_beta 1 in
      mret new_beta.

End Stepper.

(** What the source relies on from scipy's bracketing solver: on a bracket
    [a <= b] whose end values do not have the same strict sign, and with a
    callback that does not raise, it returns a result, and a converged root
    lies in the bracket. *)
Definition bracketing_solver
  (root_scalar : (R -> result R) -> R -> R -> result RootResults) : Prop :=
  forall (f : R -> result R) (g : R -> R) (a b : R),
    (forall x, f x = Ok (g x)) ->
    a <= b ->
    g a * g b <= 0 ->
    exists r, root_scalar f a b = Ok r /\
              (converged r = true -> a <= root r <= b).

(** *** scipy's bisection

    The solver behind [method='bisect'], following the library's
    documented algorithm and defaults: [xtol = 2e-12],
    [rtol = 4 * machine epsilon], [maxiter = 100]. *)
Definition bisect_xtol : R := 2e-12.
Definition bisect_rtol : R := 8.881784197001252e-16.
Definition bisect_maxiter : nat := 100.

Fixpoint bisect_loop (iter : nat) (f : R -> result R) (fa xa dm : R)
  : result RootResults :=
  match iter with
  | O => mret (mkRootResults xa false)
  | S iter' =>
      let dm := dm * 0.5 in
      let xm := xa + dm in
      fm ← f xm;
      let xa := if decide (fm * fa >= 0) then xm else xa in
      if decide (fm = 0 \/ Rabs dm < bisect_xtol + bisect_rtol * Rabs xm)
      then mret (mkRootResults xm true)
      else bisect_loop iter' f fa xa dm
  end.

Definition bisect (f : R -> result R) (a b : R) : result RootResults :=
  fa ← f a;
  fb ← f b;
  if decide (fa = 0) then mret (mkRootResults a true)
  else if decide (fb = 0) then mret (mkRootResults b true)
  else if decide (fa * fb > 0)
  then Raise (ValueError "f(a) and f(b) must have different signs")
  else bisect_loop bisect_maxiter f fa a (b - a).

(** ** Two-dimensional arrays and indexing *)

Record array2 : Type := Array2 {
  shape1 : nat;              (* number of columns, [a.shape[1]] *)
  rows : list (list R)       (* the rows, [a.shape[0]] of them *)
}.

Definition shape0 (a : array2) : nat := length (rows a).

Definition zeros_like2 (a : array2) : array2 :=
  Array2 (shape1 a) (map (fun r => map (fun _ => 0) r) (rows a)).

Definition zeros_like1 (a : list R) : list R := map (fun _ => 0) a.

(** [a[i]] and [a[i] = x] for an index [i >= 0]: out of range raises. *)
Definition get_item {A : Type} (a : list A) (i : nat) : result A :=
  match a !! i with
  | Some x => Ok x
  | None => Raise IndexError
  end.

Definition set_item {A : Type} (a : list A) (i : nat) (x : A)
  : result (list A) :=
  if decide (i < length a)%nat then Ok (<[i := x]> a) else Raise IndexError.

Definition set_row (a : array2) (i : nat) (r : list R) : result array2 :=
  rs ← set_item (rows a) i r;
  mret (Array2 (shape1 a) rs).

Definition dot (u v : list R) : R := np_sum (zip_with Rmult u v).

(** [L @ z] for a lower-triangular [L] stored without the zeros above its
    diagonal: row [i] holds the entries [L[i][0..i]]. *)
Definition matvec (L : list (list R)) (z : list R) : list R :=
  map (fun row => dot row z) L.

(** ** Proposal builder *)

(** The array [np.cov] returns: [squeeze] turns the covariance of a single
    variable into a zero-dimensional array.  [None] stands for an array with
    non-finite entries, the outcome of dividing by a zero normalisation. *)
Inductive cov_array : Type :=
| Cov0d (value : option R)
| Cov2d (entries : option (list (list R))).

Definition column (j : nat) (X : list (list R)) : list R :=
  map (fun r => nth j r 0) X.

(** [np.cov(m, rowvar=False, aweights=aweights)], with the default
    [ddof = 1]. *)
Definition np_cov (m : array2) (aweights : list R) : result cov_array :=
  let X := map (fun j => column j (rows m)) (seq 0 (shape1 m)) in
  if decide (shape1 m = 0%nat) then mret (Cov2d (Some []))
  else if decide (length aweights <> shape0 m)
  then Raise (RuntimeError "incompatible numbers of samples and aweights")
  else if decide (Exists (fun w => w < 0) aweights)
  then Raise (ValueError "aweights cannot be negative")
  else
    let w_sum := np_sum aweights in
    if decide (w_sum = 0) then Raise ZeroDivisionError
    else
      let avg := map (fun x => dot x aweights / w_sum) X in
      let fact := w_sum - 1 * np_sum (zip_with Rmult aweights aweights) / w_sum in
      let Xc := zip_with (fun x a => map (fun v => v - a) x) X avg in
      let c := map (fun xj =>
                 map (fun xk => dot xj (zip_with Rmult xk aweights)) Xc) Xc in
      let c := if decide (fact <= 0) then None
               else Some (map (map (fun v => v * (1 / fact))) c) in
      if decide (shape1 m = 1%nat)
      then mret (Cov0d (c' ← c; mret (nth 0 (nth 0 c' []) 0)))
      else mret (Cov2d c).

Definition cov_scale (s : R) (c : cov_array) : cov_array :=
  match c with
  | Cov0d v => Cov0d (x ← v; mret (s * x))
  | Cov2d e => Cov2d (m ← e; mret (map (map (fun x => s * x)) m))
  end.

(** [_get_scaled_proposal_covariance(samples, weights, scale_factor=0.2)] *)
Definition _get_scaled_proposal_covariance (samples : array2)
  (weights : list R) (scale_factor : R) : result cov_array :=
  c ← np_cov samples weights;
  mret (cov_scale (scale_factor ^ 2) c).

(** ** Pseudo-random generator

    A [numpy.random.Generator] is a position in a fixed sequence of draws;
    every draw advances the position. *)
Record Generator : Type := mkGenerator {
  position : nat;
  choice_at : nat -> nat -> list R -> nat;
  standard_normal_at : nat -> nat -> list R;
  uniform_at : nat -> R
}.

Definition advance (g : Generator) : Generator :=
  mkGenerator (S (position g)) (choice_at g) (standard_normal_at g)
    (uniform_at g).

Definition choice_atol : R := 1.4901161193847656e-08.

(** [rng.choice(a, p=p)] for an integer [a]: an index below [a]. *)
Definition rng_choice (g : Generator) (a : nat) (p : list R)
  : result (nat * Generator) :=
  if decide (a = 0%nat)
  then Raise (ValueError "a must be a positive integer unless no samples are taken")
  else if decide (length p <> a)
  then Raise (ValueError "a and p must have same size")
  else if decide (Exists (fun x => x < 0) p)
  then Raise (ValueError "probabilities are not non-negative")
  else if decide (Rabs (np_sum p - 1) > choice_atol)
  then Raise (ValueError "probabilities do not sum to 1")
  else mret (Nat.modulo (choice_at g (position g) a p) a, advance g).

(** [rng.standard_normal(size=d)] *)
Definition rng_standard_normal (g : Generator) (d : nat)
  : list R * Generator :=
  (take d (standard_normal_at g (position g) d ++ repeat 0 d), advance g).

(** [rng.uniform()] *)
Definition rng_uniform (g : Generator) : R * Generator :=
  (uniform_at g (position g), advance g).

(** ** The sampler object *)

Record TMCMC : Type := mkTMCMC {
  _log_likelihood_approximation : array2 -> list R;
  _log_posterior_approximation : array2 -> list R -> list R;
  num_steps : Z;
  threshold_cov : R;
  thinning_factor : Z;
  adapt_frequency : Z
}.

(** [TMCMC._generate_error_message(size)] *)
Definition _generate_error_message (size : nat) : string :=
  "Expected a single value, but got " +:+ pretty size +:+ " values.".

(** The truth value of the comparison [np.log(u) <= x]: the logarithm of 0
    is minus infinity, that of a negative number is NaN. *)
Definition np_log_le (u x : R) : bool :=
  if decide (u < 0) then false
  else if decide (u = 0) then true
  else bool_decide (ln u <= x).

(** [if a:] for an array [a] of booleans: only a single element has a truth
    value.  For an empty array numpy (2.2 and later) raises as well;
    earlier versions warned and took it as false. *)
Definition truth_value (a : list bool) : result bool :=
  match a with
  | [] => Raise (ValueError
      "The truth value of an empty array is ambiguous. Use `array.size > 0` to check that an array is not empty.")
  | [b] => Ok b
  | _ => Raise (ValueError
      "The truth value of an array with more than one element is ambiguous. Use a.any() or a.all()")
  end.

(** [a.item()] of an array of size 1 *)
Definition item (a : list R) : R := nth 0 a 0.

(** ** Rejuvenation engine *)

(** The local variables of [_run_one_stage] that its loops update. *)
Record chain : Type := mkChain {
  c_rng : Generator;
  c_weights : list R;
  c_scale_factor : R;
  c_cholesky : list (list R);
  c_current_samples : array2;
  c_current_log_likelihoods : list R;
  c_current_log_target_density_values : list R;
  c_num_accepts : Z;
  c_n_adapt : Z;
  c_step_count : Z
}.

Record emitted : Type := mkEmitted {
  new_samples : array2;
  new_log_likelihoods : list R;
  new_log_target_density_values : list R
}.

Fixpoint for_each {K S : Type} (ks : list K) (body : K -> S -> result S)
  (s : S) : result S :=
  match ks with
  | [] => Ok s
  | k :: ks' => s' ← body k s; for_each ks' body s'
  end.

(** [range(n)] *)
Definition range (n : Z) : list Z := map Z.of_nat (seq 0 (Z.to_nat n)).

Section Stage.

Variable root_scalar : (R -> result R) -> R -> R -> result RootResults.

(** The factorisation of a finite two-dimensional array by
    [np.linalg.cholesky] is a parameter of the embedding: [None] stands
    for its [LinAlgError]. *)
Variable cholesky : list (list R) -> option (list (list R)).

(** [np.linalg.cholesky(a)] on what [np.cov] returned.  A
    zero-dimensional array is refused.  What happens to a non-finite
    array depends on the LAPACK build (common ones return a NaN factor
    and the stage goes on with NaN proposals): the embedding does not
    follow it. *)
Definition np_linalg_cholesky (a : cov_array) : result (list (list R)) :=
  match a with
  | Cov0d _ => Raise (LinAlgError
      "0-dimensional array given. Array must be at least two-dimensional")
  | Cov2d None => Diverge
  | Cov2d (Some m) =>
      match cholesky m with
      | Some L => Ok L
      | None => Raise (LinAlgError "Matrix is not positive definite")
      end
  end.

Variable self : TMCMC.
Variable fuel : nat.

Section Steps.

Variables (beta new_beta : R).
Variable log_likelihood_function : array2 -> list R.
Variable log_target_density_function : array2 -> list R -> list R.
Variable target_acceptance_rate : R.
Variable burn_in_steps : Z.

(** The head of the inner loop body: when the step count is a multiple
    of [adapt_frequency] the scale factor is adapted and the proposal
    covariance and its factor are rebuilt; a failure of this
    factorisation is not caught.  The result is [(num_accepts, n_adapt,
    scale_factor, cholesky_lower_triangular_matrix)]. *)
Definition adapt_proposal (step_count : Z) (c : chain)
  : result (Z * Z * R * list (list R)) :=
  if decide (adapt_frequency self = 0)%Z then Raise ZeroDivisionError
  else if decide (step_count mod adapt_frequency self = 0)%Z then
    let acceptance_rate :=
      IZR (c_num_accepts c) / IZR (adapt_frequency self) in
    let num_accepts := 0%Z in
    let n_adapt := (c_n_adapt c + 1)%Z in
    let ca := (acceptance_rate - target_acceptance_rate)
              / sqrt (IZR n_adapt) in
    let scale_factor := c_scale_factor c * exp ca in
    proposal_covariance ← _get_scaled_proposal_covariance
      (c_current_samples c) (c_weights c) scale_factor;
    L ← np_linalg_cholesky proposal_covariance;
    mret (num_accepts, n_adapt, scale_factor, L)
  else mret (c_num_accepts c, c_n_adapt c, c_scale_factor c,
             c_cholesky c).

(** One turn of the inner loop [for _ in range(num_steps)], for the
    outer index [k] and the seed [index]. *)
Definition mh_step (k : Z) (index : nat) (c : chain) : result chain :=
  let step_count := (c_step_count c + 1)%Z in
  '(num_accepts, n_adapt, scale_factor, cholesky_lower_triangular_matrix) ←
    adapt_proposal step_count c;
  let '(standard_normal_samples, rng) :=
    rng_standard_normal (c_rng c) (shape1 (c_current_samples c)) in
  current_row ← get_item (rows (c_current_samples c)) index;
  let proposed_row :=
    zip_with Rplus current_row
      (matvec cholesky_lower_triangular_matrix standard_normal_samples) in
  let proposed_state := Array2 (length proposed_row) [proposed_row] in
  let log_likelihood_at_proposed_state :=
    log_likelihood_function proposed_state in
  let log_target_density_at_proposed_state :=
    log_target_density_function proposed_state
      log_likelihood_at_proposed_state in
  current_value ←
    get_item (c_current_log_target_density_values c) index;
  let log_hastings_ratio :=
    map (fun x => x - current_value)
      log_target_density_at_proposed_state in
  let '(u, rng) := rng_uniform rng in
  accept ← truth_value (map (np_log_le u) log_hastings_ratio);
  if accept : bool then
    let num_accepts := (num_accepts + 1)%Z in
    current_samples ← set_row (c_current_samples c) index proposed_row;
    if decide (length log_likelihood_at_proposed_state <> 1%nat)
    then Raise (ValueError (_generate_error_message
                  (length log_likelihood_at_proposed_state)))
    else
      current_log_likelihoods ←
        set_item (c_current_log_likelihoods c) index
          (item log_likelihood_at_proposed_state);
      if decide (length log_target_density_at_proposed_state <> 1%nat)
      then Raise (ValueError (_generate_error_message
                    (length log_target_density_at_proposed_state)))
      else
        current_log_target_density_values ←
          set_item (c_current_log_target_density_values c) index
            (item log_target_density_at_proposed_state);
        weights ←
          (if decide (k >= burn_in_steps)%Z
           then _calculate_weights (new_beta - beta)
                  current_log_likelihoods
           else mret (c_weights c));
        mret (mkChain rng weights scale_factor
                cholesky_lower_triangular_matrix current_samples
                current_log_likelihoods
                current_log_target_density_values
                num_accepts n_adapt step_count)
  else
    mret (mkChain rng (c_weights c) scale_factor
            cholesky_lower_triangular_matrix (c_current_samples c)
            (c_current_log_likelihoods c)
            (c_current_log_target_density_values c)
            num_accepts n_adapt step_count).

(** The inner loop: [num_steps] turns of [mh_step]. *)
Definition mh_steps (num_steps_k : Z) (k : Z) (index : nat) (c : chain)
  : result chain :=
  for_each (range num_steps_k) (fun _ => mh_step k index) c.

(** One turn of the outer loop [for k in range(burn_in_steps +
    num_samples)]; the loop state holds the local [num_steps]
    (here [num_steps_k]), which the loop reassigns. *)
Definition stage_turn (num_samples : nat) (do_thinning : bool) (k : Z)
  (s : Z * chain * emitted) : result (Z * chain * emitted) :=
  let '(num_steps_k, c, out) := s in
  '(index, rng) ← rng_choice (c_rng c) num_samples (c_weights c);
  let c := mkChain rng (c_weights c) (c_scale_factor c) (c_cholesky c)
             (c_current_samples c) (c_current_log_likelihoods c)
             (c_current_log_target_density_values c) (c_num_accepts c)
             (c_n_adapt c) (c_step_count c) in
  let num_steps_k :=
    if decide (k >= burn_in_steps)%Z then
      if bool_decide (new_beta = 1) || do_thinning
      then (num_steps self * thinning_factor self)%Z
      else num_steps_k
    else num_steps_k in
  c ← mh_steps num_steps_k k index c;
  if decide (k >= burn_in_steps)%Z then
    let k_prime := Z.to_nat (k - burn_in_steps) in
    r ← get_item (rows (c_current_samples c)) index;
    new_samples ← set_row (new_samples out) k_prime r;
    l ← get_item (c_current_log_likelihoods c) index;
    new_log_likelihoods ← set_item (new_log_likelihoods out) k_prime l;
    t ← get_item (c_current_log_target_density_values c) index;
    new_log_target_density_values ←
      set_item (new_log_target_density_values out) k_prime t;
    mret (num_steps_k, c,
          mkEmitted new_samples new_log_likelihoods
            new_log_target_density_values)
  else mret (num_steps_k, c, out).

End Steps.

(** [TMCMC._run_one_stage(...)]: the stage record it returns, and the
    generator after the stage's draws. *)
Definition _run_one_stage (samples : array2) (log_likelihoods : list R)
  (log_target_density_values : list R) (beta : R) (rng : Generator)
  (log_likelihood_function : array2 -> list R)
  (log_target_density_function : array2 -> list R -> list R)
  (scale_factor target_acceptance_rate : R)
  (do_thinning : bool) (burn_in_steps : Z)
  : result (array2 * list R * list R * R * R * Generator) :=
  (* the call passes no threshold: the default [threshold_cov=1] *)
  new_beta ← _increment_beta root_scalar fuel log_likelihoods beta 1;
  log_evidence ← _calculate_log_evidence (new_beta - beta) log_likelihoods;
  weights ← _calculate_weights (new_beta - beta) log_likelihoods;
  proposal_covariance ←
    _get_scaled_proposal_covariance samples weights scale_factor;
  cholesky_lower_triangular_matrix ←
    match np_linalg_cholesky proposal_covariance with
    | Raise (LinAlgError exc) =>
        Raise (RuntimeError ("Cholesky decomposition failed: " +:+ exc))
    | r => r
    end;
  let out := mkEmitted (zeros_like2 samples) (zeros_like1 log_likelihoods)
               (zeros_like1 log_target_density_values) in
  let num_samples := shape0 samples in
  let c := mkChain rng weights scale_factor cholesky_lower_triangular_matrix
             samples log_likelihoods log_target_density_values 0 1 0 in
  '(_, c, out) ←
    for_each (range (burn_in_steps + Z.of_nat num_samples))
      (stage_turn beta new_beta log_likelihood_function
         log_target_density_function target_acceptance_rate burn_in_steps
         num_samples do_thinning)
      (num_steps self, c, out);
  mret (new_samples out, new_log_likelihoods out,
        new_log_target_density_values out, new_beta, log_evidence, c_rng c).

End Stage.

(** ** Stage driver *)

(** The five run-state mappings.  [run] receives them as dictionaries and
    mutates them in place, so they are the store of the driver: what they
    hold when an exception leaves [run] is what the caller observes. *)
Record run_state : Type := mkRunState {
  samples_dict : gmap Z array2;
  betas_dict : gmap Z R;
  log_likelihoods_dict : gmap Z (list R);
  log_target_density_values_dict : gmap Z (list R);
  log_evidence_dict : gmap Z R
}.

(** Computations of the driver: they read and write the store, and end with
    a value, an exception or out of fuel. *)
Definition M (A : Type) : Type := run_state -> result A * run_state.

#[export] Instance M_ret : MRet M := fun A a h => (Ok a, h).
#[export] Instance M_bind : MBind M := fun A B f m h =>
  match m h with
  | (Ok a, h') => f a h'
  | (Raise e, h') => (Raise e, h')
  | (Diverge, h') => (Diverge, h')
  end.

Definition lift {A : Type} (r : result A) : M A := fun h => (r, h).

Definition get_state : M run_state := fun h => (Ok h, h).

(** [d[k]] for one of the dictionaries: a missing key raises. *)
Definition getitem {V : Type} (d : run_state -> gmap Z V) (k : Z) : M V :=
  fun h => match d h !! k with
           | Some v => (Ok v, h)
           | None => (Raise (KeyError k), h)
           end.

(** [d[k] = v], one definition per dictionary. *)
Definition set_samples (k : Z) (v : array2) : M unit := fun h =>
  (Ok tt, mkRunState (<[k := v]> (samples_dict h)) (betas_dict h)
            (log_likelihoods_dict h) (log_target_density_values_dict h)
            (log_evidence_dict h)).

Definition set_beta (k : Z) (v : R) : M unit := fun h =>
  (Ok tt, mkRunState (samples_dict h) (<[k := v]> (betas_dict h))
            (log_likelihoods_dict h) (log_target_density_values_dict h)
            (log_evidence_dict h)).

Definition set_log_likelihoods (k : Z) (v : list R) : M unit := fun h =>
  (Ok tt, mkRunState (samples_dict h) (betas_dict h)
            (<[k := v]> (log_likelihoods_dict h))
            (log_target_density_values_dict h) (log_evidence_dict h)).

Definition set_log_target_density_values (k : Z) (v : list R) : M unit :=
  fun h =>
  (Ok tt, mkRunState (samples_dict h) (betas_dict h)
            (log_likelihoods_dict h)
            (<[k := v]> (log_target_density_values_dict h))
            (log_evidence_dict h)).

Definition set_log_evidence (k : Z) (v : R) : M unit := fun h =>
  (Ok tt, mkRunState (samples_dict h) (betas_dict h)
            (log_likelihoods_dict h) (log_target_density_values_dict h)
            (<[k := v]> (log_evidence_dict h))).

Section Driver.

Variable root_scalar : (R -> result R) -> R -> R -> result RootResults.
Variable cholesky : list (list R) -> option (list (list R)).
Variable self : TMCMC.
Variable fuel : nat.

(** The attributes [run] computes once and stores on [self]. *)
Variables (scale_factor target_acceptance_rate : R).
Variable num_burn_in : Z.

(** The body of the [while] loop of [run]: one stage, then the five
    assignments at the next stage number.  It yields the new stage number
    and the generator after the stage. *)
Definition run_turn (rng : Generator) (stage_num : Z)
  : M (Z * Generator) :=
  samples ← getitem samples_dict stage_num;
  log_likelihoods ← getitem log_likelihoods_dict stage_num;
  log_target_density_values ←
    getitem log_target_density_values_dict stage_num;
  beta ← getitem betas_dict stage_num;
  '(new_samples, new_log_likelihoods, new_log_target_density_values,
    new_beta, log_evidence, rng) ←
    lift (_run_one_stage root_scalar cholesky self fuel samples
            log_likelihoods log_target_density_values beta rng
            (_log_likelihood_approximation self)
            (_log_posterior_approximation self)
            scale_factor target_acceptance_rate false num_burn_in);
  let stage_num := (stage_num + 1)%Z in
  _ ← set_samples stage_num new_samples;
  _ ← set_beta stage_num new_beta;
  _ ← set_log_likelihoods stage_num new_log_likelihoods;
  _ ← set_log_target_density_values stage_num
        new_log_target_density_values;
  _ ← set_log_evidence stage_num log_evidence;
  mret (stage_num, rng).

(** [while betas_dict[stage_num] < 1: ...]; every stage uses one unit of
    [stages].  The loop yields the last stage number and the generator. *)
Fixpoint run_loop (stages : nat) (rng : Generator) (stage_num : Z)
  : M (Z * Generator) :=
  beta ← getitem betas_dict stage_num;
  if decide (beta < 1) then
    match stages with
    | O => lift Diverge
    | S stages' =>
        '(stage_num, rng) ← run_turn rng stage_num;
        run_loop stages' rng stage_num
    end
  else mret (stage_num, rng).

End Driver.

(** [TMCMC.run(samples_dict, betas_dict, log_likelihoods_dict,
    log_target_density_values_dict, log_evidence_dict, rng, stage_num,
    num_burn_in=0)]: the five dictionaries are the store; the value is the
    tuple of the five dictionaries. *)
Definition run
  (root_scalar : (R -> result R) -> R -> R -> result RootResults)
  (cholesky : list (list R) -> option (list (list R)))
  (self : TMCMC) (fuel stages : nat)
  (rng : Generator) (stage_num : Z) (num_burn_in : Z) : M run_state :=
  samples0 ← getitem samples_dict 0%Z;
  let num_dimensions := shape1 samples0 in
  target_acceptance_rate ←
    (if decide (num_dimensions = 0%nat) then lift (Raise ZeroDivisionError)
     else mret (0.23 + 0.21 / INR num_dimensions));
  let scale_factor := 2.4 / sqrt (INR num_dimensions) in
  _ ← run_loop root_scalar cholesky self fuel scale_factor
        target_acceptance_rate num_burn_in stages rng stage_num;
  get_state.

(** The store after the five assignments that follow a stage entered at
    stage number [s]. *)
Definition appended (h : run_state) (s : Z) (ns : array2) (nll nltd : list R)
  (nb le : R) : run_state :=
  mkRunState (<[(s + 1)%Z := ns]> (samples_dict h))
    (<[(s + 1)%Z := nb]> (betas_dict h))
    (<[(s + 1)%Z := nll]> (log_likelihoods_dict h))
    (<[(s + 1)%Z := nltd]> (log_target_density_values_dict h))
    (<[(s + 1)%Z := le]> (log_evidence_dict h)).

(** The points of a run between two stages: the store, the generator and
    the stage number each time the loop condition is about to be tested. *)
Inductive stage_boundary (turn : Generator -> Z -> M (Z * Generator))
  : run_state * Generator * Z -> run_state * Generator * Z -> Prop :=
| boundary_here x : stage_boundary turn x x
| boundary_next h rng s beta h' rng' s' y :
    betas_dict h !! s = Some beta ->
    beta < 1 ->
    turn rng s h = (Ok (s', rng'), h') ->
    stage_boundary turn (h', rng', s') y ->
    stage_boundary turn (h, rng, s) y.

(** ** Warm-start selector *)

(** Subtraction of two one-dimensional arrays, with numpy's broadcasting of
    an array of size 1. *)
Definition np_subtract (a b : list R) : result (list R) :=
  if decide (length a = length b) then Ok (zip_with Rminus a b)
  else if decide (length b = 1%nat) then Ok (map (fun x => x - item b) a)
  else if decide (length a = 1%nat) then Ok (map (fun y => item a - y) b)
  else Raise (ValueError "operands could not be broadcast together").

(** [_calculate_weights_warm_start(beta, current_loglikelihoods,
    previous_loglikelihoods)] *)
Definition _calculate_weights_warm_start (beta : R)
  (current_loglikelihoods previous_loglikelihoods : list R)
  : result (list R) :=
  difference ← np_subtract current_loglikelihoods previous_loglikelihoods;
  let log_weights := map (fun x => beta * x) difference in
  m ← np_max log_weights;
  let normalized_log_weights := map (fun x => x - m) log_weights in
  let normalized_weights := map exp normalized_log_weights in
  let s := np_sum normalized_weights in
  let weights := map (fun x => x / s) normalized_weights in
  mret weights.

(** [sorted(d.keys(), reverse=True)] *)
Definition descending (x y : Z) : Prop := (y <= x)%Z.

#[export] Instance descending_decision (x y : Z) : Decision (descending x y) :=
  Z_le_dec y x.

Definition sorted_reverse (keys : list Z) : list Z :=
  merge_sort descending keys.

Definition lookup_key {V : Type} (d : gmap Z V) (k : Z) : result V :=
  match d !! k with
  | Some v => Ok v
  | None => Raise (KeyError k)
  end.

(** The body of the [for stage_num in stage_nums] loop of
    [calculate_warm_start_stage], up to the coefficient of variation of the
    re-weighted stage. *)
Definition warm_start_cov
  (current_loglikelihood_approximation : array2 -> list R)
  (previous_results : gmap Z array2 * gmap Z R * gmap Z (list R))
  (stage_num : Z) : result R :=
  samples ← lookup_key (previous_results.1.1) stage_num;
  let current_loglikelihoods :=
    current_loglikelihood_approximation samples in
  previous_loglikelihoods ← lookup_key (previous_results.2) stage_num;
  beta ← lookup_key (previous_results.1.2) stage_num;
  weights ← _calculate_weights_warm_start beta current_loglikelihoods
              previous_loglikelihoods;
  let cov_weights := np_nanstd weights / np_nanmean weights in
  mret cov_weights.

(** The loop itself: the first stage below the threshold is returned, 0 when
    there is none. *)
Fixpoint warm_start_scan
  (current_loglikelihood_approximation : array2 -> list R)
  (previous_results : gmap Z array2 * gmap Z R * gmap Z (list R))
  (threshold_cov : R) (stage_nums : list Z) : result Z :=
  match stage_nums with
  | [] => mret 0%Z
  | stage_num :: rest =>
      cov_weights ← warm_start_cov current_loglikelihood_approximation
                      previous_results stage_num;
      if decide (cov_weights < threshold_cov) then mret stage_num
      else warm_start_scan current_loglikelihood_approximation
             previous_results threshold_cov rest
  end.

(** [calculate_warm_start_stage(current_loglikelihood_approximation,
    previous_results, threshold_cov=1)] *)
Definition calculate_warm_start_stage
  (current_loglikelihood_approximation : array2 -> list R)
  (previous_results : gmap Z array2 * gmap Z R * gmap Z (list R))
  (threshold_cov : R) : result Z :=
  let stage_nums := sorted_reverse (elements (dom (previous_results.1.1))) in
  warm_start_scan current_loglikelihood_approximation previous_results
    threshold_cov stage_nums.

(** ** A Cholesky factorisation

    The row-by-row algorithm (Cholesky-Banachiewicz) on the lower triangle
    of its argument; the factor is stored without the zeros above its
    diagonal. *)

(** The entries left of the diagonal in the new row of the factor: forward
    substitution of the row [a] of the matrix against the rows [L] found so
    far. *)
Fixpoint cholesky_row (L : list (list R)) (a : list R) (y : list R) : list R :=
  match L with
  | Lj :: L' =>
      let j := length y in
      cholesky_row L' a (y ++ [(nth j a 0 - dot y Lj) / nth j Lj 0])
  | [] => y
  end.

Fixpoint cholesky_rows (a : list (list R)) (L : list (list R))
  : option (list (list R)) :=
  match a with
  | [] => Some L
  | ai :: a' =>
      let y := cholesky_row L ai [] in
      let d := nth (length L) ai 0 - dot y y in
      if decide (0 < d) then cholesky_rows a' (L ++ [y ++ [sqrt d]])
      else None
  end.

Definition cholesky_lower (a : list (list R)) : option (list (list R)) :=
  cholesky_rows a [].

(** ** Total readings of the weight kernel

    Used to state properties: the weights and their coefficient of variation
    as functions of the beta increment, for a vector known to be
    non-empty. *)
Definition weights_at (log_likelihoods : list R) (beta_increment : R)
  : list R :=
  match _calculate_weights beta_increment log_likelihoods with
  | Ok w => w
  | _ => []
  end.

Definition cov_at (log_likelihoods : list R) (beta_increment : R) : R :=
  cov_of_weights (weights_at log_likelihoods beta_increment).

Definition abs_sum (a : list R) : R := np_sum (map Rabs a).

(** ** The re-weighted coefficient of variation, as specified

    The quantity the warm-start selector compares with the threshold, in
    the words of the specification: the coefficient of variation (standard
    deviation over mean) of weights proportional to
    [exp (beta * (l'_i - l_i))], where [l'] are the new log-likelihoods of
    the stored samples and [l] the stored ones. *)
Definition reweighted_cov_spec (beta : R) (current previous : list R) : R :=
  let unnormalised :=
    zip_with (fun c p => exp (beta * (c - p))) current previous in
  let weights := map (fun x => x / np_sum unnormalised) unnormalised in
  np_std weights / np_mean weights.


(** ** Concrete inputs used in the examples *)

(** A generator whose draws are all the same: seed index 0, a zero noise
    vector, the uniform draw 1/2; [generator_at p] is the generator after
    [p] draws. *)
Definition generator_at (p : nat) : Generator :=
  mkGenerator p (fun _ _ _ => 0%nat) (fun _ d => repeat 0 d)
    (fun _ => 1 / 2).

Definition fixed_generator : Generator := generator_at 0.

(** A sampler whose log-likelihood evaluator returns two values for a row,
    and whose log-target-density evaluator returns the single value -1. *)
Definition two_valued_sampler : TMCMC :=
  mkTMCMC (fun _ => [0; 0]) (fun _ _ => [-1]) 1 2 1 50.

(** The same with a log-target-density evaluator that returns the single
    value 1, so that every proposal is accepted. *)
Definition accepting_sampler : TMCMC :=
  mkTMCMC (fun _ => [0; 0]) (fun _ _ => [1]) 1 2 1 50.

(** Four samples at the corners of a square, with equal log-likelihoods. *)
Definition square_samples : array2 :=
  Array2 2 [[1; 1]; [1; -1]; [-1; 1]; [-1; -1]].

Definition zeros4 : list R := repeat 0 4.

(** The loop variables of a stage on the square samples after [p] draws and
    [k] rejected steps. *)
Definition square_chain (p : nat) (L : list (list R)) (k : nat) : chain :=
  mkChain (generator_at p) (repeat (1 / INR 4) 4) 1 L square_samples zeros4
    zeros4 0 1 (Z.of_nat k).

(** A run state whose only stage holds three samples of a one-dimensional
    problem. *)
Definition one_dimensional_state : run_state :=
  mkRunState {[ 0%Z := Array2 1 [[0]; [1]; [2]] ]} {[ 0%Z := 0 ]}
    {[ 0%Z := repeat (-1) 3 ]} {[ 0%Z := repeat (-1) 3 ]} {[ 0%Z := 0 ]}.

(** A run state whose last stage has reached beta = 1. *)
Definition finished_state : run_state :=
  mkRunState {[ 0%Z := Array2 2 [[0; 0]; [1; 1]] ]} {[ 0%Z := 1 ]}
    {[ 0%Z := [0; 0] ]} {[ 0%Z := [0; 0] ]} {[ 0%Z := 0 ]}.

(** Log-likelihoods with one dominant sample. *)
Definition peaked_log_likelihoods : list R := [0; -100; -100; -100].

(** Results of an earlier run with one stored stage, at beta 1, whose
    stored log-likelihoods are all 0; under a new approximation that
    returns [peaked_log_likelihoods] one sample dominates. *)
Definition outdated_samples : gmap Z array2 := {[ 1%Z := square_samples ]}.

Definition outdated_betas : gmap Z R := {[ 1%Z := 1 ]}.

Definition outdated_log_likelihoods : gmap Z (list R) := {[ 1%Z := zeros4 ]}.

(** ** Closed forms and the demonstration's evaluators *)

(** The importance weights in closed form: [exp (d * l_i)] over the sum of
    these terms, without the shift by the maximum. *)
Definition normalised_exponentials (beta_increment : R)
  (log_likelihoods : list R) : list R :=
  let s := np_sum (map (fun y => exp (beta_increment * y)) log_likelihoods) in
  map (fun x => exp (beta_increment * x) / s) log_likelihoods.

(** The evaluators and the sampler of the module's [__main__] block:
    [-0.5 * np.sum((samples - 10) ** 2, axis=1)], and a target density that
    returns the log-likelihoods it is given. *)
Definition _log_likelihood_approximation_function (samples : array2)
  : list R :=
  map (fun r => -0.5 * np_sum (map (fun x => (x - 10) ^ 2) r)) (rows samples).

Definition _log_target_density_approximation_function (samples : array2)
  (log_likelihoods : list R) : list R :=
  log_likelihoods.

Definition tmcmc_sampler : TMCMC :=
  mkTMCMC _log_likelihood_approximation_function
    _log_target_density_approximation_function 1 1 5 50.

(** What [_run_one_stage] needs from its two evaluators: one value for a
    single row. *)
Definition single_valued (log_likelihood_function : array2 -> list R)
  (log_target_density_function : array2 -> list R -> list R) : Prop :=
  forall row,
    let state := Array2 (length row) [row] in
    length (log_likelihood_function state) = 1%nat /\
    length (log_target_density_function state
              (log_likelihood_function state)) = 1%nat.

(** The five mappings of two stores agree at a key. *)
Definition same_stage (h h' : run_state) (k : Z) : Prop :=
  samples_dict h' !! k = samples_dict h !! k /\
  betas_dict h' !! k = betas_dict h !! k /\
  log_likelihoods_dict h' !! k = log_likelihoods_dict h !! k /\
  log_target_density_values_dict h' !! k
  = log_target_density_values_dict h !! k /\
  log_evidence_dict h' !! k = log_evidence_dict h !! k.

(** The five mappings of a store all hold a key. *)
Definition stored_stage (h : run_state) (k : Z) : Prop :=
  is_Some (samples_dict h !! k) /\
  is_Some (betas_dict h !! k) /\
  is_Some (log_likelihoods_dict h !! k) /\
  is_Some (log_target_density_values_dict h !! k) /\
  is_Some (log_evidence_dict h !! k).

(** The exception of [np.max] on an empty array. *)
Definition empty_reduction_error : exn :=
  ValueError
    "zero-size array to reduction operation maximum which has no identity".

(** Results of an earlier run with two stored stages. *)
Definition stored_samples : gmap Z array2 :=
  {[ 0%Z := Array2 1 [[0]; [1]]; 1%Z := Array2 1 [[2]; [3]] ]}.

Definition stored_betas : gmap Z R := {[ 0%Z := 0; 1%Z := 1 ]}.

Definition stored_log_likelihoods : gmap Z (list R) :=
  {[ 0%Z := [0; -1]; 1%Z := [-1; -2] ]}.

(** The shape of the three arrays a stage fills. *)
Definition emitted_shape (out : emitted) : nat * nat * nat * nat :=
  (shape0 (new_samples out), shape1 (new_samples out),
   length (new_log_likelihoods out),
   length (new_log_target_density_values out)).

(** The demonstration's sampler with adaptation switched to every 0 steps. *)
Definition unadapted_sampler : TMCMC :=
  mkTMCMC _log_likelihood_approximation_function
    _log_target_density_approximation_function 1 1 5 0.

(** The loop variables of a stage on the square samples whose stored
    log-likelihoods and log-target densities are all -100, with the
    identity as Cholesky factor. *)
Definition unlikely_chain : chain :=
  mkChain fixed_generator (repeat (1 / INR 4) 4) 1 [[1]; [0; 1]]
    square_samples (repeat (-100) 4) (repeat (-100) 4) 0 1 0.

(** A run state whose only stage holds the square samples at beta 0, and
    the loop variables of its stage for a scale factor [s]. *)
Definition square_state : run_state :=
  mkRunState {[ 0%Z := square_samples ]} {[ 0%Z := 0 ]}
    {[ 0%Z := zeros4 ]} {[ 0%Z := zeros4 ]} {[ 0%Z := 0 ]}.

Definition scaled_square_chain (s : R) (p : nat) (L : list (list R))
  (k : nat) : chain :=
  mkChain (generator_at p) (repeat (1 / INR 4) 4) s L square_samples zeros4
    zeros4 0 1 (Z.of_nat k).

(** The stage that a run appends to [square_state] when every proposal is
    rejected. *)
Definition square_state_after : run_state :=
  appended square_state 0 (Array2 2 [[1; 1]; [1; 1]; [1; 1]; [1; 1]])
    [0; 0; 0; 0] [0; 0; 0; 0] 1 (log_evidence_increment_spec (1 - 0) zeros4).

(** A solver that gives up at once: it reports no convergence. *)
Definition unconverged_solver (f : R -> result R) (a b : R)
  : result RootResults :=
  Ok (mkRootResults a false).

(** * Properties *)

(** ** Helper lemmas on sums and maxima *)

Lemma np_sum_app (a b : list R) : np_sum (a ++ b) = np_sum a + np_sum b.
Proof.
  induction a as [|x a IH]; simpl; [lra|].
  unfold np_sum in *. simpl. rewrite IH. lra.
Qed.

Lemma np_sum_map_div (a : list R) (s : R) :
  np_sum (map (fun x => x / s) a) = np_sum a / s.
Proof.
  induction a as [|x a IH]; unfold np_sum in *; simpl.
  - unfold Rdiv. lra.
  - rewrite IH. unfold Rdiv. lra.
Qed.

Lemma np_sum_exp_pos (a : list R) : a <> [] -> 0 < np_sum (map exp a).
Proof.
  destruct a as [|x a]; [congruence|]. intros _.
  revert x. induction a as [|y a IH]; intros x; unfold np_sum in *; simpl.
  - pose proof (exp_pos x). lra.
  - specialize (IH y). simpl in IH. pose proof (exp_pos x). lra.
Qed.

Lemma np_sum_nonneg (a : list R) : Forall (fun x => 0 <= x) a -> 0 <= np_sum a.
Proof.
  induction 1 as [|x a Hx _ IH]; unfold np_sum in *; simpl; lra.
Qed.

Lemma calculate_weights_inv (beta_increment : R) (log_likelihoods w : list R) :
  _calculate_weights beta_increment log_likelihoods = Ok w ->
  log_likelihoods <> [] /\
  exists m,
    np_max (map (fun l => beta_increment * l) log_likelihoods) = Ok m /\
    w = map (fun x => x / np_sum (shifted_exp beta_increment m log_likelihoods))
            (shifted_exp beta_increment m log_likelihoods).
Proof.
  unfold _calculate_weights. intros H.
  destruct log_likelihoods as [|l ls]; [discriminate|].
  split; [discriminate|].
  destruct (np_max _) as [m| |] eqn:Hm; try discriminate.
  exists m. split; [reflexivity|]. simpl in H. injection H as <-. reflexivity.
Qed.

Lemma calculate_weights_total (beta_increment : R) (log_likelihoods : list R) :
  log_likelihoods <> [] ->
  exists w, _calculate_weights beta_increment log_likelihoods = Ok w.
Proof.
  destruct log_likelihoods as [|l ls]; [congruence|]. intros _.
  unfold _calculate_weights. simpl. eauto.
Qed.

Lemma shifted_exp_sum_pos (beta_increment m : R) (log_likelihoods : list R) :
  log_likelihoods <> [] ->
  0 < np_sum (shifted_exp beta_increment m log_likelihoods).
Proof.
  intros H. apply np_sum_exp_pos.
  destruct log_likelihoods; [congruence | discriminate].
Qed.

Lemma weights_nonneg_sum (beta_increment : R) (log_likelihoods w : list R) :
  _calculate_weights beta_increment log_likelihoods = Ok w ->
  Forall (fun x => 0 < x) w /\ np_sum w = 1 /\
  length w = length log_likelihoods.
Proof.
  intros H. apply calculate_weights_inv in H as (Hne & m & _ & ->).
  pose proof (shifted_exp_sum_pos beta_increment m _ Hne) as Hpos.
  repeat split.
  - apply Forall_map. unfold shifted_exp.
    apply Forall_map, Forall_true. intros x. simpl.
    apply Rdiv_lt_0_compat; [apply exp_pos | exact Hpos].
  - rewrite np_sum_map_div. field. lra.
  - unfold shifted_exp. rewrite !length_map. reflexivity.
Qed.

(** ** C5: weight normalization *)

(** C5.  For a beta increment [>= 0] and a vector of (finite, real)
    log-likelihoods, the weights that [_calculate_weights] returns are all
    nonnegative and sum to exactly 1; a non-empty vector always yields
    weights, one per entry. *)
Theorem calculate_weights_normalized
  (beta_increment : R) (log_likelihoods : list R) :
  0 <= beta_increment ->
  (log_likelihoods <> [] ->
     exists w, _calculate_weights beta_increment log_likelihoods = Ok w) /\
  (forall w, _calculate_weights beta_increment log_likelihoods = Ok w ->
     Forall (fun x => 0 <= x) w /\ np_sum w = 1 /\
     length w = length log_likelihoods).
Proof.
  intros _. split.
  - apply calculate_weights_total.
  - intros w Hw. apply weights_nonneg_sum in Hw as (Hpos & Hsum & Hlen).
    repeat split; [|assumption..].
    eapply Forall_impl; [exact Hpos|]. intros x Hx. simpl in Hx. lra.
Qed.

Lemma calculate_weights_normalized_witness :
  0 <= 1/2 /\
  exists w, _calculate_weights (1/2) [0; -1] = Ok w /\
            Forall (fun x => 0 <= x) w /\ np_sum w = 1.
Proof.
  split; [lra|].
  destruct (calculate_weights_normalized (1/2) [0; -1]) as [Htot Hok]; [lra|].
  destruct Htot as [w Hw]; [discriminate|].
  exists w. split; [exact Hw|].
  destruct (Hok w Hw) as (Hnn & Hsum & _). split; assumption.
Defined.

(** ** Maxima *)

Lemma fold_left_Rmax_init (a : list R) (x : R) : x <= fold_left Rmax a x.
Proof.
  revert x. induction a as [|y a IH]; intros x; simpl; [lra|].
  eapply Rle_trans; [apply (Rmax_l x y) | apply IH].
Qed.

Lemma fold_left_Rmax_ge (a : list R) (x y : R) :
  In y a -> y <= fold_left Rmax a x.
Proof.
  revert x. induction a as [|z a IH]; intros x Hin; simpl in *; [tauto|].
  destruct Hin as [-> | Hin].
  - eapply Rle_trans; [apply (Rmax_r x y) | apply fold_left_Rmax_init].
  - apply IH, Hin.
Qed.

Lemma fold_left_Rmax_in (a : list R) (x : R) :
  fold_left Rmax a x = x \/ In (fold_left Rmax a x) a.
Proof.
  revert x. induction a as [|z a IH]; intros x; simpl; [tauto|].
  destruct (IH (Rmax x z)) as [H | H].
  - rewrite H. unfold Rmax. destruct (Rle_dec x z); tauto.
  - tauto.
Qed.

Lemma np_max_spec (a : list R) (m : R) :
  np_max a = Ok m -> In m a /\ forall y, In y a -> y <= m.
Proof.
  destruct a as [|x a]; simpl; [discriminate|].
  intros [= <-]. split.
  - destruct (fold_left_Rmax_in a x) as [-> | H]; tauto.
  - intros y [<- | Hy]; [apply fold_left_Rmax_init | apply fold_left_Rmax_ge, Hy].
Qed.

Lemma np_max_total (a : list R) : a <> [] -> exists m, np_max a = Ok m.
Proof. destruct a; [congruence | simpl; eauto]. Qed.

(** ** Constant vectors *)

Lemma np_sum_repeat (x : R) (n : nat) : np_sum (repeat x n) = INR n * x.
Proof.
  induction n as [|n IH]; [simpl; unfold np_sum; simpl; lra|].
  rewrite S_INR. unfold np_sum in *. simpl. rewrite IH. lra.
Qed.

Lemma np_max_repeat (x : R) (n : nat) : np_max (repeat x (S n)) = Ok x.
Proof.
  simpl. f_equal. induction n as [|n IH]; simpl; [reflexivity|].
  rewrite Rmax_left by lra. exact IH.
Qed.

Lemma INR_S_neq_0 (n : nat) : INR (S n) <> 0.
Proof. apply not_0_INR. discriminate. Qed.

Lemma calculate_weights_repeat (beta_increment c : R) (n : nat) :
  _calculate_weights beta_increment (repeat c (S n))
  = Ok (repeat (1 / INR (S n)) (S n)).
Proof.
  unfold _calculate_weights. rewrite map_repeat, np_max_repeat.
  simpl_result. rewrite !map_repeat.
  f_equal. rewrite np_sum_repeat.
  replace (beta_increment * c - beta_increment * c) with 0 by lra.
  rewrite exp_0. f_equal. rewrite Rmult_1_r. reflexivity.
Qed.

Lemma np_mean_repeat (x : R) (n : nat) : np_mean (repeat x (S n)) = x.
Proof.
  unfold np_mean. rewrite np_sum_repeat, repeat_length.
  field. apply INR_S_neq_0.
Qed.

Lemma np_std_repeat (x : R) (n : nat) : np_std (repeat x (S n)) = 0.
Proof.
  unfold np_std. rewrite np_mean_repeat, map_repeat, np_mean_repeat.
  replace ((x - x) * (x - x)) with 0 by lra. apply sqrt_0.
Qed.

Lemma cov_of_weights_repeat (x : R) (n : nat) :
  cov_of_weights (repeat x (S n)) = 0.
Proof.
  unfold cov_of_weights, np_nanstd, np_nanmean.
  rewrite np_std_repeat. unfold Rdiv. apply Rmult_0_l.
Qed.

Lemma cov_objective_repeat (c threshold_cov beta_increment : R) (n : nat) :
  cov_objective (repeat c (S n)) threshold_cov beta_increment
  = Ok (- threshold_cov).
Proof.
  unfold cov_objective. rewrite calculate_weights_repeat.
  simpl_result.
  rewrite cov_of_weights_repeat. f_equal. lra.
Qed.

Lemma increment_beta_repeat
  (root_scalar : (R -> result R) -> R -> R -> result RootResults)
  (fuel : nat) (c : R) (n : nat) (beta threshold_cov : R) :
  _increment_beta root_scalar fuel (repeat c (S n)) beta threshold_cov = Ok 1.
Proof.
  unfold _increment_beta. rewrite !cov_objective_repeat.
  simpl_result.
  destruct (decide _) as [_ | Hne]; [reflexivity | congruence].
Qed.

(** ** C6: a constant log-likelihood vector jumps to beta = 1 *)

(** C6.  For a constant log-likelihood vector (of positive length [n]) and a
    starting beta in [[0, 1)], the weights have coefficient of variation 0
    at every beta increment, the two end values of the objective have the
    same sign, and [_increment_beta] returns exactly 1, whatever the solver,
    the threshold and the fuel. *)
Theorem increment_beta_constant_vector
  (root_scalar : (R -> result R) -> R -> R -> result RootResults)
  (fuel : nat) (c : R) (n : nat) (beta threshold_cov : R) :
  (0 < n)%nat ->
  0 <= beta < 1 ->
  (forall beta_increment,
     exists w, _calculate_weights beta_increment (repeat c n) = Ok w /\
               cov_of_weights w = 0) /\
  (exists f0 f1,
     cov_objective (repeat c n) threshold_cov 0 = Ok f0 /\
     cov_objective (repeat c n) threshold_cov (1 - beta) = Ok f1 /\
     np_sign f0 = np_sign f1) /\
  _increment_beta root_scalar fuel (repeat c n) beta threshold_cov = Ok 1.
Proof.
  intros Hn _. destruct n as [|n]; [lia|]. split; [|split].
  - intros beta_increment. eexists. split.
    + apply calculate_weights_repeat.
    + apply cov_of_weights_repeat.
  - exists (- threshold_cov), (- threshold_cov).
    rewrite !cov_objective_repeat. auto.
  - apply increment_beta_repeat.
Qed.

Lemma increment_beta_constant_vector_witness :
  _increment_beta bisect 0 (repeat (-3) 4) (1/2) 1 = Ok 1.
Proof.
  apply (increment_beta_constant_vector bisect 0 (-3) 4 (1/2) 1); [lia | lra].
Defined.

(** ** A bound on the coefficient of variation of the weights *)

Lemma Rabs_le_inv (x a : R) : Rabs x <= a -> - a <= x <= a.
Proof. unfold Rabs. destruct (Rcase_abs x); lra. Qed.

Lemma exp_le (x y : R) : x <= y -> exp x <= exp y.
Proof.
  intros [H | ->]; [left; apply exp_increasing, H | right; reflexivity].
Qed.

Lemma exp_le_1 (x : R) : x <= 0 -> exp x <= 1.
Proof. intros H. rewrite <- exp_0. apply exp_le, H. Qed.

Lemma exp_ge_1 (x : R) : 0 <= x -> 1 <= exp x.
Proof. intros H. rewrite <- exp_0. apply exp_le, H. Qed.

Lemma abs_sum_ge (a : list R) (x : R) : In x a -> Rabs x <= abs_sum a.
Proof.
  unfold abs_sum, np_sum.
  induction a as [|y a IH]; simpl; [tauto|].
  assert (0 <= fold_right Rplus 0 (map Rabs a)).
  { clear. induction a as [|z a IH]; simpl; [lra|].
    pose proof (Rabs_pos z). lra. }
  intros [-> | Hin].
  - lra.
  - specialize (IH Hin). pose proof (Rabs_pos y). lra.
Qed.

Lemma np_sum_bounds (a : list R) (lo hi : R) :
  (forall x, In x a -> lo <= x <= hi) ->
  INR (length a) * lo <= np_sum a <= INR (length a) * hi.
Proof.
  unfold np_sum. induction a as [|x a IH]; intros H.
  - simpl. lra.
  - cbn [length fold_right]. rewrite S_INR.
    assert (lo <= x <= hi) by (apply H; left; reflexivity).
    assert (INR (length a) * lo <= fold_right Rplus 0 a <= INR (length a) * hi)
      by (apply IH; intros y Hy; apply H; right; exact Hy).
    lra.
Qed.

Lemma length_pos_INR {A : Type} (a : list A) : a <> [] -> 0 < INR (length a).
Proof.
  destruct a; [congruence|]. intros _. apply lt_0_INR. simpl. lia.
Qed.

Lemma np_std_bound (a : list R) (eps : R) :
  a <> [] -> 0 <= eps ->
  (forall x, In x a -> Rabs (x - np_mean a) <= eps) ->
  np_std a <= eps.
Proof.
  intros Hne Heps H. unfold np_std.
  rewrite <- (sqrt_square eps) by exact Heps.
  apply sqrt_le_1_alt.
  set (m := np_mean a) in *.
  set (sq := map (fun x => (x - m) * (x - m)) a).
  assert (Hb : forall y, In y sq -> 0 <= y <= eps * eps).
  { intros y Hy. subst sq. apply in_map_iff in Hy as (x & <- & Hx).
    specialize (H x Hx). apply Rabs_le_inv in H.
    assert (0 <= (eps - (x - m)) * (eps + (x - m)))
      by (apply Rmult_le_pos; lra).
    clearbody m. split; [|nra].
    pose proof (Rle_0_sqr (x - m)) as Hsq. unfold Rsqr in Hsq. exact Hsq. }
  pose proof (np_sum_bounds sq 0 (eps * eps) Hb) as [_ Hs].
  unfold np_mean.
  assert (Hlen : length sq = length a) by (subst sq; apply length_map).
  rewrite Hlen in *.
  pose proof (length_pos_INR a Hne) as Hpos.
  apply (Rmult_le_reg_r (INR (length a))); [exact Hpos|].
  unfold Rdiv. rewrite Rmult_assoc, Rinv_l by lra. lra.
Qed.

Lemma weights_at_spec (log_likelihoods : list R) (beta_increment : R) :
  log_likelihoods <> [] ->
  _calculate_weights beta_increment log_likelihoods
  = Ok (weights_at log_likelihoods beta_increment).
Proof.
  intros H. unfold weights_at.
  destruct (calculate_weights_total beta_increment _ H) as [w ->].
  reflexivity.
Qed.

Lemma cov_objective_total (log_likelihoods : list R)
  (threshold_cov beta_increment : R) :
  log_likelihoods <> [] ->
  cov_objective log_likelihoods threshold_cov beta_increment
  = Ok (cov_at log_likelihoods beta_increment - threshold_cov).
Proof.
  intros H. unfold cov_objective. rewrite (weights_at_spec _ _ H).
  reflexivity.
Qed.

Lemma np_mean_weights (w : list R) :
  w <> [] -> np_sum w = 1 -> np_mean w = 1 / INR (length w).
Proof. intros _ Hs. unfold np_mean. rewrite Hs. reflexivity. Qed.

(** Every weight is within [(exp (d * r) - 1) / N] of [1 / N], where [r]
    bounds the spread of the log-likelihoods. *)
Lemma weights_near_uniform (log_likelihoods : list R) (beta_increment : R)
  (w : R) :
  log_likelihoods <> [] -> 0 <= beta_increment ->
  In w (weights_at log_likelihoods beta_increment) ->
  Rabs (w - 1 / INR (length log_likelihoods))
  <= (exp (beta_increment * (2 * abs_sum log_likelihoods)) - 1)
     / INR (length log_likelihoods).
Proof.
  intros Hne Hd Hw.
  pose proof (weights_at_spec _ beta_increment Hne) as Hspec.
  apply calculate_weights_inv in Hspec as (_ & m & Hm & Heq).
  rewrite Heq in Hw. clear Heq.
  set (r := 2 * abs_sum log_likelihoods).
  set (E := shifted_exp beta_increment m log_likelihoods) in *.
  set (N := INR (length log_likelihoods)).
  assert (HN : 0 < N) by (apply length_pos_INR, Hne).
  apply np_max_spec in Hm as [Hmin Hmax].
  apply in_map_iff in Hmin as (y & Hy & Hyin).
  assert (HE : forall e, In e E -> exp (- (beta_increment * r)) <= e <= 1).
  { intros e He. subst E. unfold shifted_exp in He.
    apply in_map_iff in He as (t & <- & Ht).
    apply in_map_iff in Ht as (s & <- & Hs).
    apply in_map_iff in Hs as (x & <- & Hx).
    split.
    - apply exp_le. subst m. subst r.
      pose proof (abs_sum_ge _ _ Hx) as Hax.
      pose proof (abs_sum_ge _ _ Hyin) as Hay.
      assert (- (2 * abs_sum log_likelihoods) <= x - y).
      { apply Rabs_le_inv in Hax. apply Rabs_le_inv in Hay. lra. }
      nra.
    - apply exp_le_1.
      assert (beta_increment * x <= m).
      { apply Hmax. apply in_map_iff. exists x. split; [reflexivity | exact Hx]. }
      lra. }
  assert (HlenE : length E = length log_likelihoods).
  { subst E. unfold shifted_exp. rewrite !length_map. reflexivity. }
  pose proof (np_sum_bounds E _ _ HE) as [HSlo HShi].
  rewrite HlenE in HSlo, HShi. fold N in HSlo, HShi.
  set (S := np_sum E) in *.
  set (q := exp (- (beta_increment * r))) in *.
  assert (Hq : 0 < q) by apply exp_pos.
  assert (Hq1 : q <= 1) by (apply exp_le_1; subst r;
    pose proof (abs_sum_ge _ _ Hyin); pose proof (Rabs_pos y); nra).
  assert (Hinv : exp (beta_increment * r) = / q).
  { subst q. rewrite exp_Ropp, Rinv_inv. reflexivity. }
  rewrite Hinv.
  apply in_map_iff in Hw as (e & <- & He).
  specialize (HE e He). destruct HE as [Helo Hehi].
  assert (HS : 0 < S) by nra.
  (* q / N <= e / S <= / q / N *)
  assert (Hlo : q / N <= e / S).
  { apply (Rmult_le_reg_r (N * S)); [nra|].
    replace (q / N * (N * S)) with (q * S) by (field; lra).
    replace (e / S * (N * S)) with (e * N) by (field; lra).
    nra. }
  assert (Hhi : e / S <= / q / N).
  { apply (Rmult_le_reg_r (q * N * S)).
    - apply Rmult_lt_0_compat; [nra | exact HS].
    - replace (e / S * (q * N * S)) with (e * (q * N)) by (field; lra).
      replace (/ q / N * (q * N * S)) with S by (field; lra).
      nra. }
  assert (Hq2 : 1 - q <= / q - 1).
  { apply (Rmult_le_reg_r q); [exact Hq|].
    replace ((/ q - 1) * q) with (1 - q) by (field; lra). nra. }
  apply Rabs_le. split.
  - apply (Rmult_le_reg_r N); [exact HN|].
    replace ((e / S - 1 / N) * N) with (e / S * N - 1) by (field; lra).
    replace (- ((/ q - 1) / N) * N) with (- (/ q - 1)) by (field; lra).
    assert (q <= e / S * N).
    { apply (Rmult_le_compat_r N) in Hlo; [|lra].
      replace (q / N * N) with q in Hlo by (field; lra). exact Hlo. }
    lra.
  - apply (Rmult_le_reg_r N); [exact HN|].
    replace ((e / S - 1 / N) * N) with (e / S * N - 1) by (field; lra).
    replace ((/ q - 1) / N * N) with (/ q - 1) by (field; lra).
    assert (e / S * N <= / q).
    { apply (Rmult_le_compat_r N) in Hhi; [|lra].
      replace (/ q / N * N) with (/ q) in Hhi by (field; lra). exact Hhi. }
    lra.
Qed.

Lemma cov_at_bound (log_likelihoods : list R) (beta_increment : R) :
  log_likelihoods <> [] -> 0 <= beta_increment ->
  cov_at log_likelihoods beta_increment
  <= exp (beta_increment * (2 * abs_sum log_likelihoods)) - 1.
Proof.
  intros Hne Hd.
  pose proof (weights_at_spec _ beta_increment Hne) as Hspec.
  apply weights_nonneg_sum in Hspec as (_ & Hsum & Hlen).
  set (w := weights_at log_likelihoods beta_increment) in *.
  set (N := INR (length log_likelihoods)).
  assert (HN : 0 < N) by (apply length_pos_INR, Hne).
  assert (Hwne : w <> []).
  { intros Hw. rewrite Hw in Hlen. simpl in Hlen.
    destruct log_likelihoods; [congruence | discriminate]. }
  assert (Hmean : np_mean w = 1 / N).
  { rewrite np_mean_weights by assumption. rewrite Hlen. reflexivity. }
  set (eps := exp (beta_increment * (2 * abs_sum log_likelihoods)) - 1).
  assert (Heps : 0 <= eps).
  { subst eps.
    assert (0 <= abs_sum log_likelihoods).
    { destruct log_likelihoods as [|x l]; [congruence|].
      pose proof (abs_sum_ge (x :: l) x (or_introl eq_refl)).
      pose proof (Rabs_pos x). lra. }
    pose proof (exp_ge_1 (beta_increment * (2 * abs_sum log_likelihoods))).
    assert (0 <= beta_increment * (2 * abs_sum log_likelihoods)) by nra.
    lra. }
  assert (Hstd : np_std w <= eps / N).
  { apply np_std_bound; [exact Hwne | |].
    - apply Rmult_le_pos; [exact Heps | left; apply Rinv_0_lt_compat, HN].
    - intros x Hx. rewrite Hmean.
      apply (weights_near_uniform log_likelihoods beta_increment x Hne Hd Hx). }
  unfold cov_at, cov_of_weights, np_nanstd, np_nanmean. fold w.
  rewrite Hmean.
  replace (np_std w / (1 / N)) with (np_std w * N) by (field; lra).
  apply (Rmult_le_compat_r N) in Hstd; [|lra].
  replace (eps / N * N) with eps in Hstd by (field; lra). exact Hstd.
Qed.

(** ** The range of the temperature stepper *)

Lemma np_sign_neq_prod (x y : R) : np_sign x <> np_sign y -> x * y <= 0.
Proof.
  unfold np_sign. repeat destruct (decide _); intros H; try congruence;
    subst; try lra.
  - assert (0 <= - x * y) by (apply Rmult_le_pos; lra). lra.
  - assert (0 <= x * - y) by (apply Rmult_le_pos; lra). lra.
Qed.

Lemma py_min_range (beta d : R) :
  0 <= d -> beta <= 1 -> beta <= py_min (beta + d) 1 <= 1.
Proof. intros Hd Hb. unfold py_min. destruct (decide _); lra. Qed.

Lemma shrink_beta_increment_range (fuel : nat) (log_likelihoods : list R)
  (threshold_cov d cov_weights b : R) :
  0 <= d ->
  shrink_beta_increment fuel log_likelihoods threshold_cov d cov_weights
  = Ok b ->
  0 <= b <= d.
Proof.
  revert d cov_weights. induction fuel as [|fuel IH]; intros d cw Hd; simpl.
  - destruct (decide _); [discriminate|]. intros [= <-]. lra.
  - destruct (decide _).
    + destruct (_calculate_weights _ _) as [w| |]; try discriminate.
      cbn [mbind result_bind]. intros H. apply IH in H; lra.
    + intros [= <-]. lra.
Qed.

Lemma increment_beta_range
  (root_scalar : (R -> result R) -> R -> R -> result RootResults)
  (fuel : nat) (log_likelihoods : list R) (beta threshold_cov b : R) :
  bracketing_solver root_scalar ->
  beta <= 1 ->
  _increment_beta root_scalar fuel log_likelihoods beta threshold_cov = Ok b ->
  beta <= b <= 1.
Proof.
  intros Hrs Hb. unfold _increment_beta.
  destruct (decide (log_likelihoods = [])) as [-> | Hne]; [discriminate|].
  rewrite !(cov_objective_total _ _ _ Hne).
  simpl_result.
  destruct (decide _) as [_ | Hsign].
  - intros [= <-]. lra.
  - apply np_sign_neq_prod in Hsign.
    destruct (Hrs (cov_objective log_likelihoods threshold_cov)
                (fun x => cov_at log_likelihoods x - threshold_cov)
                0 (1 - beta)) as (r & -> & Hroot);
      [intros x; apply cov_objective_total, Hne | lra | exact Hsign |].
    simpl_result.
    destruct (converged r).
    + intros [= <-]. apply py_min_range; [|exact Hb].
      destruct Hroot; [reflexivity | lra].
    + rewrite (weights_at_spec _ _ Hne).
      simpl_result.
      destruct (shrink_beta_increment _ _ _ _ _) as [d| |] eqn:Hd;
        try discriminate.
      simpl_result.
      intros [= <-]. apply shrink_beta_increment_range in Hd; [|lra].
      unfold py_min. destruct (decide _); lra.
Qed.

(** ** Termination of the trial-and-error loop *)

Lemma shrink_beta_increment_total (log_likelihoods : list R)
  (threshold_cov : R) (k : nat) :
  log_likelihoods <> [] ->
  forall (fuel : nat) (d : R),
    (k <= fuel)%nat ->
    cov_at log_likelihoods (0.99 ^ k * d) <= threshold_cov ->
    exists b,
      shrink_beta_increment fuel log_likelihoods threshold_cov d
        (cov_at log_likelihoods d) = Ok b.
Proof.
  intros Hne. induction k as [|k IH]; intros fuel d Hk Hcov.
  - rewrite pow_O, Rmult_1_l in Hcov.
    destruct fuel; simpl; destruct (decide _); try lra; eauto.
  - destruct fuel as [|fuel]; [lia|]. simpl.
    destruct (decide _); [|eauto].
    rewrite (weights_at_spec _ _ Hne). cbn [mbind result_bind].
    apply (IH fuel (0.99 * d)); [lia|].
    replace (0.99 ^ k * (0.99 * d)) with (0.99 ^ S k * d) by (simpl; ring).
    exact Hcov.
Qed.

Lemma small_increment_exists (log_likelihoods : list R) (d threshold_cov : R) :
  log_likelihoods <> [] -> 0 <= d -> 0 < threshold_cov ->
  exists k, cov_at log_likelihoods (0.99 ^ k * d) <= threshold_cov.
Proof.
  intros Hne Hd Ht.
  set (C := d * (2 * abs_sum log_likelihoods)).
  assert (HC : 0 <= C).
  { subst C. apply Rmult_le_pos; [exact Hd|].
    destruct log_likelihoods as [|x l]; [congruence|].
    pose proof (abs_sum_ge (x :: l) x (or_introl eq_refl)).
    pose proof (Rabs_pos x). lra. }
  assert (Hln : 0 < ln (1 + threshold_cov)).
  { rewrite <- ln_1. apply ln_increasing; lra. }
  set (y := ln (1 + threshold_cov) / (C + 1)).
  assert (Hy : 0 < y) by (subst y; apply Rdiv_lt_0_compat; lra).
  destruct (pow_lt_1_zero 0.99) with (y := y) as [k Hk];
    [rewrite Rabs_pos_eq; lra | exact Hy |].
  exists k. specialize (Hk k (Nat.le_refl k)).
  assert (Hp : 0 <= 0.99 ^ k) by (apply pow_le; lra).
  rewrite Rabs_pos_eq in Hk by exact Hp.
  eapply Rle_trans; [apply cov_at_bound; [exact Hne | apply Rmult_le_pos; lra]|].
  assert (Hle : 0.99 ^ k * d * (2 * abs_sum log_likelihoods)
                <= ln (1 + threshold_cov)).
  { replace (0.99 ^ k * d * (2 * abs_sum log_likelihoods))
      with (0.99 ^ k * C) by (subst C; ring).
    apply Rle_trans with (y * C).
    - apply Rmult_le_compat_r; lra.
    - subst y. apply (Rmult_le_reg_r (C + 1)); [lra|].
      replace (ln (1 + threshold_cov) / (C + 1) * C * (C + 1))
        with (ln (1 + threshold_cov) * C) by (field; lra).
      apply Rle_trans with (ln (1 + threshold_cov) * C + ln (1 + threshold_cov) * 1);
        [|right; ring].
      lra. }
  apply exp_le in Hle. rewrite exp_ln in Hle by lra. lra.
Qed.

Lemma increment_beta_total
  (root_scalar : (R -> result R) -> R -> R -> result RootResults)
  (log_likelihoods : list R) (beta threshold_cov : R) :
  bracketing_solver root_scalar ->
  log_likelihoods <> [] ->
  beta <= 1 ->
  0 < threshold_cov ->
  exists n, forall fuel, (n <= fuel)%nat ->
    exists b,
      _increment_beta root_scalar fuel log_likelihoods beta threshold_cov
      = Ok b.
Proof.
  intros Hrs Hne Hb Ht.
  destruct (small_increment_exists log_likelihoods (1 - beta) threshold_cov)
    as [k Hk]; [exact Hne | lra | exact Ht |].
  exists k. intros fuel Hfuel. unfold _increment_beta.
  rewrite !(cov_objective_total _ _ _ Hne).
  simpl_result.
  destruct (decide _) as [_ | Hsign]; [eauto|].
  apply np_sign_neq_prod in Hsign.
  destruct (Hrs (cov_objective log_likelihoods threshold_cov)
              (fun x => cov_at log_likelihoods x - threshold_cov)
              0 (1 - beta)) as (r & -> & _);
    [intros x; apply cov_objective_total, Hne | lra | exact Hsign |].
  simpl_result.
  destruct (converged r); [eauto|].
  rewrite (weights_at_spec _ _ Hne).
  simpl_result.
  destruct (shrink_beta_increment_total log_likelihoods threshold_cov k Hne
              fuel (1 - beta) Hfuel Hk) as [d Hd].
  unfold cov_at in Hd. rewrite Hd.
  simpl_result. eauto.
Qed.

(** ** The bisection solver meets the contract of the stepper *)

Section Bisect.

Variables (f : R -> result R) (g : R -> R).
Hypothesis f_total : forall x, f x = Ok (g x).
Variables (fa a b : R).

Lemma bisect_loop_bracket (iter : nat) :
  forall xa dm,
    a <= xa -> 0 <= dm -> xa + dm <= b ->
    exists r, bisect_loop iter f fa xa dm = Ok r /\
              a <= root r <= b /\ (0 < dm -> root r < b).
Proof.
  induction iter as [|iter IH]; intros xa dm Ha Hdm Hb; simpl.
  - eexists. split; [reflexivity|]. simpl. lra.
  - rewrite f_total. simpl_result.
    destruct (decide (_ \/ _)) as [_ | _].
    + eexists. split; [reflexivity|]. simpl. lra.
    + match goal with
      | |- exists r, bisect_loop iter f fa ?xa' ?dm' = _ /\ _ =>
          destruct (IH xa' dm') as (r & Hr & Hroot & Hlt);
            [destruct (decide _); lra | lra | destruct (decide _); lra |]
      end.
      exists r. split; [exact Hr|]. split; [exact Hroot|].
      intros Hpos. apply Hlt. lra.
Qed.

Lemma bisect_loop_converges (n : nat) :
  forall xa dm r,
    0 <= dm ->
    dm * (/ 2) ^ S n < bisect_xtol ->
    bisect_loop (S n) f fa xa dm = Ok r ->
    converged r = true.
Proof.
  assert (Hrtol : 0 <= bisect_rtol) by (unfold bisect_rtol; lra).
  induction n as [|n IH]; intros xa dm r Hdm Hsmall.
  - cbn [bisect_loop]. rewrite f_total.
    simpl_result.
    destruct (decide (_ \/ _)) as [_ | Hno].
    + intros [= <-]. reflexivity.
    + exfalso. apply Hno. right.
      rewrite Rabs_pos_eq by lra.
      pose proof (Rabs_pos (xa + dm * 0.5)).
      assert (0 <= bisect_rtol * Rabs (xa + dm * 0.5))
        by (apply Rmult_le_pos; assumption).
      simpl in Hsmall. lra.
  - remember (S n) as m eqn:Hm. cbn [bisect_loop]. rewrite f_total.
    simpl_result.
    destruct (decide (_ \/ _)) as [_ | _].
    + intros [= <-]. reflexivity.
    + subst m. apply IH; [lra|].
      replace (dm * 0.5 * (/ 2) ^ S n) with (dm * (/ 2) ^ S (S n))
        by (replace 0.5 with (/ 2) by lra; simpl; ring).
      exact Hsmall.
Qed.

End Bisect.

Lemma bisect_bracketing : bracketing_solver bisect.
Proof.
  intros f g a b Hf Hab Hsign. unfold bisect. rewrite !Hf.
  simpl_result.
  destruct (decide (g a = 0)); [eexists; split; [reflexivity | simpl; lra]|].
  destruct (decide (g b = 0)); [eexists; split; [reflexivity | simpl; lra]|].
  destruct (decide (g a * g b > 0)); [lra|].
  destruct (bisect_loop_bracket f g Hf (g a) a b bisect_maxiter a (b - a))
    as (r & Hr & Hroot & _); [lra | lra | lra |].
  exists r. split; [exact Hr | intros _; exact Hroot].
Qed.

(** On a bracket of width at most 1 whose end values have opposite strict
    signs, the bisection converges to a point strictly inside the upper
    end. *)
Lemma bisect_converges_inside (f : R -> result R) (g : R -> R) (a b : R) :
  (forall x, f x = Ok (g x)) ->
  a < b -> b - a <= 1 -> g a * g b < 0 ->
  exists r, bisect f a b = Ok r /\ converged r = true /\ a <= root r < b.
Proof.
  intros Hf Hab Hw Hsign. unfold bisect. rewrite !Hf.
  simpl_result.
  destruct (decide (g a = 0)) as [E | _]; [rewrite E in Hsign; lra|].
  destruct (decide (g b = 0)) as [E | _]; [rewrite E in Hsign; lra|].
  destruct (decide (g a * g b > 0)); [lra|].
  destruct (bisect_loop_bracket f g Hf (g a) a b bisect_maxiter a (b - a))
    as (r & Hr & Hroot & Hlt); [lra | lra | lra |].
  exists r. split; [exact Hr|]. split; [|lra].
  eapply (bisect_loop_converges f g Hf (g a) 99 a (b - a) r); [lra | | exact Hr].
  unfold bisect_xtol.
  assert (H39 : (/ 2) ^ 100 < 2e-12).
  { replace 100%nat with (39 + 61)%nat by reflexivity. rewrite pow_add.
    assert ((/ 2) ^ 39 < 2e-12) by lra.
    assert (0 < (/ 2) ^ 39) by (apply pow_lt; lra).
    assert ((/ 2) ^ 61 <= 1).
    { rewrite <- (pow1 61). apply pow_incr. lra. }
    assert (0 < (/ 2) ^ 61) by (apply pow_lt; lra).
    nra. }
  assert (0 < (/ 2) ^ 100) by (apply pow_lt; lra).
  nra.
Qed.

(** ** The log-evidence increment *)

Lemma np_sum_map_exp_shift (a : list R) (m : R) :
  np_sum (map (fun x => exp (x - m)) a) = np_sum (map exp a) / exp m.
Proof.
  unfold np_sum. induction a as [|x a IH]; simpl.
  - unfold Rdiv. lra.
  - rewrite IH. unfold Rminus. rewrite exp_plus, exp_Ropp.
    unfold Rdiv. ring.
Qed.

Lemma logsumexp_spec (a : list R) :
  a <> [] -> logsumexp a = Ok (ln (np_sum (map exp a))).
Proof.
  intros Hne.
  destruct (np_max_total a Hne) as [m Hm].
  assert (E : logsumexp a
              = (a_max ← np_max a;
                 mret (ln (np_sum (map (fun x => exp (x - a_max)) a))
                       + a_max)))
    by (destruct a; [congruence|reflexivity]).
  rewrite E, Hm.
  simpl_result. f_equal.
  rewrite np_sum_map_exp_shift.
  pose proof (np_sum_exp_pos a Hne) as Hpos.
  unfold Rdiv. rewrite ln_mult; [|exact Hpos | apply Rinv_0_lt_compat, exp_pos].
  rewrite ln_Rinv by apply exp_pos. rewrite ln_exp. lra.
Qed.

Lemma calculate_log_evidence_spec (beta_increment : R)
  (log_likelihoods : list R) :
  log_likelihoods <> [] ->
  _calculate_log_evidence beta_increment log_likelihoods
  = Ok (log_evidence_increment_spec beta_increment log_likelihoods).
Proof.
  intros Hne. unfold _calculate_log_evidence, log_evidence_increment_spec.
  rewrite logsumexp_spec.
  - simpl_result. rewrite map_map. reflexivity.
  - destruct log_likelihoods; [congruence | discriminate].
Qed.

Lemma calculate_log_evidence_inv (beta_increment : R)
  (log_likelihoods : list R) (z : R) :
  _calculate_log_evidence beta_increment log_likelihoods = Ok z ->
  log_likelihoods <> [] /\
  z = log_evidence_increment_spec beta_increment log_likelihoods.
Proof.
  destruct (decide (log_likelihoods = [])) as [-> | Hne]; [discriminate|].
  rewrite (calculate_log_evidence_spec _ _ Hne). intros [= <-]. auto.
Qed.

(** ** The weights in closed form *)

Lemma np_sum_map_scale {A : Type} (f : A -> R) (k : R) (a : list A) :
  np_sum (map (fun x => k * f x) a) = k * np_sum (map f a).
Proof.
  induction a as [|x a IH]; unfold np_sum in *; simpl; [lra|].
  rewrite IH. lra.
Qed.

Lemma np_sum_map_exp_pos (d : R) (l : list R) :
  l <> [] -> 0 < np_sum (map (fun y => exp (d * y)) l).
Proof.
  intros Hl.
  replace (map (fun y => exp (d * y)) l)
    with (map exp (map (fun y => d * y) l)) by (rewrite map_map; reflexivity).
  apply np_sum_exp_pos. destruct l; [congruence|discriminate].
Qed.

Lemma calculate_weights_closed_form (beta_increment : R)
  (log_likelihoods : list R) :
  log_likelihoods <> [] ->
  _calculate_weights beta_increment log_likelihoods
  = Ok (normalised_exponentials beta_increment log_likelihoods).
Proof.
  intros Hl.
  assert (Hne : map (fun l => beta_increment * l) log_likelihoods <> [])
    by (destruct log_likelihoods; [congruence|discriminate]).
  destruct (np_max_total _ Hne) as [m Hm].
  unfold _calculate_weights. rewrite Hm. simpl_result. f_equal.
  unfold normalised_exponentials.
  pose proof (np_sum_map_exp_pos beta_increment log_likelihoods Hl) as HT.
  set (T := np_sum (map (fun y => exp (beta_increment * y)) log_likelihoods))
    in *.
  assert (HS : np_sum (map exp (map (fun x => x - m)
                 (map (fun l => beta_increment * l) log_likelihoods)))
               = T / exp m).
  { rewrite (map_map (fun x => x - m) exp).
    rewrite (np_sum_map_exp_shift _ m). unfold T.
    rewrite map_map. reflexivity. }
  rewrite HS. rewrite !map_map. apply map_ext. intros x.
  unfold Rminus. rewrite exp_plus, exp_Ropp.
  pose proof (exp_pos m). field. split; lra.
Qed.

(** ** Weights with one dominant sample *)

Lemma calculate_weights_ext (d d' : R) (l l' : list R) :
  map (fun x => d * x) l = map (fun x => d' * x) l' ->
  _calculate_weights d l = _calculate_weights d' l'.
Proof. intros H. unfold _calculate_weights. rewrite H. reflexivity. Qed.

Lemma cov_at_zero (log_likelihoods : list R) :
  log_likelihoods <> [] -> cov_at log_likelihoods 0 = 0.
Proof.
  intros Hne. unfold cov_at, weights_at.
  destruct log_likelihoods as [|x l]; [congruence|].
  rewrite (calculate_weights_ext 0 0 (x :: l) (repeat 0 (S (length l)))).
  - rewrite calculate_weights_repeat. apply cov_of_weights_repeat.
  - rewrite map_repeat. change (S (length l)) with (length (x :: l)).
    generalize (x :: l). clear. intros k.
    induction k as [|y k IH]; [reflexivity|].
    cbn [map length repeat]. rewrite IH. f_equal. lra.
Qed.

Lemma exp_minus_100 : 0 < exp (-100) <= 1 / 101.
Proof.
  split; [apply exp_pos|].
  replace (exp (-100)) with (exp (Ropp 100)) by (f_equal; lra).
  rewrite exp_Ropp.
  pose proof (exp_ineq1 100 ltac:(lra)) as H.
  unfold Rdiv. rewrite Rmult_1_l.
  apply Rinv_le_contravar; lra.
Qed.

Lemma peaked_weights :
  exists w1 w2,
    _calculate_weights 1 peaked_log_likelihoods = Ok [w1; w2; w2; w2] /\
    w1 + 3 * w2 = 1 /\ 0 < w2 <= 1 / 101.
Proof.
  pose proof exp_minus_100 as [He0 He1].
  set (e := exp (-100)) in *.
  exists (1 / (1 + 3 * e)), (e / (1 + 3 * e)).
  split; [|split].
  - unfold _calculate_weights, peaked_log_likelihoods.
    cbn [map np_max fold_left].
    repeat rewrite (Rmax_left (1 * 0) (1 * -100)) by lra.
    cbn [mbind result_bind mret result_ret map].
    replace (1 * 0 - 1 * 0) with 0 by lra.
    replace (1 * -100 - 1 * 0) with (-100) by lra.
    rewrite exp_0. fold e. unfold np_sum. cbn [fold_right].
    replace (1 + (e + (e + (e + 0)))) with (1 + 3 * e) by lra.
    reflexivity.
  - field. lra.
  - split.
    + apply Rdiv_lt_0_compat; lra.
    + apply Rle_trans with e; [|exact He1].
      apply (Rmult_le_reg_r (1 + 3 * e)); [lra|].
      replace (e / (1 + 3 * e) * (1 + 3 * e)) with e by (field; lra).
      assert (0 <= e * (3 * e)) by (apply Rmult_le_pos; lra). lra.
Qed.

Lemma cov_of_peaked_weights (w1 w2 : R) :
  w1 + 3 * w2 = 1 -> 0 < w2 <= 1 / 101 ->
  1 < cov_of_weights [w1; w2; w2; w2] < 2.
Proof.
  intros Hsum [Hw0 Hw1].
  assert (Hmean : np_mean [w1; w2; w2; w2] = 1 / 4).
  { unfold np_mean, np_sum. simpl. lra. }
  set (u := 1 / 4 - w2).
  assert (Hu : 24 / 101 <= u <= 1 / 4) by (unfold u; lra).
  assert (Hvar : np_mean (map (fun x => (x - 1 / 4) * (x - 1 / 4))
                            [w1; w2; w2; w2]) = 3 * (u * u)).
  { unfold np_mean, np_sum. simpl.
    replace w1 with (1 - 3 * w2) by lra. unfold u. field. }
  unfold cov_of_weights, np_nanstd, np_nanmean, np_std.
  rewrite Hmean, Hvar.
  assert (Huu_lo : (24 / 101) * (24 / 101) <= u * u)
    by (apply Rmult_le_compat; lra).
  assert (Huu_hi : u * u <= (1 / 4) * (1 / 4))
    by (apply Rmult_le_compat; lra).
  assert (Hlo : 1 / 4 < sqrt (3 * (u * u))).
  { rewrite <- (sqrt_square (1 / 4)) by lra.
    apply sqrt_lt_1_alt. lra. }
  assert (Hhi : sqrt (3 * (u * u)) < 1 / 2).
  { rewrite <- (sqrt_square (1 / 2)) by lra.
    apply sqrt_lt_1_alt. split; [|lra].
    apply Rmult_le_pos; [lra|]. apply Rle_trans with (24 / 101 * (24 / 101)); lra. }
  split.
  - apply (Rmult_lt_reg_r (1 / 4)); [lra|].
    replace (sqrt (3 * (u * u)) / (1 / 4) * (1 / 4)) with (sqrt (3 * (u * u)))
      by field. lra.
  - apply (Rmult_lt_reg_r (1 / 4)); [lra|].
    replace (sqrt (3 * (u * u)) / (1 / 4) * (1 / 4)) with (sqrt (3 * (u * u)))
      by field. lra.
Qed.

Lemma cov_at_peaked : 1 < cov_at peaked_log_likelihoods 1 < 2.
Proof.
  destruct peaked_weights as (w1 & w2 & Hw & Hsum & Hw2).
  unfold cov_at, weights_at. rewrite Hw.
  apply cov_of_peaked_weights; assumption.
Qed.


(** ** Warm-start selector *)

Lemma descending_transitive : Transitive descending.
Proof. unfold descending. intros x y z ? ?. lia. Qed.

Lemma descending_total : Total descending.
Proof. unfold descending. intros x y. lia. Qed.

Lemma sorted_reverse_head (keys : list Z) (s : Z) :
  s ∈ keys -> (forall k, k ∈ keys -> (k <= s)%Z) ->
  exists rest, sorted_reverse keys = s :: rest.
Proof.
  intros Hs Hmax. unfold sorted_reverse.
  pose proof (@StronglySorted_merge_sort _ descending _
                descending_transitive descending_total keys) as Hsorted.
  pose proof (merge_sort_Permutation descending keys) as Hperm.
  destruct (merge_sort descending keys) as [|h rest] eqn:E.
  - symmetry in Hperm. apply Permutation_nil_r in Hperm. subst keys.
    inversion Hs.
  - exists rest. f_equal.
    assert (Hh : (h <= s)%Z).
    { apply Hmax. rewrite <- Hperm. left. }
    assert (Hs' : s ∈ h :: rest) by (rewrite Hperm; exact Hs).
    apply elem_of_cons in Hs' as [-> | Hin]; [reflexivity|].
    apply StronglySorted_inv in Hsorted as [_ Hall].
    rewrite Forall_forall in Hall. specialize (Hall s Hin).
    unfold descending in Hall. lia.
Qed.

Lemma zip_with_Rminus_diag (a : list R) :
  zip_with Rminus a a = repeat 0 (length a).
Proof.
  induction a as [|x a IH]; simpl; [reflexivity|].
  rewrite IH. f_equal. lra.
Qed.

Lemma calculate_weights_warm_start_unfold (beta : R) (current previous : list R) :
  _calculate_weights_warm_start beta current previous
  = (difference ← np_subtract current previous;
     _calculate_weights beta difference).
Proof. reflexivity. Qed.

Lemma calculate_weights_warm_start_same (beta : R) (l : list R) :
  l <> [] ->
  exists w, _calculate_weights_warm_start beta l l = Ok w /\
            np_nanstd w / np_nanmean w = 0.
Proof.
  intros Hne. rewrite calculate_weights_warm_start_unfold.
  unfold np_subtract. rewrite decide_True by reflexivity.
  cbn [mbind result_bind]. rewrite zip_with_Rminus_diag.
  destruct l as [|x l]; [congruence|]. cbn [length].
  rewrite calculate_weights_repeat. eexists. split; [reflexivity|].
  apply cov_of_weights_repeat.
Qed.

Lemma warm_start_scan_none
  (approx : array2 -> list R)
  (previous_results : gmap Z array2 * gmap Z R * gmap Z (list R))
  (threshold_cov : R) (stage_nums : list Z) :
  (forall k, k ∈ stage_nums ->
     exists c, warm_start_cov approx previous_results k = Ok c /\
               ~ c < threshold_cov) ->
  warm_start_scan approx previous_results threshold_cov stage_nums = Ok 0%Z.
Proof.
  induction stage_nums as [|k ks IH]; intros H; simpl; [reflexivity|].
  destruct (H k) as (c & -> & Hc); [left|].
  cbn [mbind result_bind]. rewrite decide_False by exact Hc.
  apply IH. intros k' Hk'. apply H. right. exact Hk'.
Qed.

(** ** C8: the warm-start stage *)

Lemma map_zip_with_compose {A B C D : Type} (f : C -> D) (g : A -> B -> C)
  (a : list A) (b : list B) :
  map f (zip_with g a b) = zip_with (fun x y => f (g x y)) a b.
Proof.
  revert b. induction a as [|x a IH]; intros [|y b]; try reflexivity.
  cbn [zip_with map]. rewrite IH. reflexivity.
Qed.

(** The coefficient of variation the code computes for a stored stage is
    the one the specification words. *)
Lemma reweighted_cov_spec_cov_at (beta : R) (current previous : list R) :
  length current = length previous -> previous <> [] ->
  cov_at (zip_with Rminus current previous) beta
  = reweighted_cov_spec beta current previous.
Proof.
  intros Hlen Hne.
  assert (Hd : zip_with Rminus current previous <> []).
  { destruct current, previous; try discriminate; congruence. }
  unfold cov_at, weights_at.
  rewrite (calculate_weights_closed_form _ _ Hd).
  unfold reweighted_cov_spec, normalised_exponentials, cov_of_weights,
    np_nanstd, np_nanmean.
  rewrite !map_zip_with_compose.
  replace (map (fun x => exp (beta * x) / np_sum
                 (zip_with (fun x0 y => exp (beta * (x0 - y)))
                    current previous))
             (zip_with Rminus current previous))
    with (map (fun x => x / np_sum
                 (zip_with (fun c p => exp (beta * (c - p)))
                    current previous))
            (zip_with (fun c p => exp (beta * (c - p))) current previous)).
  - reflexivity.
  - rewrite !map_zip_with_compose. reflexivity.
Qed.

Lemma warm_start_cov_refines
  (approx : array2 -> list R)
  (samples : gmap Z array2) (betas : gmap Z R) (lls : gmap Z (list R))
  (k : Z) (smp : array2) (b : R) (l : list R) :
  samples !! k = Some smp -> betas !! k = Some b -> lls !! k = Some l ->
  l <> [] -> length (approx smp) = length l ->
  warm_start_cov approx (samples, betas, lls) k
  = Ok (reweighted_cov_spec b (approx smp) l).
Proof.
  intros Hsmp Hb Hl Hne Hlen.
  unfold warm_start_cov, lookup_key. cbn [fst snd].
  rewrite Hsmp, Hl, Hb. cbn [mbind result_bind].
  rewrite calculate_weights_warm_start_unfold. unfold np_subtract.
  destruct (decide (length (approx smp) = length l)) as [_|]; [|contradiction].
  cbn [mbind result_bind].
  assert (Hd : zip_with Rminus (approx smp) l <> []).
  { destruct (approx smp), l; try discriminate; congruence. }
  rewrite (weights_at_spec _ b Hd). simpl_result. f_equal.
  apply (reweighted_cov_spec_cov_at b (approx smp) l Hlen Hne).
Qed.

(** C8.  For a positive threshold: when the new approximation applied to
    the stored samples of the highest stored stage returns exactly that
    stage's stored (non-empty) log-likelihoods, and the stage's beta is
    stored, [calculate_warm_start_stage] returns the highest stage key;
    and when every stored stage has its beta and as many (at least one)
    log-likelihoods stored as the new approximation returns, and at none
    of them the re-weighted coefficient of variation, the one of weights
    proportional to [exp (beta * (l'_i - l_i))], is below the threshold,
    it returns 0. *)
Theorem warm_start_stage_selection
  (approx : array2 -> list R)
  (samples : gmap Z array2) (betas : gmap Z R) (lls : gmap Z (list R))
  (threshold_cov : R) :
  0 < threshold_cov ->
  (forall s smp l b,
     samples !! s = Some smp ->
     (forall k, k ∈ dom samples -> (k <= s)%Z) ->
     betas !! s = Some b ->
     lls !! s = Some l -> l <> [] ->
     approx smp = l ->
     calculate_warm_start_stage approx (samples, betas, lls) threshold_cov
     = Ok s) /\
  ((forall k, k ∈ dom samples ->
      exists smp b l,
        samples !! k = Some smp /\ betas !! k = Some b /\
        lls !! k = Some l /\ l <> [] /\
        length (approx smp) = length l /\
        ~ reweighted_cov_spec b (approx smp) l < threshold_cov) ->
   calculate_warm_start_stage approx (samples, betas, lls) threshold_cov
   = Ok 0%Z).
Proof.
  intros Ht. split.
  - intros s smp l b Hsmp Hmax Hb Hl Hne Happrox.
    unfold calculate_warm_start_stage. cbn [fst snd].
    destruct (sorted_reverse_head (elements (dom samples)) s) as [rest ->].
    + apply elem_of_elements, elem_of_dom. eauto.
    + intros k Hk. apply Hmax. apply elem_of_elements in Hk. exact Hk.
    + cbn [warm_start_scan]. unfold warm_start_cov, lookup_key. cbn [fst snd].
      rewrite Hsmp, Hl, Hb. cbn [mbind result_bind]. rewrite Happrox.
      destruct (calculate_weights_warm_start_same b l Hne) as (w & -> & Hcov).
      simpl_result. rewrite Hcov.
      rewrite decide_True by exact Ht. reflexivity.
  - intros Hnone. unfold calculate_warm_start_stage. cbn [fst snd].
    apply warm_start_scan_none. intros k Hk.
    unfold sorted_reverse in Hk. rewrite merge_sort_Permutation in Hk.
    apply elem_of_elements in Hk.
    destruct (Hnone k Hk) as (smp & b & l & Hsmp & Hb & Hl & Hne & Hlen & Hn).
    exists (reweighted_cov_spec b (approx smp) l). split; [|exact Hn].
    apply warm_start_cov_refines; assumption.
Qed.

Lemma peaked_reweighted_cov :
  ~ reweighted_cov_spec 1 peaked_log_likelihoods zeros4 < 1.
Proof.
  rewrite <- reweighted_cov_spec_cov_at by (reflexivity || discriminate).
  replace (zip_with Rminus peaked_log_likelihoods zeros4)
    with peaked_log_likelihoods
    by (unfold peaked_log_likelihoods, zeros4; cbn [zip_with repeat];
        repeat f_equal; lra).
  pose proof cov_at_peaked. lra.
Qed.

(** Two scenarios: a prior run whose own log-likelihoods are supplied again
    resumes at its highest stage; a prior run whose only stage is badly
    re-weighted by the new approximation restarts from 0. *)
Lemma warm_start_stage_selection_witness :
  calculate_warm_start_stage (fun _ => [-1; -2])
    ({[ 0%Z := Array2 1 [[0]; [1]]; 1%Z := Array2 1 [[2]; [3]] ]},
     {[ 0%Z := 0; 1%Z := 1 ]},
     {[ 0%Z := [0; -1]; 1%Z := [-1; -2] ]}) 1
  = Ok 1%Z /\
  calculate_warm_start_stage (fun _ => peaked_log_likelihoods)
    (outdated_samples, outdated_betas, outdated_log_likelihoods) 1
  = Ok 0%Z.
Proof.
  split.
  - refine (proj1 (warm_start_stage_selection (fun _ => [-1; -2])
                     {[ 0%Z := Array2 1 [[0]; [1]]; 1%Z := Array2 1 [[2]; [3]] ]}
                     {[ 0%Z := 0; 1%Z := 1 ]}
                     {[ 0%Z := [0; -1]; 1%Z := [-1; -2] ]} 1 _)
              1%Z (Array2 1 [[2]; [3]]) [-1; -2] 1 _ _ _ _ _ _).
    + lra.
    + reflexivity.
    + intros k Hk. rewrite dom_insert_L, dom_singleton_L in Hk.
      apply elem_of_union in Hk as [Hk | Hk]; apply elem_of_singleton in Hk;
        lia.
    + reflexivity.
    + reflexivity.
    + discriminate.
    + reflexivity.
  - refine (proj2 (warm_start_stage_selection (fun _ => peaked_log_likelihoods)
                     outdated_samples outdated_betas outdated_log_likelihoods
                     1 _) _).
    + lra.
    + intros k Hk. unfold outdated_samples in Hk.
      rewrite dom_singleton_L in Hk. apply elem_of_singleton in Hk. subst k.
      exists square_samples, 1, zeros4.
      repeat split; [discriminate|exact peaked_reweighted_cov].
Defined.
(** ** Dot products *)

Lemma dot_nil_l (v : list R) : dot [] v = 0.
Proof. reflexivity. Qed.

Lemma dot_cons (a b : R) (u v : list R) :
  dot (a :: u) (b :: v) = a * b + dot u v.
Proof. reflexivity. Qed.

Lemma dot_comm (u v : list R) : dot u v = dot v u.
Proof.
  revert v. induction u as [|a u IH]; intros [|b v]; try reflexivity.
  rewrite !dot_cons, IH. ring.
Qed.


(** ** One stage *)

Section StageFacts.

Variable root_scalar : (R -> result R) -> R -> R -> result RootResults.
Variable cholesky : list (list R) -> option (list (list R)).
Variable self : TMCMC.
Variable fuel : nat.

Lemma run_one_stage_inv samples log_likelihoods log_target_density_values
  beta rng llf ltdf scale_factor target_acceptance_rate do_thinning
  burn_in_steps ns nll nltd new_beta log_evidence rng' :
  _run_one_stage root_scalar cholesky self fuel samples log_likelihoods
    log_target_density_values beta rng llf ltdf scale_factor
    target_acceptance_rate do_thinning burn_in_steps
  = Ok (ns, nll, nltd, new_beta, log_evidence, rng') ->
  _increment_beta root_scalar fuel log_likelihoods beta 1 = Ok new_beta /\
  _calculate_log_evidence (new_beta - beta) log_likelihoods
  = Ok log_evidence /\
  exists weights c L,
    _calculate_weights (new_beta - beta) log_likelihoods = Ok weights /\
    _get_scaled_proposal_covariance samples weights scale_factor = Ok c /\
    np_linalg_cholesky cholesky c = Ok L.
Proof.
  unfold _run_one_stage.
  destruct (_increment_beta _ _ _ _ _) as [nb| |] eqn:Hb; try discriminate.
  cbn [mbind result_bind].
  destruct (_calculate_log_evidence _ _) as [le| |] eqn:Hle;
    try discriminate.
  cbn [mbind result_bind].
  destruct (_calculate_weights _ _) as [w| |] eqn:Hw; try discriminate.
  cbn [mbind result_bind].
  destruct (_get_scaled_proposal_covariance _ _ _) as [c| |] eqn:Hc;
    try discriminate.
  cbn [mbind result_bind].
  destruct (np_linalg_cholesky cholesky c) as [L|e|] eqn:HL;
    [| destruct e; discriminate | discriminate].
  cbn [mbind result_bind].
  destruct (for_each _ _ _) as [[[n c'] out]| |]; try discriminate.
  simpl_result.
  intros [= <- <- <- <- <- <-].
  split; [reflexivity|]. split; [exact Hle|].
  exists w, c, L. auto.
Qed.

(** A failed factorisation at stage entry is re-raised as a
    [RuntimeError]. *)
Lemma run_one_stage_cholesky_raise samples log_likelihoods
  log_target_density_values beta rng llf ltdf scale_factor
  target_acceptance_rate do_thinning burn_in_steps new_beta weights c exc :
  _increment_beta root_scalar fuel log_likelihoods beta 1 = Ok new_beta ->
  _calculate_weights (new_beta - beta) log_likelihoods = Ok weights ->
  _get_scaled_proposal_covariance samples weights scale_factor = Ok c ->
  np_linalg_cholesky cholesky c = Raise (LinAlgError exc) ->
  _run_one_stage root_scalar cholesky self fuel samples log_likelihoods
    log_target_density_values beta rng llf ltdf scale_factor
    target_acceptance_rate do_thinning burn_in_steps
  = Raise (RuntimeError ("Cholesky decomposition failed: " +:+ exc)).
Proof.
  intros Hb Hw Hc HL. unfold _run_one_stage. rewrite Hb.
  cbn [mbind result_bind].
  apply calculate_weights_inv in Hw as Hne. destruct Hne as [Hne _].
  rewrite (calculate_log_evidence_spec _ _ Hne). cbn [mbind result_bind].
  rewrite Hw. cbn [mbind result_bind]. rewrite Hc. cbn [mbind result_bind].
  rewrite HL. reflexivity.
Qed.

End StageFacts.

Lemma increment_beta_nonempty
  (root_scalar : (R -> result R) -> R -> R -> result RootResults)
  (fuel : nat) (log_likelihoods : list R) (beta threshold_cov b : R) :
  _increment_beta root_scalar fuel log_likelihoods beta threshold_cov = Ok b ->
  log_likelihoods <> [].
Proof. intros H ->. discriminate H. Qed.

(** On samples with a single column the covariance is a zero-dimensional
    array, and the stage reports the refusal of the factorisation. *)
Lemma run_one_stage_one_dimensional
  (root_scalar : (R -> result R) -> R -> R -> result RootResults)
  (cholesky : list (list R) -> option (list (list R)))
  (self : TMCMC) (fuel : nat) samples log_likelihoods
  log_target_density_values beta rng llf ltdf scale_factor
  target_acceptance_rate do_thinning burn_in_steps new_beta :
  shape1 samples = 1%nat ->
  length log_likelihoods = shape0 samples ->
  _increment_beta root_scalar fuel log_likelihoods beta 1 = Ok new_beta ->
  _run_one_stage root_scalar cholesky self fuel samples log_likelihoods
    log_target_density_values beta rng llf ltdf scale_factor
    target_acceptance_rate do_thinning burn_in_steps
  = Raise (RuntimeError
      ("Cholesky decomposition failed: " +:+
       "0-dimensional array given. Array must be at least two-dimensional")).
Proof.
  intros Hd Hlen Hb.
  pose proof (increment_beta_nonempty _ _ _ _ _ _ Hb) as Hne.
  pose proof (weights_at_spec log_likelihoods (new_beta - beta) Hne) as Hw.
  destruct (weights_nonneg_sum _ _ _ Hw) as (Hpos & Hsum & Hwl).
  assert (Hc : exists v,
             _get_scaled_proposal_covariance samples
               (weights_at log_likelihoods (new_beta - beta)) scale_factor
             = Ok (Cov0d v)).
  { unfold _get_scaled_proposal_covariance, np_cov.
    destruct (decide (shape1 samples = 0%nat)) as [E|_]; [congruence|].
    destruct (decide (length (weights_at log_likelihoods (new_beta - beta))
                      <> shape0 samples)) as [Hn|_]; [congruence|].
    destruct (decide (Exists (fun w => w < 0)
                        (weights_at log_likelihoods (new_beta - beta))))
      as [Hex|_].
    { exfalso. apply Exists_exists in Hex as (x & Hx & Hneg).
      rewrite Forall_forall in Hpos. specialize (Hpos x Hx).
      simpl in Hpos. lra. }
    rewrite Hsum.
    destruct (decide (1 = 0)) as [E|_]; [lra|].
    destruct (decide (shape1 samples = 1%nat)) as [_|E]; [|contradiction].
    cbn [mbind result_bind mret result_ret cov_scale]. eexists. reflexivity. }
  destruct Hc as [v Hc].
  exact (run_one_stage_cholesky_raise root_scalar cholesky self fuel samples
           log_likelihoods log_target_density_values beta rng llf ltdf
           scale_factor target_acceptance_rate do_thinning burn_in_steps
           new_beta _ (Cov0d v) _ Hb Hw Hc eq_refl).
Qed.


(** ** C9: the log-evidence increment of a stage *)

(** C9.  For every beta increment and every non-empty log-likelihood vector
    of length N, [_calculate_log_evidence] returns
    [log (sum_i exp (beta_increment * l_i)) - log N]; and the log-evidence a
    stage returns is this quantity at the increment [new_beta - beta] of the
    stage. *)
Theorem log_evidence_increment :
  (forall beta_increment log_likelihoods,
     log_likelihoods <> [] ->
     _calculate_log_evidence beta_increment log_likelihoods
     = Ok (log_evidence_increment_spec beta_increment log_likelihoods)) /\
  (forall root_scalar cholesky self fuel samples log_likelihoods
          log_target_density_values beta rng llf ltdf scale_factor
          target_acceptance_rate do_thinning burn_in_steps
          ns nll nltd new_beta log_evidence rng',
     _run_one_stage root_scalar cholesky self fuel samples log_likelihoods
       log_target_density_values beta rng llf ltdf scale_factor
       target_acceptance_rate do_thinning burn_in_steps
     = Ok (ns, nll, nltd, new_beta, log_evidence, rng') ->
     log_evidence
     = log_evidence_increment_spec (new_beta - beta) log_likelihoods).
Proof.
  split.
  - apply calculate_log_evidence_spec.
  - intros. match goal with H : _run_one_stage _ _ _ _ _ _ _ _ _ _ _ _ _ _ _ = _ |- _ =>
      apply run_one_stage_inv in H as (_ & Hle & _) end.
    apply calculate_log_evidence_inv in Hle as [_ ->]. reflexivity.
Qed.

Lemma log_evidence_increment_witness :
  _calculate_log_evidence (1 / 2) [0; -1]
  = Ok (ln (exp (1 / 2 * 0) + (exp (1 / 2 * -1) + 0)) - ln (INR 2)).
Proof.
  refine (proj1 log_evidence_increment (1 / 2) [0; -1] _). discriminate.
Defined.


(** ** The threshold the stage passes to the stepper *)

(** With the default threshold 1 the stepper stops strictly before 1 on the
    peaked log-likelihoods; with the threshold 2 it jumps to 1. *)
Lemma increment_beta_peaked_default (fuel : nat) :
  exists b, _increment_beta bisect fuel peaked_log_likelihoods 0 1 = Ok b /\
            0 <= b < 1.
Proof.
  assert (Hne : peaked_log_likelihoods <> []) by discriminate.
  pose proof cov_at_peaked as [Hlo _].
  pose proof (cov_at_zero _ Hne) as Hzero.
  unfold _increment_beta. rewrite !(cov_objective_total _ _ _ Hne).
  simpl_result.
  replace (1 - 0) with 1 by lra. rewrite Hzero.
  rewrite decide_False.
  2:{ unfold np_sign. repeat destruct (decide _); lra. }
  destruct (bisect_converges_inside
              (cov_objective peaked_log_likelihoods 1)
              (fun x => cov_at peaked_log_likelihoods x - 1) 0 1)
    as (r & Hr & Hconv & Hroot).
  - intros x. apply cov_objective_total, Hne.
  - lra.
  - lra.
  - rewrite Hzero.
    assert (0 < (cov_at peaked_log_likelihoods 1 - 1)) by lra. nra.
  - rewrite Hr. simpl_result. rewrite Hconv.
    eexists. split; [reflexivity|].
    unfold py_min. destruct (decide _); lra.
Qed.

Lemma increment_beta_peaked_configured (fuel : nat) :
  _increment_beta bisect fuel peaked_log_likelihoods 0 2 = Ok 1.
Proof.
  assert (Hne : peaked_log_likelihoods <> []) by discriminate.
  pose proof cov_at_peaked as [_ Hhi].
  pose proof (cov_at_zero _ Hne) as Hzero.
  unfold _increment_beta. rewrite !(cov_objective_total _ _ _ Hne).
  simpl_result.
  replace (1 - 0) with 1 by lra. rewrite Hzero.
  rewrite decide_True; [reflexivity|].
  unfold np_sign. repeat destruct (decide _); lra.
Qed.

(** C1.  The stage calls the stepper without a threshold: the new beta it
    computes is the one [_increment_beta] produces with the default
    threshold 1, whatever threshold is configured on the instance.  On the
    peaked log-likelihoods and an instance configured with the threshold 2,
    a stage that returns therefore returns a beta below 1, where the
    configured threshold gives exactly 1. *)
Theorem stage_uses_default_threshold :
  (forall root_scalar cholesky self fuel samples log_likelihoods
          log_target_density_values beta rng llf ltdf scale_factor
          target_acceptance_rate do_thinning burn_in_steps
          ns nll nltd new_beta log_evidence rng',
     _run_one_stage root_scalar cholesky self fuel samples log_likelihoods
       log_target_density_values beta rng llf ltdf scale_factor
       target_acceptance_rate do_thinning burn_in_steps
     = Ok (ns, nll, nltd, new_beta, log_evidence, rng') ->
     _increment_beta root_scalar fuel log_likelihoods beta 1 = Ok new_beta) /\
  (forall cholesky self fuel samples log_target_density_values rng llf ltdf
          scale_factor target_acceptance_rate do_thinning burn_in_steps
          ns nll nltd new_beta log_evidence rng',
     threshold_cov self = 2 ->
     _run_one_stage bisect cholesky self fuel samples peaked_log_likelihoods
       log_target_density_values 0 rng llf ltdf scale_factor
       target_acceptance_rate do_thinning burn_in_steps
     = Ok (ns, nll, nltd, new_beta, log_evidence, rng') ->
     new_beta < 1 /\
     _increment_beta bisect fuel peaked_log_likelihoods 0 (threshold_cov self)
     = Ok 1).
Proof.
  split.
  - intros. eapply run_one_stage_inv; eassumption.
  - intros chol self fuel samples ltd rng llf ltdf sf tar dt bi
      ns nll nltd nb le rng' Hcfg Hstage.
    apply run_one_stage_inv in Hstage as [Hinc _].
    destruct (increment_beta_peaked_default fuel) as (b & Hb & Hrange).
    rewrite Hb in Hinc. injection Hinc as <-.
    split; [lra|]. rewrite Hcfg. apply increment_beta_peaked_configured.
Qed.

(** ** The driver *)

Section DriverFacts.

Variable root_scalar : (R -> result R) -> R -> R -> result RootResults.
Variable cholesky : list (list R) -> option (list (list R)).
Variable self : TMCMC.
Variable fuel : nat.
Variables (scale_factor target_acceptance_rate : R).
Variable num_burn_in : Z.

Local Notation "'turn'" :=
  (run_turn root_scalar cholesky self fuel scale_factor
     target_acceptance_rate num_burn_in).
Local Notation "'loop'" :=
  (run_loop root_scalar cholesky self fuel scale_factor
     target_acceptance_rate num_burn_in).

Lemma run_turn_inv (rng : Generator) (s : Z) (h h' : run_state)
  (r : result (Z * Generator)) :
  turn rng s h = (r, h') ->
  (h' = h /\ forall v, r <> Ok v) \/
  (exists samples ll ltd beta ns nll nltd nb le rng',
     samples_dict h !! s = Some samples /\
     log_likelihoods_dict h !! s = Some ll /\
     log_target_density_values_dict h !! s = Some ltd /\
     betas_dict h !! s = Some beta /\
     _run_one_stage root_scalar cholesky self fuel samples ll ltd beta rng
       (_log_likelihood_approximation self)
       (_log_posterior_approximation self) scale_factor
       target_acceptance_rate false num_burn_in
     = Ok (ns, nll, nltd, nb, le, rng') /\
     r = Ok ((s + 1)%Z, rng') /\
     h' = appended h s ns nll nltd nb le).
Proof.
  unfold run_turn, mbind, M_bind, getitem, lift.
  destruct (samples_dict h !! s) as [samples|];
    [|intros [= <- <-]; left; split; [reflexivity | discriminate]].
  destruct (log_likelihoods_dict h !! s) as [ll|];
    [|intros [= <- <-]; left; split; [reflexivity | discriminate]].
  destruct (log_target_density_values_dict h !! s) as [ltd|];
    [|intros [= <- <-]; left; split; [reflexivity | discriminate]].
  destruct (betas_dict h !! s) as [beta|];
    [|intros [= <- <-]; left; split; [reflexivity | discriminate]].
  destruct (_run_one_stage _ _ _ _ _ _ _ _ _ _ _ _ _ _ _)
    as [[[[[[ns nll] nltd] nb] le] rng']| e |] eqn:Hstage;
    [| intros [= <- <-]; left; split; [reflexivity | discriminate] ..].
  cbn. intros [= <- <-]. right.
  exists samples, ll, ltd, beta, ns, nll, nltd, nb, le, rng'.
  repeat (split; [reflexivity|]). split; [exact Hstage|].
  split; reflexivity.
Qed.

(** A turn of the loop that does not return leaves the five mappings as
    they were: the assignments come after the stage. *)
Lemma run_turn_fails (rng : Generator) (s : Z) (h h' : run_state)
  (r : result (Z * Generator)) :
  turn rng s h = (r, h') -> (forall v, r <> Ok v) -> h' = h.
Proof.
  intros H Hr. apply run_turn_inv in H as [[-> _] | H]; [reflexivity|].
  destruct H as (? & ? & ? & ? & ? & ? & ? & ? & ? & rng' & H).
  destruct H as (_ & _ & _ & _ & _ & -> & _). exfalso. eapply Hr. reflexivity.
Qed.

Lemma run_turn_raise (rng : Generator) (s : Z) (h : run_state)
  samples ll ltd beta e :
  samples_dict h !! s = Some samples ->
  log_likelihoods_dict h !! s = Some ll ->
  log_target_density_values_dict h !! s = Some ltd ->
  betas_dict h !! s = Some beta ->
  _run_one_stage root_scalar cholesky self fuel samples ll ltd beta rng
    (_log_likelihood_approximation self)
    (_log_posterior_approximation self) scale_factor
    target_acceptance_rate false num_burn_in = Raise e ->
  turn rng s h = (Raise e, h).
Proof.
  intros H1 H2 H3 H4 H5.
  unfold run_turn, mbind, M_bind, getitem, lift.
  rewrite H1, H2, H3, H4, H5. reflexivity.
Qed.

Lemma run_loop_raise (stages : nat) (rng : Generator) (s : Z)
  (h : run_state) (b : R) (e : exn) :
  betas_dict h !! s = Some b -> b < 1 ->
  turn rng s h = (Raise e, h) ->
  loop (S stages) rng s h = (Raise e, h).
Proof.
  intros Hb Hlt Hturn. cbn [run_loop].
  unfold mbind, M_bind, getitem. rewrite Hb.
  rewrite decide_True by exact Hlt. rewrite Hturn. reflexivity.
Qed.

(** Where the loop stops: at a stage boundary, with the store of that
    boundary. *)
Lemma run_loop_boundary (stages : nat) :
  forall rng s h r h',
    loop stages rng s h = (r, h') ->
    exists rngb sb,
      stage_boundary turn (h, rng, s) (h', rngb, sb) /\
      match r with
      | Ok (sf, rngf) =>
          sf = sb /\ rngf = rngb /\
          exists b, betas_dict h' !! sb = Some b /\ 1 <= b
      | Raise e =>
          (betas_dict h' !! sb = None /\ e = KeyError sb) \/
          (exists b, betas_dict h' !! sb = Some b /\ b < 1 /\
                     turn rngb sb h' = (Raise e, h'))
      | Diverge =>
          exists b, betas_dict h' !! sb = Some b /\ b < 1
      end.
Proof.
  induction stages as [|stages IH]; intros rng s h r h'.
  - cbn [run_loop]. unfold mbind, M_bind, getitem, lift.
    destruct (betas_dict h !! s) as [b|] eqn:Hb.
    + destruct (decide (b < 1)).
      * intros [= <- <-]. exists rng, s. split; [constructor|]. eauto.
      * cbn. intros [= <- <-]. exists rng, s. split; [constructor|].
        split; [reflexivity|]. split; [reflexivity|]. exists b.
        split; [exact Hb | lra].
    + intros [= <- <-]. exists rng, s. split; [constructor|]. left. auto.
  - cbn [run_loop]. unfold mbind at 1. unfold M_bind at 1.
    unfold getitem at 1.
    destruct (betas_dict h !! s) as [b|] eqn:Hb.
    + destruct (decide (b < 1)) as [Hlt | Hge].
      * unfold mbind, M_bind.
        destruct (turn rng s h) as [[[s1 rng1]|e|] h1] eqn:Hturn.
        -- intros Hloop. apply IH in Hloop as (rngb & sb & Hbd & Hres).
           exists rngb, sb. split; [|exact Hres].
           eapply boundary_next; eauto.
        -- intros [= <- <-].
           pose proof (run_turn_fails _ _ _ _ _ Hturn) as Heq.
           rewrite Heq in * by discriminate.
           exists rng, s. split; [constructor|]. right. eauto.
        -- intros [= <- <-].
           pose proof (run_turn_fails _ _ _ _ _ Hturn) as Heq.
           rewrite Heq in * by discriminate.
           exists rng, s. split; [constructor|]. eauto.
      * cbn. intros [= <- <-]. exists rng, s. split; [constructor|].
        split; [reflexivity|]. split; [reflexivity|]. exists b.
        split; [exact Hb | lra].
    + intros [= <- <-]. exists rng, s. split; [constructor|]. left. auto.
Qed.

(** A stage whose entry beta is at least 1 is not run. *)
Lemma run_loop_done (stages : nat) (rng : Generator) (s : Z) (h : run_state)
  (b : R) :
  betas_dict h !! s = Some b -> 1 <= b ->
  loop stages rng s h = (Ok (s, rng), h).
Proof.
  intros Hb Hge. destruct stages; cbn [run_loop];
    unfold mbind, M_bind, getitem; rewrite Hb;
    (rewrite decide_False by lra); reflexivity.
Qed.

(** Stages only write above the entry stage number. *)
Lemma stage_boundary_frame x y :
  stage_boundary turn x y ->
  (x.2 <= y.2)%Z /\
  forall k, (k <= x.2)%Z ->
    betas_dict y.1.1 !! k = betas_dict x.1.1 !! k.
Proof.
  induction 1 as [x | h rng s beta h' rng' s' y Hb Hlt Hturn Hrest IH];
    [split; [lia | reflexivity]|].
  cbn [fst snd] in *.
  apply run_turn_inv in Hturn as [[_ Hno] | Hturn];
    [exfalso; eapply Hno; reflexivity|].
  destruct Hturn as (? & ? & ? & ? & ns & nll & nltd & nb & le & rng1 & H).
  destruct H as (_ & _ & _ & _ & _ & [= -> ->] & ->).
  destruct IH as [Hle Hframe]. split; [lia|].
  intros k Hk. rewrite Hframe by lia. cbn [appended betas_dict].
  apply lookup_insert_ne. lia.
Qed.

(** Along the stages of a run, beta does not decrease, stays at most 1,
    and every stage that has a successor has beta below 1. *)
Lemma stage_boundary_monotone x y :
  bracketing_solver root_scalar ->
  stage_boundary turn x y ->
  forall i, (x.2 <= i < y.2)%Z ->
    exists b b',
      betas_dict y.1.1 !! i = Some b /\
      betas_dict y.1.1 !! (i + 1)%Z = Some b' /\
      b < 1 /\ b <= b' <= 1.
Proof.
  intros Hrs.
  induction 1 as [x | h rng s beta h' rng' s' y Hb Hlt Hturn Hrest IH];
    [intros i Hi; lia|].
  cbn [fst snd] in *. intros i Hi.
  pose proof (stage_boundary_frame _ _ Hrest) as [Hle Hframe].
  cbn [fst snd] in *.
  apply run_turn_inv in Hturn as [[_ Hno] | Hturn];
    [exfalso; eapply Hno; reflexivity|].
  destruct Hturn as (smp & ll & ltd & beta0 & ns & nll & nltd & nb & le
                     & rng1 & H).
  destruct H as (_ & _ & _ & Hb0 & Hstage & [= -> ->] & ->).
  rewrite Hb in Hb0. injection Hb0 as <-.
  destruct (decide (i = s)) as [-> | Hne].
  - exists beta, nb.
    rewrite !Hframe by lia. cbn [appended betas_dict].
    rewrite lookup_insert_ne by lia. rewrite lookup_insert_eq.
    split; [exact Hb|]. split; [reflexivity|]. split; [exact Hlt|].
    apply run_one_stage_inv in Hstage as [Hinc _].
    eapply increment_beta_range; [exact Hrs | lra | exact Hinc].
  - apply IH. lia.
Qed.

End DriverFacts.

Lemma run_raise
  (root_scalar : (R -> result R) -> R -> R -> result RootResults)
  (cholesky : list (list R) -> option (list (list R)))
  (self : TMCMC) (fuel stages : nat) (rng : Generator) (stage_num : Z)
  (num_burn_in : Z) (h h' : run_state) (samples0 : array2) (e : exn) :
  samples_dict h !! 0%Z = Some samples0 ->
  shape1 samples0 <> 0%nat ->
  run_loop root_scalar cholesky self fuel (2.4 / sqrt (INR (shape1 samples0)))
    (0.23 + 0.21 / INR (shape1 samples0)) num_burn_in stages rng stage_num h
  = (Raise e, h') ->
  run root_scalar cholesky self fuel stages rng stage_num num_burn_in h
  = (Raise e, h').
Proof.
  intros H0 Hd Hloop. unfold run. unfold mbind at 1. unfold M_bind at 1.
  unfold getitem at 1. rewrite H0.
  destruct (decide (shape1 samples0 = 0%nat)) as [|_]; [contradiction|].
  unfold mbind, M_bind, mret, M_ret. rewrite Hloop. reflexivity.
Qed.

(** ** C10: a run that starts at beta >= 1 *)

(** C10.  When the entry stage already has beta [>= 1], [run] executes no
    stage and changes none of the five mappings, however it ends; when the
    run state holds its initial population, of dimension [d >= 1], at
    index 0, [run] returns the five mappings exactly as they were at entry,
    for every budget of stages, the empty budget included; and the loop
    leaves the generator and the stage number untouched. *)
Theorem run_returns_at_final_beta
  (root_scalar : (R -> result R) -> R -> R -> result RootResults)
  (cholesky : list (list R) -> option (list (list R)))
  (self : TMCMC) (fuel stages : nat) (rng : Generator) (stage_num : Z)
  (num_burn_in : Z) (h : run_state) (b : R) :
  betas_dict h !! stage_num = Some b ->
  1 <= b ->
  (forall r h',
     run root_scalar cholesky self fuel stages rng stage_num num_burn_in h
     = (r, h') -> h' = h) /\
  (forall samples0,
     samples_dict h !! 0%Z = Some samples0 ->
     shape1 samples0 <> 0%nat ->
     run root_scalar cholesky self fuel stages rng stage_num num_burn_in h
     = (Ok h, h) /\
     run root_scalar cholesky self fuel 0 rng stage_num num_burn_in h
     = (Ok h, h)) /\
  (forall scale_factor target_acceptance_rate,
     run_loop root_scalar cholesky self fuel scale_factor
       target_acceptance_rate num_burn_in stages rng stage_num h
     = (Ok (stage_num, rng), h)).
Proof.
  intros Hb Hge.
  assert (Hrun : forall n samples0,
    samples_dict h !! 0%Z = Some samples0 ->
    shape1 samples0 <> 0%nat ->
    run root_scalar cholesky self fuel n rng stage_num num_burn_in h
    = (Ok h, h)).
  { intros n samples0 H0 Hd. unfold run. unfold mbind at 1.
    unfold M_bind at 1. unfold getitem at 1. rewrite H0.
    rewrite decide_False by exact Hd.
    unfold mbind, M_bind, mret, M_ret.
    rewrite (run_loop_done _ _ _ _ _ _ _ n rng stage_num h b Hb Hge).
    reflexivity. }
  split; [|split].
  - intros r h'. destruct (samples_dict h !! 0%Z) as [samples0|] eqn:H0.
    + destruct (decide (shape1 samples0 = 0%nat)) as [Hd | Hd].
      * unfold run. unfold mbind at 1. unfold M_bind at 1.
        unfold getitem at 1. rewrite H0.
        rewrite decide_True by exact Hd. cbn. intros [= _ <-]. reflexivity.
      * rewrite (Hrun stages samples0 eq_refl Hd). intros [= _ <-].
        reflexivity.
    + unfold run. unfold mbind at 1. unfold M_bind at 1.
      unfold getitem at 1. rewrite H0. intros [= _ <-]. reflexivity.
  - intros samples0 H0 Hd. split; eapply Hrun; eassumption.
  - intros sf tar. eapply run_loop_done; eassumption.
Qed.

Lemma run_returns_at_final_beta_witness :
  run bisect cholesky_lower two_valued_sampler 0 0 fixed_generator 0 0
    finished_state
  = (Ok finished_state, finished_state).
Proof.
  refine (proj1 (proj1 (proj2 (run_returns_at_final_beta bisect
            cholesky_lower two_valued_sampler 0 0 fixed_generator 0 0
            finished_state 1 _ _))
            (Array2 2 [[0; 0]; [1; 1]]) _ _)).
  - reflexivity.
  - lra.
  - reflexivity.
  - simpl. discriminate.
Defined.

(** ** C3: a fatal error appends no partial stage *)

(** C3.  When [run] ends with an exception, the five mappings are those of
    the stage boundary at which the failing stage was entered: either the
    exception came before the loop (a missing index 0, a zero dimension) and
    the mappings are those of the call, or it came from the loop condition
    or from the turn entered at that boundary, and that turn left the
    mappings as it found them.  In general a turn that does not return
    changes none of the five mappings. *)
Theorem run_abort_appends_nothing
  (root_scalar : (R -> result R) -> R -> R -> result RootResults)
  (cholesky : list (list R) -> option (list (list R)))
  (self : TMCMC) (fuel stages : nat) (rng : Generator) (stage_num : Z)
  (num_burn_in : Z) (h h' : run_state) (e : exn) :
  run root_scalar cholesky self fuel stages rng stage_num num_burn_in h
  = (Raise e, h') ->
  (exists scale_factor target_acceptance_rate rngb sb,
     stage_boundary
       (run_turn root_scalar cholesky self fuel scale_factor
          target_acceptance_rate num_burn_in)
       (h, rng, stage_num) (h', rngb, sb) /\
     ((h' = h /\ (e = KeyError 0 \/ e = ZeroDivisionError)) \/
      (betas_dict h' !! sb = None /\ e = KeyError sb) \/
      (exists b, betas_dict h' !! sb = Some b /\ b < 1 /\
                 run_turn root_scalar cholesky self fuel scale_factor
                   target_acceptance_rate num_burn_in rngb sb h'
                 = (Raise e, h')))) /\
  (forall scale_factor target_acceptance_rate rng1 s1 h1 h2 r,
     run_turn root_scalar cholesky self fuel scale_factor
       target_acceptance_rate num_burn_in rng1 s1 h1 = (r, h2) ->
     (forall v, r <> Ok v) -> h2 = h1).
Proof.
  intros Hrun. split; [|intros; eapply run_turn_fails; eassumption].
  revert Hrun. unfold run. unfold mbind at 1. unfold M_bind at 1.
  unfold getitem at 1.
  destruct (samples_dict h !! 0%Z) as [samples0|].
  - destruct (decide (shape1 samples0 = 0%nat)).
    + cbn. intros [= <- <-]. exists 0, 0, rng, stage_num.
      split; [constructor|]. left. auto.
    + unfold mbind, M_bind, mret, M_ret.
      destruct (run_loop _ _ _ _ _ _ _ _ _ _ _) as [[[sf rngf]|e'|] h1]
        eqn:Hloop; try discriminate.
      intros [= <- <-].
      apply run_loop_boundary in Hloop as (rngb & sb & Hbd & Hres).
      eexists _, _, rngb, sb. split; [exact Hbd|]. right. exact Hres.
  - intros [= <- <-]. exists 0, 0, rng, stage_num.
    split; [constructor|]. left. auto.
Qed.

Lemma run_abort_appends_nothing_witness :
  run bisect cholesky_lower two_valued_sampler 0 1 fixed_generator 0 0
    one_dimensional_state
  = (Raise (RuntimeError
       ("Cholesky decomposition failed: " +:+
        "0-dimensional array given. Array must be at least two-dimensional")),
     one_dimensional_state) /\
  exists scale_factor target_acceptance_rate rngb sb,
    stage_boundary
      (run_turn bisect cholesky_lower two_valued_sampler 0 scale_factor
         target_acceptance_rate 0)
      (one_dimensional_state, fixed_generator, 0%Z)
      (one_dimensional_state, rngb, sb).
Proof.
  assert (Hrun :
    run bisect cholesky_lower two_valued_sampler 0 1 fixed_generator 0 0
      one_dimensional_state
    = (Raise (RuntimeError
         ("Cholesky decomposition failed: " +:+
          "0-dimensional array given. Array must be at least two-dimensional")),
       one_dimensional_state)).
  { eapply run_raise; [reflexivity | simpl; discriminate |].
    eapply run_loop_raise; [reflexivity | lra |].
    eapply run_turn_raise; [reflexivity .. |].
    apply (run_one_stage_one_dimensional bisect cholesky_lower
             two_valued_sampler 0 (Array2 1 [[0]; [1]; [2]]) (repeat (-1) 3)
             (repeat (-1) 3) 0 fixed_generator _ _ _ _ false 0 1);
      [reflexivity | reflexivity | apply increment_beta_repeat]. }
  split; [exact Hrun|].
  destruct (run_abort_appends_nothing bisect cholesky_lower
              two_valued_sampler 0 1 fixed_generator 0 0
              one_dimensional_state one_dimensional_state _ Hrun)
    as [(sf & tar & rngb & sb & Hbd & _) _].
  exists sf, tar, rngb, sb. exact Hbd.
Defined.

(** ** C4: beta never decreases and the driver stops at 1 *)

(** C4.  For a solver that brackets its root, every beta in [[0, 1]] and
    every log-likelihood vector: what [_increment_beta] returns lies between
    the input beta and 1, and for a non-empty vector and a positive
    threshold it does return once it has enough fuel.  Consequently, in the
    mappings a run leaves behind, the betas of the stages it appended never
    decrease and never exceed 1, every stage that was followed by another
    one has beta below 1, the mappings up to the entry stage are untouched,
    and a loop that ends normally ends on a stage with beta at least 1; a
    loop entered on a stage with beta 1 returns at once and appends
    nothing. *)
Theorem beta_monotone_until_one
  (root_scalar : (R -> result R) -> R -> R -> result RootResults) :
  bracketing_solver root_scalar ->
  (forall log_likelihoods beta threshold_cov,
     0 <= beta <= 1 ->
     (forall fuel b,
        _increment_beta root_scalar fuel log_likelihoods beta threshold_cov
        = Ok b -> beta <= b <= 1) /\
     (log_likelihoods <> [] -> 0 < threshold_cov ->
      exists n, forall fuel, (n <= fuel)%nat ->
        exists b,
          _increment_beta root_scalar fuel log_likelihoods beta threshold_cov
          = Ok b /\ beta <= b <= 1)) /\
  (forall cholesky self fuel scale_factor target_acceptance_rate num_burn_in
          stages rng s h r h',
     run_loop root_scalar cholesky self fuel scale_factor
       target_acceptance_rate num_burn_in stages rng s h = (r, h') ->
     exists sb,
       (s <= sb)%Z /\
       (forall i, (s <= i < sb)%Z ->
          exists b b',
            betas_dict h' !! i = Some b /\
            betas_dict h' !! (i + 1)%Z = Some b' /\
            b < 1 /\ b <= b' <= 1) /\
       (forall k, (k <= s)%Z -> betas_dict h' !! k = betas_dict h !! k) /\
       (forall sf rngf, r = Ok (sf, rngf) ->
          sf = sb /\ exists b, betas_dict h' !! sb = Some b /\ 1 <= b)) /\
  (forall cholesky self fuel scale_factor target_acceptance_rate num_burn_in
          stages rng s h,
     betas_dict h !! s = Some 1 ->
     run_loop root_scalar cholesky self fuel scale_factor
       target_acceptance_rate num_burn_in stages rng s h
     = (Ok (s, rng), h)).
Proof.
  intros Hrs. split; [|split].
  - intros l beta tau Hbeta. split.
    + intros fuel b Hb. eapply increment_beta_range; [exact Hrs | lra | exact Hb].
    + intros Hne Htau.
      destruct (increment_beta_total root_scalar l beta tau Hrs Hne)
        as [n Hn]; [lra | exact Htau |].
      exists n. intros fuel Hfuel. destruct (Hn fuel Hfuel) as [b Hb].
      exists b. split; [exact Hb|].
      eapply increment_beta_range; [exact Hrs | lra | exact Hb].
  - intros chol self fuel sf tar nbi stages rng s h r h' Hloop.
    apply run_loop_boundary in Hloop as (rngb & sb & Hbd & Hres).
    pose proof (stage_boundary_frame _ _ _ _ _ _ _ _ _ Hbd) as [Hle Hframe].
    pose proof (stage_boundary_monotone _ _ _ _ _ _ _ _ _ Hrs Hbd) as Hmono.
    cbn [fst snd] in *.
    exists sb. split; [exact Hle|]. split; [exact Hmono|].
    split; [exact Hframe|].
    intros sf' rngf ->. destruct Hres as (-> & _ & Hb). split; [reflexivity|].
    exact Hb.
  - intros chol self fuel sf tar nbi stages rng s h Hb.
    eapply run_loop_done; [exact Hb | lra].
Qed.

Lemma beta_monotone_until_one_witness :
  exists fuel b,
    _increment_beta bisect fuel [0; -1] (1 / 2) 1 = Ok b /\ 1 / 2 <= b <= 1.
Proof.
  assert (Hbeta : 0 <= 1 / 2 <= 1) by lra.
  assert (Hne : [0; -1] <> []) by discriminate.
  assert (Htau : 0 < 1) by lra.
  destruct (proj2 (proj1 (beta_monotone_until_one bisect bisect_bracketing)
                     [0; -1] (1 / 2) 1 Hbeta) Hne Htau) as [n Hn].
  destruct (Hn n (Nat.le_refl n)) as [b Hb].
  exists n, b. exact Hb.
Defined.

(** ** The size check on the evaluator's output *)

Section StepFacts.

Variable cholesky : list (list R) -> option (list (list R)).
Variable self : TMCMC.
Variables (beta new_beta : R).
Variable log_likelihood_function : array2 -> list R.
Variable log_target_density_function : array2 -> list R -> list R.
Variable target_acceptance_rate : R.
Variable burn_in_steps : Z.

Local Notation "'step'" :=
  (mh_step cholesky self beta new_beta log_likelihood_function
     log_target_density_function target_acceptance_rate burn_in_steps).

Lemma adapt_proposal_skip (step_count : Z) (c : chain) :
  adapt_frequency self <> 0%Z ->
  (step_count mod adapt_frequency self)%Z <> 0%Z ->
  adapt_proposal cholesky self target_acceptance_rate step_count c
  = Ok (c_num_accepts c, c_n_adapt c, c_scale_factor c, c_cholesky c).
Proof.
  intros Hf Hm. unfold adapt_proposal.
  rewrite decide_False by exact Hf. rewrite decide_False by exact Hm.
  reflexivity.
Qed.

(** A step whose proposal is accepted checks the size of the
    log-likelihood value and raises when it is not 1. *)
Lemma mh_step_accepted_invalid (k : Z) (index : nat) (c : chain)
  (num_accepts n_adapt : Z) (scale_factor : R) (L : list (list R))
  (row : list R) (current_value : R) :
  adapt_proposal cholesky self target_acceptance_rate (c_step_count c + 1) c
  = Ok (num_accepts, n_adapt, scale_factor, L) ->
  rows (c_current_samples c) !! index = Some row ->
  c_current_log_target_density_values c !! index = Some current_value ->
  let drawn := rng_standard_normal (c_rng c) (shape1 (c_current_samples c)) in
  let proposed_row := zip_with Rplus row (matvec L drawn.1) in
  let proposed_state := Array2 (length proposed_row) [proposed_row] in
  let ll := log_likelihood_function proposed_state in
  let ltd := log_target_density_function proposed_state ll in
  let u := (rng_uniform drawn.2).1 in
  length ll <> 1%nat ->
  truth_value (map (np_log_le u) (map (fun x => x - current_value) ltd))
  = Ok true ->
  step k index c = Raise (ValueError (_generate_error_message (length ll))).
Proof.
  intros Hadapt Hrow Hcur drawn proposed_row proposed_state ll ltd u Hsize Hacc.
  unfold mh_step. rewrite Hadapt. cbn [mbind result_bind].
  fold drawn. destruct drawn as [z rng1] eqn:Hdrawn.
  unfold get_item. rewrite Hrow, Hcur. cbn [mbind result_bind].
  cbn [fst snd] in *. fold proposed_row. fold proposed_state. fold ll. fold ltd.
  destruct (rng_uniform rng1) as [u' rng2] eqn:Hu. cbn [fst] in u. subst u.
  rewrite Hacc. cbn [mbind result_bind].
  unfold set_row, set_item.
  destruct (decide (index < length (rows (c_current_samples c)))%nat)
    as [_ | Hge]; [|exfalso; apply Hge; eapply lookup_lt_Some; exact Hrow].
  simpl_result.
  destruct (decide (length ll <> 1%nat)) as [_ | Hno];
    [reflexivity | contradiction].
Qed.

(** A step whose proposal is rejected checks nothing: it only moves the
    generator and the counters. *)
Lemma mh_step_rejected (k : Z) (index : nat) (c : chain)
  (num_accepts n_adapt : Z) (scale_factor : R) (L : list (list R))
  (row : list R) (current_value : R) :
  adapt_proposal cholesky self target_acceptance_rate (c_step_count c + 1) c
  = Ok (num_accepts, n_adapt, scale_factor, L) ->
  rows (c_current_samples c) !! index = Some row ->
  c_current_log_target_density_values c !! index = Some current_value ->
  let drawn := rng_standard_normal (c_rng c) (shape1 (c_current_samples c)) in
  let proposed_row := zip_with Rplus row (matvec L drawn.1) in
  let proposed_state := Array2 (length proposed_row) [proposed_row] in
  let ll := log_likelihood_function proposed_state in
  let ltd := log_target_density_function proposed_state ll in
  let u := (rng_uniform drawn.2).1 in
  truth_value (map (np_log_le u) (map (fun x => x - current_value) ltd))
  = Ok false ->
  step k index c
  = Ok (mkChain (rng_uniform drawn.2).2 (c_weights c) scale_factor L
          (c_current_samples c) (c_current_log_likelihoods c)
          (c_current_log_target_density_values c) num_accepts n_adapt
          (c_step_count c + 1)).
Proof.
  intros Hadapt Hrow Hcur drawn proposed_row proposed_state ll ltd u Hacc.
  unfold mh_step. rewrite Hadapt. cbn [mbind result_bind].
  fold drawn. destruct drawn as [z rng1] eqn:Hdrawn.
  unfold get_item. rewrite Hrow, Hcur. cbn [mbind result_bind].
  cbn [fst snd] in *. fold proposed_row. fold proposed_state. fold ll. fold ltd.
  destruct (rng_uniform rng1) as [u' rng2] eqn:Hu. cbn [fst snd] in *. subst u.
  rewrite Hacc. reflexivity.
Qed.

End StepFacts.

(** ** A stage on four samples at the corners of a square *)

Lemma run_one_stage_entry
  (root_scalar : (R -> result R) -> R -> R -> result RootResults)
  (cholesky : list (list R) -> option (list (list R)))
  (self : TMCMC) (fuel : nat) samples log_likelihoods
  log_target_density_values beta rng llf ltdf scale_factor
  target_acceptance_rate do_thinning burn_in_steps new_beta weights c L :
  _increment_beta root_scalar fuel log_likelihoods beta 1 = Ok new_beta ->
  _calculate_weights (new_beta - beta) log_likelihoods = Ok weights ->
  _get_scaled_proposal_covariance samples weights scale_factor = Ok c ->
  np_linalg_cholesky cholesky c = Ok L ->
  _run_one_stage root_scalar cholesky self fuel samples log_likelihoods
    log_target_density_values beta rng llf ltdf scale_factor
    target_acceptance_rate do_thinning burn_in_steps
  = ('(_, c, out) ←
       for_each (range (burn_in_steps + Z.of_nat (shape0 samples)))
         (stage_turn cholesky self beta new_beta llf ltdf
            target_acceptance_rate burn_in_steps (shape0 samples) do_thinning)
         (num_steps self,
          mkChain rng weights scale_factor L samples log_likelihoods
            log_target_density_values 0 1 0,
          mkEmitted (zeros_like2 samples) (zeros_like1 log_likelihoods)
            (zeros_like1 log_target_density_values));
     mret (new_samples out, new_log_likelihoods out,
           new_log_target_density_values out, new_beta,
           log_evidence_increment_spec (new_beta - beta) log_likelihoods,
           c_rng c)).
Proof.
  intros Hb Hw Hc HL. unfold _run_one_stage. rewrite Hb.
  cbn [mbind result_bind].
  apply calculate_weights_inv in Hw as Hne. destruct Hne as [Hne _].
  rewrite (calculate_log_evidence_spec _ _ Hne). cbn [mbind result_bind].
  rewrite Hw. cbn [mbind result_bind]. rewrite Hc. cbn [mbind result_bind].
  rewrite HL. reflexivity.
Qed.

Lemma uniform_weights_valid (n : nat) :
  Forall (fun x => 0 <= x) (repeat (1 / INR (S n)) (S n)) /\
  np_sum (repeat (1 / INR (S n)) (S n)) = 1.
Proof.
  pose proof (INR_S_neq_0 n) as Hn.
  assert (0 < INR (S n)) by (apply lt_0_INR; lia).
  split.
  - apply Forall_forall. intros x Hx. apply list_elem_of_In in Hx.
    apply repeat_spec in Hx as ->.
    apply Rlt_le, Rdiv_lt_0_compat; lra.
  - rewrite np_sum_repeat. field. exact Hn.
Qed.

Lemma rng_choice_ok (g : Generator) (a : nat) (p : list R) :
  a <> 0%nat -> length p = a -> Forall (fun x => 0 <= x) p -> np_sum p = 1 ->
  rng_choice g a p
  = Ok (Nat.modulo (choice_at g (position g) a p) a, advance g).
Proof.
  intros Ha Hlen Hpos Hsum. unfold rng_choice.
  rewrite decide_False by exact Ha.
  destruct (decide (length p <> a)) as [Hne | _]; [contradiction|].
  destruct (decide (Exists (fun x => x < 0) p)) as [Hex | _].
  { exfalso. apply Exists_exists in Hex as (x & Hx & Hneg).
    rewrite Forall_forall in Hpos. specialize (Hpos x Hx). simpl in Hpos. lra. }
  destruct (decide (Rabs (np_sum p - 1) > choice_atol)) as [Hbad | _];
    [|reflexivity].
  exfalso. rewrite Hsum in Hbad.
  replace (1 - 1) with 0 in Hbad by lra. rewrite Rabs_R0 in Hbad.
  unfold choice_atol in Hbad. lra.
Qed.

Lemma scaled_covariance_of_square :
  _get_scaled_proposal_covariance square_samples (repeat (1 / INR 4) 4) 1
  = Ok (Cov2d (Some [[4 / 3; 0]; [0; 4 / 3]])).
Proof.
  pose proof (uniform_weights_valid 3) as [Hpos Hsum].
  unfold _get_scaled_proposal_covariance, np_cov.
  destruct (decide (shape1 square_samples = 0%nat)) as [H | _];
    [discriminate H|].
  destruct (decide (length (repeat (1 / INR 4) 4) <> shape0 square_samples))
    as [H | _]; [exfalso; apply H; reflexivity|].
  destruct (decide (Exists (fun w => w < 0) (repeat (1 / INR 4) 4)))
    as [Hex | _].
  { exfalso. apply Exists_exists in Hex as (x & Hx & Hneg).
    rewrite Forall_forall in Hpos. specialize (Hpos x Hx). simpl in Hpos. lra. }
  rewrite Hsum.
  destruct (decide (1 = 0)) as [H | _]; [lra|].
  destruct (decide (shape1 square_samples = 1%nat)) as [H | _];
    [discriminate H|].
  destruct (decide (_ <= 0)) as [Hfact | _].
  { exfalso. revert Hfact. unfold np_sum. simpl. lra. }
  cbn [mbind result_bind mret result_ret cov_scale option_bind].
  do 3 f_equal.
  unfold square_samples, column, dot, np_sum. simpl.
  repeat f_equal; field.
Qed.

Lemma cholesky_of_square_covariance :
  exists L, cholesky_lower [[4 / 3; 0]; [0; 4 / 3]] = Some L.
Proof.
  unfold cholesky_lower. cbn [cholesky_rows cholesky_row length nth app].
  unfold dot, np_sum. cbn [zip_with fold_right].
  destruct (decide (0 < 4 / 3 - 0)) as [_ | H]; [|exfalso; apply H; lra].
  cbn [cholesky_rows cholesky_row length nth app zip_with fold_right].
  destruct (decide _) as [_ | H]; [eauto|].
  exfalso. apply H. unfold Rdiv. lra.
Qed.

Lemma ln_half_gt_minus_1 : -1 < ln (1 / 2).
Proof.
  replace (1 / 2) with (/ 2) by lra.
  rewrite ln_Rinv by lra.
  assert (ln 2 < 1); [|lra].
  apply Rlt_le_trans with (ln (exp 1)); [|rewrite ln_exp; lra].
  apply ln_increasing; [lra|].
  pose proof (exp_ineq1 1 ltac:(lra)). lra.
Qed.

(** The draw 1/2 rejects a proposal whose log-target density is 1 below the
    current one, and accepts one whose density is 1 above. *)
Lemma half_rejects : np_log_le (1 / 2) (-1 - 0) = false.
Proof.
  pose proof ln_half_gt_minus_1.
  unfold np_log_le.
  rewrite decide_False by lra. rewrite decide_False by lra.
  apply bool_decide_eq_false_2. lra.
Qed.

Lemma half_accepts : np_log_le (1 / 2) (1 - 0) = true.
Proof.
  assert (ln (1 / 2) < 0).
  { rewrite <- ln_1. apply ln_increasing; lra. }
  unfold np_log_le.
  rewrite decide_False by lra. rewrite decide_False by lra.
  apply bool_decide_eq_true_2. lra.
Qed.

Lemma square_step_count (k : nat) :
  (k < 4)%nat -> ((Z.of_nat k + 1) mod 50)%Z <> 0%Z.
Proof. intros Hk. rewrite Z.mod_small by lia. lia. Qed.

(** One turn of the outer loop on the square samples, with the sampler whose
    proposals are all rejected: the seed row is emitted unchanged. *)
Lemma square_turn_rejected (k p : nat) (L : list (list R)) (out : emitted) :
  (k < 4)%nat ->
  (k < length (rows (new_samples out)))%nat ->
  (k < length (new_log_likelihoods out))%nat ->
  (k < length (new_log_target_density_values out))%nat ->
  stage_turn cholesky_lower two_valued_sampler 0 1
    (_log_likelihood_approximation two_valued_sampler)
    (_log_posterior_approximation two_valued_sampler) (1 / 3) 0 4 false
    (Z.of_nat k) (1%Z, square_chain p L k, out)
  = Ok (1%Z, square_chain (3 + p) L (S k),
        mkEmitted
          (Array2 (shape1 (new_samples out))
             (<[k := [1; 1]]> (rows (new_samples out))))
          (<[k := 0]> (new_log_likelihoods out))
          (<[k := 0]> (new_log_target_density_values out))).
Proof.
  intros Hk H1 H2 H3.
  pose proof (uniform_weights_valid 3) as [Hpos Hsum].
  unfold stage_turn.
  cbn [square_chain c_rng c_weights c_scale_factor c_cholesky
       c_current_samples c_current_log_likelihoods
       c_current_log_target_density_values c_num_accepts c_n_adapt
       c_step_count].
  rewrite rng_choice_ok; [| discriminate | reflexivity | exact Hpos | exact Hsum].
  cbn [mbind result_bind].
  destruct (decide (Z.of_nat k >= 0)%Z) as [_ | Hneg]; [|lia].
  rewrite bool_decide_eq_true_2 by reflexivity.
  cbn [orb two_valued_sampler num_steps thinning_factor].
  change (1 * 1)%Z with 1%Z.
  unfold mh_steps. change (range 1) with [0%Z]. cbn [for_each].
  rewrite (mh_step_rejected cholesky_lower two_valued_sampler 0 1 _ _ (1 / 3)
             0 (Z.of_nat k) _ _ 0%Z 1%Z 1 L [1; 1] 0).
  - cbn [mbind result_bind].
    cbn [c_current_samples c_current_log_likelihoods
         c_current_log_target_density_values].
    unfold get_item, set_row, set_item.
    cbn [generator_at choice_at position].
    change (0 `mod` 4)%nat with 0%nat.
    change (rows square_samples !! 0%nat) with (Some [1; 1]).
    change (zeros4 !! 0%nat) with (Some 0).
    simpl_result.
    rewrite Z.sub_0_r, Nat2Z.id.
    rewrite !decide_True by assumption.
    simpl_result.
    unfold square_chain. repeat f_equal. cbn [c_step_count]. lia.
  - apply adapt_proposal_skip; [discriminate|].
    apply square_step_count, Hk.
  - reflexivity.
  - reflexivity.
  - cbn. rewrite half_rejects. reflexivity.
Qed.

Lemma square_stage_entry (self : TMCMC) (rng : Generator)
  (llf : array2 -> list R) (ltdf : array2 -> list R -> list R)
  (target_acceptance_rate : R) (do_thinning : bool) :
  exists L,
    _run_one_stage bisect cholesky_lower self 0 square_samples zeros4 zeros4
      0 rng llf ltdf 1 target_acceptance_rate do_thinning 0
    = ('(_, c, out) ←
         for_each [Z.of_nat 0; Z.of_nat 1; Z.of_nat 2; Z.of_nat 3]
           (stage_turn cholesky_lower self 0 1 llf ltdf
              target_acceptance_rate 0 4 do_thinning)
           (num_steps self,
            mkChain rng (repeat (1 / INR 4) 4) 1 L square_samples zeros4
              zeros4 0 1 0,
            mkEmitted (zeros_like2 square_samples) (zeros_like1 zeros4)
              (zeros_like1 zeros4));
       mret (new_samples out, new_log_likelihoods out,
             new_log_target_density_values out, 1,
             log_evidence_increment_spec (1 - 0) zeros4, c_rng c)).
Proof.
  destruct cholesky_of_square_covariance as [L HL]. exists L.
  apply (run_one_stage_entry bisect cholesky_lower self 0 square_samples
           zeros4 zeros4 0 rng llf ltdf 1 target_acceptance_rate do_thinning
           0 1 (repeat (1 / INR 4) 4) (Cov2d (Some [[4 / 3; 0]; [0; 4 / 3]]))
           L).
  - apply (increment_beta_repeat bisect 0 0 3).
  - apply (calculate_weights_repeat (1 - 0) 0 3).
  - apply scaled_covariance_of_square.
  - unfold np_linalg_cholesky. rewrite HL. reflexivity.
Qed.

(** The whole stage with the sampler whose log-likelihood evaluator returns
    two values and whose proposals are all rejected: it returns. *)
Lemma square_stage_all_rejected :
  _run_one_stage bisect cholesky_lower two_valued_sampler 0 square_samples
    zeros4 zeros4 0 fixed_generator
    (_log_likelihood_approximation two_valued_sampler)
    (_log_posterior_approximation two_valued_sampler) 1 (1 / 3) false 0
  = Ok (Array2 2 [[1; 1]; [1; 1]; [1; 1]; [1; 1]], [0; 0; 0; 0],
        [0; 0; 0; 0], 1, log_evidence_increment_spec (1 - 0) zeros4,
        generator_at 12).
Proof.
  destruct (square_stage_entry two_valued_sampler fixed_generator
              (_log_likelihood_approximation two_valued_sampler)
              (_log_posterior_approximation two_valued_sampler) (1 / 3) false)
    as [L ->].
  change (num_steps two_valued_sampler) with 1%Z.
  change (mkChain fixed_generator (repeat (1 / INR 4) 4) 1 L square_samples
            zeros4 zeros4 0 1 0) with (square_chain 0 L 0).
  cbn [for_each].
  rewrite square_turn_rejected by (cbn; lia). cbn [mbind result_bind].
  rewrite square_turn_rejected by (cbn; lia). cbn [mbind result_bind].
  rewrite square_turn_rejected by (cbn; lia). cbn [mbind result_bind].
  rewrite square_turn_rejected by (cbn; lia). cbn [mbind result_bind].
  reflexivity.
Qed.

(** *** Exceptions leave the loops of a stage *)

Lemma for_each_first_raise {K S : Type} (k : K) (ks : list K)
  (body : K -> S -> result S) (s : S) (e : exn) :
  body k s = Raise e -> for_each (k :: ks) body s = Raise e.
Proof. intros H. cbn [for_each]. rewrite H. reflexivity. Qed.

Lemma range_pos (n : Z) :
  (0 < n)%Z -> exists ks, range n = 0%Z :: ks.
Proof.
  intros Hn. unfold range.
  destruct (Z.to_nat n) as [|m] eqn:E; [lia|].
  cbn [seq map]. eauto.
Qed.

Lemma mh_steps_first_raise cholesky self beta new_beta llf ltdf
  target_acceptance_rate burn_in_steps num_steps_k k index c e :
  (0 < num_steps_k)%Z ->
  mh_step cholesky self beta new_beta llf ltdf target_acceptance_rate
    burn_in_steps k index c = Raise e ->
  mh_steps cholesky self beta new_beta llf ltdf target_acceptance_rate
    burn_in_steps num_steps_k k index c = Raise e.
Proof.
  intros Hn Hstep. unfold mh_steps.
  destruct (range_pos num_steps_k Hn) as [ks ->].
  apply for_each_first_raise, Hstep.
Qed.

Lemma stage_turn_steps_raise cholesky self beta new_beta llf ltdf
  target_acceptance_rate burn_in_steps num_samples do_thinning k
  num_steps_k c out index rng e :
  rng_choice (c_rng c) num_samples (c_weights c) = Ok (index, rng) ->
  mh_steps cholesky self beta new_beta llf ltdf target_acceptance_rate
    burn_in_steps
    (if decide (k >= burn_in_steps)%Z then
       if bool_decide (new_beta = 1) || do_thinning
       then (num_steps self * thinning_factor self)%Z
       else num_steps_k
     else num_steps_k)
    k index
    (mkChain rng (c_weights c) (c_scale_factor c) (c_cholesky c)
       (c_current_samples c) (c_current_log_likelihoods c)
       (c_current_log_target_density_values c) (c_num_accepts c)
       (c_n_adapt c) (c_step_count c))
  = Raise e ->
  stage_turn cholesky self beta new_beta llf ltdf target_acceptance_rate
    burn_in_steps num_samples do_thinning k (num_steps_k, c, out)
  = Raise e.
Proof.
  intros Hchoice Hsteps. unfold stage_turn. rewrite Hchoice.
  cbn [mbind result_bind]. rewrite Hsteps. reflexivity.
Qed.

(** ** C2: the size of the evaluator's value is checked on acceptance *)

(** C2, as the code has it.  In a step of the rejuvenation loop whose
    log-likelihood evaluator returns a value of size [n <> 1] for the
    proposed row: if the proposal is accepted (the comparison with the
    log-target density has a single truth value, and it is true), the step
    raises [ValueError] with the message
    ['Expected a single value, but got <n> values.']; if the proposal is
    rejected, the size is not checked and the step returns.  For [n = 2] the
    message is exactly ['Expected a single value, but got 2 values.']. *)
Theorem invalid_evaluator_checked_on_acceptance
  (cholesky : list (list R) -> option (list (list R))) (self : TMCMC)
  (beta new_beta : R) (llf : array2 -> list R)
  (ltdf : array2 -> list R -> list R) (target_acceptance_rate : R)
  (burn_in_steps k : Z) (index : nat) (c : chain)
  (num_accepts n_adapt : Z) (scale_factor : R) (L : list (list R))
  (row : list R) (current_value : R) :
  adapt_proposal cholesky self target_acceptance_rate (c_step_count c + 1) c
  = Ok (num_accepts, n_adapt, scale_factor, L) ->
  rows (c_current_samples c) !! index = Some row ->
  c_current_log_target_density_values c !! index = Some current_value ->
  let drawn := rng_standard_normal (c_rng c) (shape1 (c_current_samples c)) in
  let proposed_row := zip_with Rplus row (matvec L drawn.1) in
  let proposed_state := Array2 (length proposed_row) [proposed_row] in
  let ll := llf proposed_state in
  let ltd := ltdf proposed_state ll in
  let u := (rng_uniform drawn.2).1 in
  let accept :=
    truth_value (map (np_log_le u) (map (fun x => x - current_value) ltd)) in
  length ll <> 1%nat ->
  (accept = Ok true ->
   mh_step cholesky self beta new_beta llf ltdf target_acceptance_rate
     burn_in_steps k index c
   = Raise (ValueError (_generate_error_message (length ll)))) /\
  (accept = Ok false ->
   mh_step cholesky self beta new_beta llf ltdf target_acceptance_rate
     burn_in_steps k index c
   = Ok (mkChain (rng_uniform drawn.2).2 (c_weights c) scale_factor L
           (c_current_samples c) (c_current_log_likelihoods c)
           (c_current_log_target_density_values c) num_accepts n_adapt
           (c_step_count c + 1))) /\
  _generate_error_message 2 = "Expected a single value, but got 2 values.".
Proof.
  intros Hadapt Hrow Hcur drawn proposed_row proposed_state ll ltd u accept
    Hsize.
  split; [|split].
  - intros Hacc. eapply mh_step_accepted_invalid; eassumption.
  - intros Hrej. eapply mh_step_rejected; eassumption.
  - reflexivity.
Qed.

(** The scenario on the square samples: the evaluator returns two values,
    the first proposal is accepted, the stage raises the error. *)
Lemma invalid_evaluator_checked_on_acceptance_witness :
  _run_one_stage bisect cholesky_lower accepting_sampler 0 square_samples
    zeros4 zeros4 0 fixed_generator
    (_log_likelihood_approximation accepting_sampler)
    (_log_posterior_approximation accepting_sampler) 1 (1 / 3) false 0
  = Raise (ValueError "Expected a single value, but got 2 values.").
Proof.
  destruct (square_stage_entry accepting_sampler fixed_generator
              (_log_likelihood_approximation accepting_sampler)
              (_log_posterior_approximation accepting_sampler) (1 / 3) false)
    as [L ->].
  pose proof (uniform_weights_valid 3) as [Hpos Hsum].
  rewrite (for_each_first_raise _ _ _ _
             (ValueError "Expected a single value, but got 2 values."));
    [reflexivity|].
  eapply stage_turn_steps_raise.
  - cbn [c_rng c_weights]. apply rng_choice_ok;
      [discriminate | reflexivity | exact Hpos | exact Hsum].
  - apply mh_steps_first_raise.
    + destruct (decide _) as [_ | Hneg]; [|lia].
      rewrite bool_decide_eq_true_2 by reflexivity. reflexivity.
    + cbn [c_weights c_scale_factor c_cholesky c_current_samples
           c_current_log_likelihoods c_current_log_target_density_values
           c_num_accepts c_n_adapt c_step_count fixed_generator generator_at
           choice_at position].
      refine (proj1 (invalid_evaluator_checked_on_acceptance cholesky_lower
                accepting_sampler 0 1
                (_log_likelihood_approximation accepting_sampler)
                (_log_posterior_approximation accepting_sampler) (1 / 3) 0
                (Z.of_nat 0) _ _ 0%Z 1%Z 1 L [1; 1] 0 _ _ _ _) _).
      * apply adapt_proposal_skip; [discriminate|].
        cbn [c_step_count adapt_frequency accepting_sampler].
        rewrite Z.mod_small; lia.
      * reflexivity.
      * reflexivity.
      * cbn. discriminate.
      * cbn. rewrite half_accepts. reflexivity.
Defined.

(** The claim as stated fails: with the same evaluator of size 2, a stage
    whose proposals are all rejected raises nothing and returns its
    samples. *)
Lemma invalid_evaluator_unchecked_on_rejection :
  (length (_log_likelihood_approximation two_valued_sampler
             (Array2 2 [[1; 1]])) = 2%nat) /\
  _run_one_stage bisect cholesky_lower two_valued_sampler 0 square_samples
    zeros4 zeros4 0 fixed_generator
    (_log_likelihood_approximation two_valued_sampler)
    (_log_posterior_approximation two_valued_sampler) 1 (1 / 3) false 0
  = Ok (Array2 2 [[1; 1]; [1; 1]; [1; 1]; [1; 1]], [0; 0; 0; 0],
        [0; 0; 0; 0], 1, log_evidence_increment_spec (1 - 0) zeros4,
        generator_at 12) /\
  _run_one_stage bisect cholesky_lower two_valued_sampler 0 square_samples
    zeros4 zeros4 0 fixed_generator
    (_log_likelihood_approximation two_valued_sampler)
    (_log_posterior_approximation two_valued_sampler) 1 (1 / 3) false 0
  <> Raise (ValueError "Expected a single value, but got 2 values.").
Proof.
  split; [reflexivity|]. split; [apply square_stage_all_rejected|].
  rewrite square_stage_all_rejected. discriminate.
Qed.

(** * Further properties of the code *)

(** ** Weight kernel and evidence accumulator *)

Lemma normalised_exponentials_shift (d c : R) (l : list R) :
  l <> [] ->
  normalised_exponentials d (map (fun x => x + c) l)
  = normalised_exponentials d l.
Proof.
  intros Hl. unfold normalised_exponentials.
  pose proof (np_sum_map_exp_pos d l Hl) as HT.
  rewrite !map_map.
  assert (HS : np_sum (map (fun x => exp (d * (x + c))) l)
               = exp (d * c) * np_sum (map (fun y => exp (d * y)) l)).
  { rewrite <- (np_sum_map_scale (fun y => exp (d * y))).
    f_equal. apply map_ext. intros x. rewrite <- exp_plus. f_equal. lra. }
  rewrite HS. apply map_ext. intros x.
  replace (d * (x + c)) with (d * c + d * x) by lra. rewrite exp_plus.
  pose proof (exp_pos (d * c)). field. split; lra.
Qed.

(** X1.  The weight kernel computes the normalised exponentials of
    [beta_increment * l_i]: subtracting the maximum before exponentiation
    changes nothing in the result.  For every non-empty vector the call
    returns [exp (d * l_i) / sum_j exp (d * l_j)]. *)
Theorem calculate_weights_softmax (beta_increment : R)
  (log_likelihoods : list R) :
  log_likelihoods <> [] ->
  _calculate_weights beta_increment log_likelihoods
  = Ok (map (fun x =>
          exp (beta_increment * x)
          / np_sum (map (fun y => exp (beta_increment * y)) log_likelihoods))
        log_likelihoods).
Proof.
  intros Hl. rewrite calculate_weights_closed_form by exact Hl. reflexivity.
Qed.

Lemma calculate_weights_softmax_witness :
  _calculate_weights 2 [0; -1]
  = Ok [exp (2 * 0) / np_sum [exp (2 * 0); exp (2 * -1)];
        exp (2 * -1) / np_sum [exp (2 * 0); exp (2 * -1)]].
Proof.
  exact (calculate_weights_softmax 2 [0; -1] ltac:(discriminate)).
Defined.

(** X2.  The weights depend only on the differences between the
    log-likelihoods: adding the same constant to every entry leaves the
    outcome of the weight kernel unchanged, for every increment and every
    vector (the empty one raises on both sides). *)
Theorem calculate_weights_shift_invariant (beta_increment c : R)
  (log_likelihoods : list R) :
  _calculate_weights beta_increment (map (fun x => x + c) log_likelihoods)
  = _calculate_weights beta_increment log_likelihoods.
Proof.
  destruct (decide (log_likelihoods = [])) as [->|Hl]; [reflexivity|].
  rewrite !calculate_weights_closed_form;
    [|exact Hl|destruct log_likelihoods; [congruence|discriminate]].
  f_equal. apply normalised_exponentials_shift. exact Hl.
Qed.

(** X3.  With a non-negative increment the weights are ordered like the
    log-likelihoods: a sample whose log-likelihood is at least that of
    another gets at least its weight. *)
Theorem calculate_weights_monotone (beta_increment : R)
  (log_likelihoods w : list R) (i j : nat) (a b wi wj : R) :
  0 <= beta_increment ->
  _calculate_weights beta_increment log_likelihoods = Ok w ->
  log_likelihoods !! i = Some a -> log_likelihoods !! j = Some b ->
  w !! i = Some wi -> w !! j = Some wj ->
  a <= b -> wi <= wj.
Proof.
  intros Hd Hw Ha Hb Hwi Hwj Hab.
  assert (Hl : log_likelihoods <> []) by (intros ->; discriminate).
  rewrite calculate_weights_closed_form in Hw by exact Hl.
  injection Hw as <-. unfold normalised_exponentials in Hwi, Hwj.
  rewrite list_lookup_fmap, Ha in Hwi. rewrite list_lookup_fmap, Hb in Hwj.
  cbn in Hwi, Hwj. injection Hwi as <-. injection Hwj as <-.
  pose proof (np_sum_map_exp_pos beta_increment log_likelihoods Hl) as HT.
  apply Rmult_le_compat_r; [left; apply Rinv_0_lt_compat; exact HT|].
  apply exp_le. apply Rmult_le_compat_l; assumption.
Qed.

Lemma calculate_weights_monotone_witness :
  exists w wi wj,
    _calculate_weights 1 [-2; 0] = Ok w /\
    w !! 0%nat = Some wi /\ w !! 1%nat = Some wj /\ wi <= wj.
Proof.
  destruct (calculate_weights_total 1 [-2; 0] ltac:(discriminate)) as [w Hw].
  pose proof (weights_nonneg_sum _ _ _ Hw) as (_ & _ & Hlen).
  destruct w as [|wi [|wj [|? ?]]]; try discriminate Hlen.
  exists [wi; wj], wi, wj. repeat split; [exact Hw|].
  apply (calculate_weights_monotone 1 [-2; 0] [wi; wj] 0 1 (-2) 0 wi wj);
    [lra|exact Hw|reflexivity|reflexivity|reflexivity|reflexivity|lra].
Defined.

Lemma np_sum_map_const {A : Type} (c : R) (a : list A) :
  np_sum (map (fun _ => c) a) = INR (length a) * c.
Proof.
  induction a as [|x a IH]; [simpl; lra|].
  change (np_sum (map (fun _ => c) (x :: a)))
    with (c + np_sum (map (fun _ => c) a)).
  rewrite IH. change (length (x :: a)) with (S (length a)).
  rewrite S_INR. lra.
Qed.

Lemma map_const_repeat {A B : Type} (c : B) (a : list A) :
  map (fun _ => c) a = repeat c (length a).
Proof. induction a as [|x a IH]; simpl; [|rewrite IH]; reflexivity. Qed.

Lemma log_evidence_spec_bounds (d lo hi : R) (l : list R) :
  l <> [] -> 0 <= d ->
  (forall x, In x l -> lo <= x <= hi) ->
  d * lo <= log_evidence_increment_spec d l <= d * hi.
Proof.
  intros Hl Hd Hb. unfold log_evidence_increment_spec.
  pose proof (length_pos_INR l Hl) as HN.
  pose proof (np_sum_map_exp_pos d l Hl) as HT.
  destruct (np_sum_bounds (map (fun y => exp (d * y)) l)
              (exp (d * lo)) (exp (d * hi))) as [H1 H2].
  { intros y Hy. apply in_map_iff in Hy as (x & <- & Hx).
    destruct (Hb x Hx) as [? ?].
    split; apply exp_le; apply Rmult_le_compat_l; assumption. }
  rewrite length_map in H1, H2.
  pose proof (exp_pos (d * lo)) as Hlo. pose proof (exp_pos (d * hi)) as Hhi.
  split.
  - assert (H : ln (INR (length l) * exp (d * lo))
                <= ln (np_sum (map (fun y => exp (d * y)) l))).
    { destruct H1 as [H1|H1]; [left; apply ln_increasing; [nra|exact H1]|].
      rewrite H1. right. reflexivity. }
    rewrite ln_mult, ln_exp in H by assumption. lra.
  - assert (H : ln (np_sum (map (fun y => exp (d * y)) l))
                <= ln (INR (length l) * exp (d * hi))).
    { destruct H2 as [H2|H2]; [left; apply ln_increasing; assumption|].
      rewrite H2. right. reflexivity. }
    rewrite ln_mult, ln_exp in H by assumption. lra.
Qed.

(** X4.  A zero increment changes nothing: for every non-empty vector the
    weights at increment 0 are uniform, [1 / N] each, and the log-evidence
    increment is 0. *)
Theorem zero_increment_is_neutral (log_likelihoods : list R) :
  log_likelihoods <> [] ->
  _calculate_weights 0 log_likelihoods
  = Ok (repeat (1 / INR (length log_likelihoods)) (length log_likelihoods)) /\
  _calculate_log_evidence 0 log_likelihoods = Ok 0.
Proof.
  intros Hl.
  assert (HS : np_sum (map (fun y => exp (0 * y)) log_likelihoods)
               = INR (length log_likelihoods)).
  { rewrite <- (Rmult_1_r (INR (length log_likelihoods))).
    rewrite <- (np_sum_map_const 1 log_likelihoods). f_equal.
    apply map_ext. intros y. rewrite Rmult_0_l. apply exp_0. }
  split.
  - rewrite calculate_weights_closed_form by exact Hl. f_equal.
    unfold normalised_exponentials.
    rewrite <- map_const_repeat, HS.
    apply map_ext. intros x. rewrite Rmult_0_l, exp_0. reflexivity.
  - rewrite calculate_log_evidence_spec by exact Hl. f_equal.
    unfold log_evidence_increment_spec. rewrite HS. lra.
Qed.

Lemma zero_increment_is_neutral_witness :
  _calculate_weights 0 [3; -7] = Ok (repeat (1 / INR 2) 2) /\
    _calculate_log_evidence 0 [3; -7] = Ok 0.
Proof.
  exact (zero_increment_is_neutral [3; -7] ltac:(discriminate)).
Defined.

(** X5.  The log-evidence increment lies between the extreme
    log-likelihoods scaled by the increment: for a non-negative increment
    [d] and log-likelihoods all within [lo, hi], the call returns a value
    in [d * lo, d * hi].  With non-positive log-likelihoods the increment
    is never positive. *)
Theorem log_evidence_between_extremes (beta_increment lo hi : R)
  (log_likelihoods : list R) :
  log_likelihoods <> [] -> 0 <= beta_increment ->
  (forall x, In x log_likelihoods -> lo <= x <= hi) ->
  exists z,
    _calculate_log_evidence beta_increment log_likelihoods = Ok z /\
    beta_increment * lo <= z <= beta_increment * hi.
Proof.
  intros Hl Hd Hb. eexists. split.
  - apply calculate_log_evidence_spec. exact Hl.
  - apply log_evidence_spec_bounds; assumption.
Qed.

Lemma log_evidence_between_extremes_witness :
  exists z, _calculate_log_evidence (1 / 2) [-4; -1; -2] = Ok z /\
    1 / 2 * -4 <= z <= 1 / 2 * -1.
Proof.
  apply (log_evidence_between_extremes (1 / 2) (-4) (-1) [-4; -1; -2]);
    [discriminate|lra|].
  intros x [<-|[<-|[<-|[]]]]; lra.
Defined.

(** X6.  Adding a constant [c] to every log-likelihood adds
    [beta_increment * c] to the log-evidence increment: the evidence scales
    with the likelihood's normalising constant. *)
Theorem log_evidence_shift (beta_increment c : R) (log_likelihoods : list R) :
  log_likelihoods <> [] ->
  exists z,
    _calculate_log_evidence beta_increment log_likelihoods = Ok z /\
    _calculate_log_evidence beta_increment
      (map (fun x => x + c) log_likelihoods)
    = Ok (z + beta_increment * c).
Proof.
  intros Hl. eexists. split; [apply calculate_log_evidence_spec; exact Hl|].
  rewrite calculate_log_evidence_spec
    by (destruct log_likelihoods; [congruence|discriminate]).
  f_equal. unfold log_evidence_increment_spec.
  rewrite length_map, map_map.
  pose proof (np_sum_map_exp_pos beta_increment log_likelihoods Hl) as HT.
  assert (HS : np_sum (map (fun x => exp (beta_increment * (x + c)))
                         log_likelihoods)
               = exp (beta_increment * c)
                 * np_sum (map (fun y => exp (beta_increment * y))
                             log_likelihoods)).
  { rewrite <- (np_sum_map_scale (fun y => exp (beta_increment * y))).
    f_equal. apply map_ext. intros x. rewrite <- exp_plus. f_equal. lra. }
  rewrite HS, ln_mult, ln_exp by (try apply exp_pos; exact HT). lra.
Qed.

Lemma log_evidence_shift_witness :
  exists z,
    _calculate_log_evidence 1 [0; -1] = Ok z /\
    _calculate_log_evidence 1 (map (fun x => x + 5) [0; -1])
    = Ok (z + 1 * 5).
Proof.
  exact (log_evidence_shift 1 5 [0; -1] ltac:(discriminate)).
Defined.

(** ** Empty populations and large thresholds *)

(** X7.  An empty log-likelihood vector is refused with numpy's error for
    the maximum of an empty array by the weight kernel, by the temperature
    stepper (whatever the solver, which is not called) and by a stage,
    whose first call is the stepper: it raises before it touches the
    samples, the evaluators or the generator, and before it reaches the
    evidence accumulator. *)
Theorem empty_population_raises
  (root_scalar : (R -> result R) -> R -> R -> result RootResults)
  (cholesky : list (list R) -> option (list (list R)))
  (self : TMCMC) (fuel : nat) (samples : array2)
  (log_target_density_values : list R) (beta beta_increment threshold : R)
  (rng : Generator) (llf : array2 -> list R)
  (ltdf : array2 -> list R -> list R) (scale_factor target_acceptance_rate : R)
  (do_thinning : bool) (burn_in_steps : Z) :
  _calculate_weights beta_increment [] = Raise empty_reduction_error /\
  _increment_beta root_scalar fuel [] beta threshold
  = Raise empty_reduction_error /\
  _run_one_stage root_scalar cholesky self fuel samples []
    log_target_density_values beta rng llf ltdf scale_factor
    target_acceptance_rate do_thinning burn_in_steps
  = Raise empty_reduction_error.
Proof. repeat split. Qed.

Lemma np_sum_le_pointwise {A : Type} (f g : A -> R) (a : list A) :
  (forall x, In x a -> f x <= g x) ->
  np_sum (map f a) <= np_sum (map g a).
Proof.
  induction a as [|x a IH]; intros H; [simpl; lra|].
  change (f x + np_sum (map f a) <= g x + np_sum (map g a)).
  pose proof (H x (or_introl eq_refl)).
  assert (np_sum (map f a) <= np_sum (map g a))
    by (apply IH; intros y Hy; apply H; right; exact Hy).
  lra.
Qed.

Lemma np_sum_ge_entry (a : list R) (x : R) :
  Forall (fun y => 0 <= y) a -> In x a -> x <= np_sum a.
Proof.
  induction 1 as [|y a Hy Ha IH]; intros Hx; [destruct Hx|].
  change (x <= y + np_sum a).
  pose proof (np_sum_nonneg a Ha).
  destruct Hx as [<-|Hx]; [lra|]. specialize (IH Hx). lra.
Qed.

Lemma np_sum_sq_dev (a : list R) (m : R) :
  np_sum (map (fun x => (x - m) * (x - m)) a)
  = np_sum (map (fun x => x * x) a) - 2 * m * np_sum a
    + INR (length a) * m * m.
Proof.
  induction a as [|x a IH]; [simpl; lra|].
  change (np_sum (map (fun x => (x - m) * (x - m)) (x :: a)))
    with ((x - m) * (x - m) + np_sum (map (fun x => (x - m) * (x - m)) a)).
  change (np_sum (map (fun x => x * x) (x :: a)))
    with (x * x + np_sum (map (fun x => x * x) a)).
  change (np_sum (x :: a)) with (x + np_sum a).
  change (length (x :: a)) with (S (length a)).
  rewrite IH, S_INR. lra.
Qed.

(** The coefficient of variation of [N] normalised weights is at most
    [sqrt (N - 1)], the value reached when one weight carries everything. *)
Lemma cov_of_weights_le (w : list R) :
  w <> [] -> Forall (fun x => 0 <= x) w -> np_sum w = 1 ->
  cov_of_weights w <= sqrt (INR (length w) - 1).
Proof.
  intros Hw Hpos Hsum.
  pose proof (length_pos_INR w Hw) as HN.
  assert (HN1 : 1 <= INR (length w)).
  { destruct w as [|x w]; [congruence|].
    change (length (x :: w)) with (S (length w)). rewrite S_INR.
    pose proof (pos_INR (length w)). lra. }
  unfold cov_of_weights, np_nanstd, np_nanmean.
  rewrite (np_mean_weights w Hw Hsum). unfold np_std.
  rewrite (np_mean_weights w Hw Hsum). unfold np_mean.
  rewrite length_map, np_sum_sq_dev, Hsum.
  set (N := INR (length w)) in *.
  assert (Hsq : np_sum (map (fun x => x * x) w) <= 1).
  { apply Rle_trans with (np_sum (map (fun x => x) w));
      [|rewrite map_id, Hsum; lra].
    apply np_sum_le_pointwise. intros x Hx.
    pose proof (np_sum_ge_entry w x Hpos Hx) as Hle. rewrite Hsum in Hle.
    assert (0 <= x) by (rewrite Forall_forall in Hpos; apply Hpos;
                        apply list_elem_of_In; exact Hx).
    nra. }
  set (Q := np_sum (map (fun x => x * x) w)) in *. clearbody Q.
  assert (Hle : (Q - 2 * (1 / N) * 1 + N * (1 / N) * (1 / N)) / N
                <= (N - 1) / (N * N)).
  { replace (Q - 2 * (1 / N) * 1 + N * (1 / N) * (1 / N))
      with (Q - 1 / N) by (field; lra).
    replace ((N - 1) / (N * N)) with ((1 - 1 / N) / N) by (field; lra).
    apply Rmult_le_compat_r; [left; apply Rinv_0_lt_compat; exact HN|lra]. }
  apply sqrt_le_1_alt in Hle.
  rewrite (sqrt_div_alt (N - 1) (N * N)) in Hle by nra.
  rewrite sqrt_square in Hle by lra.
  replace (sqrt (N - 1)) with (sqrt (N - 1) / N / (1 / N)) by (field; lra).
  apply Rmult_le_compat_r; [|exact Hle].
  left. apply Rinv_0_lt_compat. apply Rdiv_lt_0_compat; lra.
Qed.

Lemma cov_at_le (log_likelihoods : list R) (beta_increment : R) :
  log_likelihoods <> [] ->
  cov_at log_likelihoods beta_increment
  <= sqrt (INR (length log_likelihoods) - 1).
Proof.
  intros Hl. unfold cov_at.
  pose proof (weights_at_spec log_likelihoods beta_increment Hl) as Hw.
  destruct (weights_nonneg_sum _ _ _ Hw) as (Hpos & Hsum & Hlen).
  rewrite <- Hlen. apply cov_of_weights_le.
  - intros E. rewrite E in Hlen. destruct log_likelihoods; [congruence|].
    discriminate Hlen.
  - eapply Forall_impl; [exact Hpos|]. intros x Hx. simpl in Hx. lra.
  - exact Hsum.
Qed.

(** X8.  A threshold above [sqrt (N - 1)] switches the tempering off: the
    coefficient of variation of [N] normalised weights never exceeds
    [sqrt (N - 1)], so for such a threshold the stepper returns 1 from any
    beta, with any solver (which it never calls). *)
Theorem increment_beta_large_threshold
  (root_scalar : (R -> result R) -> R -> R -> result RootResults)
  (fuel : nat) (log_likelihoods : list R) (beta threshold_cov : R) :
  log_likelihoods <> [] ->
  sqrt (INR (length log_likelihoods) - 1) < threshold_cov ->
  (forall beta_increment w,
     _calculate_weights beta_increment log_likelihoods = Ok w ->
     cov_of_weights w < threshold_cov) /\
  _increment_beta root_scalar fuel log_likelihoods beta threshold_cov = Ok 1.
Proof.
  intros Hl Ht. split.
  - intros d w Hw.
    pose proof (cov_at_le log_likelihoods d Hl) as H.
    unfold cov_at, weights_at in H. rewrite Hw in H. lra.
  - unfold _increment_beta. rewrite !cov_objective_total by exact Hl.
    simpl_result.
    pose proof (cov_at_le log_likelihoods 0 Hl).
    pose proof (cov_at_le log_likelihoods (1 - beta) Hl).
    unfold np_sign.
    destruct (decide (cov_at log_likelihoods 0 - threshold_cov < 0));
      [|lra].
    destruct (decide (cov_at log_likelihoods (1 - beta) - threshold_cov < 0));
      [|lra].
    destruct (decide (-1 = -1)); [reflexivity|congruence].
Qed.

Lemma increment_beta_large_threshold_witness :
  _increment_beta bisect 0 [0; -100] 0 2 = Ok 1.
Proof.
  apply (increment_beta_large_threshold bisect 0 [0; -100] 0 2);
    [discriminate|].
  replace (INR (length [0; -100]) - 1) with 1 by (simpl; lra).
  rewrite sqrt_1. lra.
Defined.

(** ** The full step and the fallback of the stepper *)

(** X9.  When the whole remaining step is admissible the stepper takes
    it: for a positive threshold, if the weights at the increment
    [1 - beta] have a coefficient of variation below the threshold, the
    stepper returns 1 without calling the solver. *)
Theorem increment_beta_full_step
  (root_scalar : (R -> result R) -> R -> R -> result RootResults)
  (fuel : nat) (log_likelihoods w : list R) (beta threshold_cov : R) :
  0 < threshold_cov ->
  _calculate_weights (1 - beta) log_likelihoods = Ok w ->
  cov_of_weights w < threshold_cov ->
  _increment_beta root_scalar fuel log_likelihoods beta threshold_cov = Ok 1.
Proof.
  intros Ht Hw Hcov.
  assert (Hl : log_likelihoods <> []) by (intros ->; discriminate Hw).
  unfold _increment_beta. rewrite !cov_objective_total by exact Hl.
  simpl_result. rewrite (cov_at_zero _ Hl).
  unfold cov_at, weights_at. rewrite Hw.
  unfold np_sign.
  destruct (decide (0 - threshold_cov < 0)); [|lra].
  destruct (decide (cov_of_weights w - threshold_cov < 0)); [|lra].
  destruct (decide (-1 = -1)); [reflexivity|congruence].
Qed.

Lemma increment_beta_full_step_witness :
  _increment_beta bisect 0 [0; -1] (1 / 2) 2 = Ok 1.
Proof.
  destruct (calculate_weights_total (1 - 1 / 2) [0; -1] ltac:(discriminate))
    as [w Hw].
  apply (increment_beta_full_step bisect 0 [0; -1] w (1 / 2) 2);
    [lra|exact Hw|].
  pose proof (cov_at_le [0; -1] (1 - 1 / 2) ltac:(discriminate)) as H.
  unfold cov_at, weights_at in H. rewrite Hw in H.
  replace (INR (length [0; -1]) - 1) with 1 in H by (simpl; lra).
  rewrite sqrt_1 in H. lra.
Defined.

Lemma shrink_beta_increment_post (log_likelihoods : list R)
  (threshold_cov : R) :
  log_likelihoods <> [] ->
  forall (fuel : nat) (d b : R),
    shrink_beta_increment fuel log_likelihoods threshold_cov d
      (cov_at log_likelihoods d) = Ok b ->
    exists k,
      (k <= fuel)%nat /\ b = 0.99 ^ k * d /\
      ~ cov_at log_likelihoods (0.99 ^ k * d) > threshold_cov /\
      forall j, (j < k)%nat ->
        cov_at log_likelihoods (0.99 ^ j * d) > threshold_cov.
Proof.
  intros Hne. induction fuel as [|fuel IH]; intros d b H.
  - cbn [shrink_beta_increment] in H.
    destruct (decide (cov_at log_likelihoods d > threshold_cov)) as [|Hn];
      [discriminate H|].
    injection H as <-. exists 0%nat. rewrite pow_O, Rmult_1_l.
    repeat split; [lia|exact Hn|intros j Hj; lia].
  - cbn [shrink_beta_increment] in H.
    destruct (decide (cov_at log_likelihoods d > threshold_cov)) as [Hgt|Hn].
    + rewrite (weights_at_spec _ _ Hne) in H. cbn [mbind result_bind] in H.
      apply IH in H as (k & Hk & -> & Hstop & Hbefore).
      exists (S k).
      replace (0.99 ^ S k * d) with (0.99 ^ k * (0.99 * d)) by (simpl; ring).
      repeat split; [lia|exact Hstop|].
      intros [|j] Hj; [rewrite pow_O, Rmult_1_l; exact Hgt|].
      replace (0.99 ^ S j * d) with (0.99 ^ j * (0.99 * d)) by (simpl; ring).
      apply Hbefore. lia.
    + injection H as <-. exists 0%nat. rewrite pow_O, Rmult_1_l.
      repeat split; [lia|exact Hn|intros j Hj; lia].
Qed.

(** X10.  The fallback of the stepper: when the end values of the
    objective differ in sign and the solver reports no convergence, the
    value the stepper returns is [min(beta + 0.99^k * (1 - beta), 1)] for
    the first [k] at which the coefficient of variation of the weights at
    the increment [0.99^k * (1 - beta)] is not above the threshold. *)
Theorem increment_beta_fallback
  (root_scalar : (R -> result R) -> R -> R -> result RootResults)
  (fuel : nat) (log_likelihoods : list R) (beta threshold_cov b : R)
  (res : RootResults) :
  log_likelihoods <> [] ->
  np_sign (cov_at log_likelihoods 0 - threshold_cov)
  <> np_sign (cov_at log_likelihoods (1 - beta) - threshold_cov) ->
  root_scalar (cov_objective log_likelihoods threshold_cov) 0 (1 - beta)
  = Ok res ->
  converged res = false ->
  _increment_beta root_scalar fuel log_likelihoods beta threshold_cov
  = Ok b ->
  exists k,
    (k <= fuel)%nat /\
    b = py_min (beta + 0.99 ^ k * (1 - beta)) 1 /\
    ~ cov_at log_likelihoods (0.99 ^ k * (1 - beta)) > threshold_cov /\
    forall j, (j < k)%nat ->
      cov_at log_likelihoods (0.99 ^ j * (1 - beta)) > threshold_cov.
Proof.
  intros Hl Hsign Hres Hconv H.
  unfold _increment_beta in H. rewrite !cov_objective_total in H by exact Hl.
  cbn [mbind result_bind] in H.
  destruct (decide (np_sign (cov_at log_likelihoods 0 - threshold_cov)
                    = np_sign (cov_at log_likelihoods (1 - beta)
                               - threshold_cov))); [contradiction|].
  rewrite Hres in H. cbn [mbind result_bind] in H. rewrite Hconv in H.
  rewrite (weights_at_spec _ _ Hl) in H. cbn [mbind result_bind] in H.
  change (cov_of_weights (weights_at log_likelihoods (1 - beta)))
    with (cov_at log_likelihoods (1 - beta)) in H.
  destruct (shrink_beta_increment fuel log_likelihoods threshold_cov
              (1 - beta) (cov_at log_likelihoods (1 - beta)))
    as [d| |] eqn:E; try discriminate H.
  cbn [mbind result_bind mret result_ret] in H. injection H as <-.
  apply (shrink_beta_increment_post _ _ Hl) in E
    as (k & Hk & -> & Hstop & Hbefore).
  exists k. repeat split; assumption.
Qed.

Lemma unconverged_solver_bracketing : bracketing_solver unconverged_solver.
Proof.
  intros f g a b _ _ _. eexists. split; [reflexivity|]. discriminate.
Qed.

Lemma increment_beta_fallback_witness :
  exists fuel b k,
    _increment_beta unconverged_solver fuel peaked_log_likelihoods 0 1
    = Ok b /\
    (k <= fuel)%nat /\
    b = py_min (0 + 0.99 ^ k * (1 - 0)) 1 /\
    ~ cov_at peaked_log_likelihoods (0.99 ^ k * (1 - 0)) > 1 /\
    forall j, (j < k)%nat ->
      cov_at peaked_log_likelihoods (0.99 ^ j * (1 - 0)) > 1.
Proof.
  assert (Hl : peaked_log_likelihoods <> []) by discriminate.
  destruct (increment_beta_total unconverged_solver peaked_log_likelihoods
              0 1 unconverged_solver_bracketing Hl ltac:(lra) ltac:(lra))
    as [n Hn].
  destruct (Hn n (Nat.le_refl n)) as [b Hb].
  destruct (increment_beta_fallback unconverged_solver n
              peaked_log_likelihoods 0 1 b (mkRootResults 0 false) Hl)
    as (k & Hk); [|reflexivity|reflexivity|exact Hb|].
  - rewrite (cov_at_zero _ Hl).
    pose proof cov_at_peaked as Hp.
    replace (1 - 0) with 1 by lra.
    unfold np_sign.
    destruct (decide (0 - 1 < 0)); [|lra].
    destruct (decide (cov_at peaked_log_likelihoods 1 - 1 < 0)); [lra|].
    destruct (decide (cov_at peaked_log_likelihoods 1 - 1 = 0)); lra.
  - exists n, b, k. split; [exact Hb|exact Hk].
Defined.

(** ** The warm-start scan *)

Lemma warm_start_scan_inv
  (approx : array2 -> list R)
  (previous_results : gmap Z array2 * gmap Z R * gmap Z (list R))
  (threshold_cov : R) (stage_nums : list Z) (s : Z) :
  warm_start_scan approx previous_results threshold_cov stage_nums = Ok s ->
  (exists ks1 ks2 c,
     stage_nums = ks1 ++ s :: ks2 /\
     warm_start_cov approx previous_results s = Ok c /\ c < threshold_cov /\
     forall k, k ∈ ks1 ->
       exists c', warm_start_cov approx previous_results k = Ok c' /\
                  ~ c' < threshold_cov) \/
  (s = 0%Z /\
   forall k, k ∈ stage_nums ->
     exists c', warm_start_cov approx previous_results k = Ok c' /\
                ~ c' < threshold_cov).
Proof.
  induction stage_nums as [|k ks IH]; intros H.
  - right. injection H as <-. split; [reflexivity|].
    intros k Hk. inversion Hk.
  - cbn [warm_start_scan] in H.
    destruct (warm_start_cov approx previous_results k) as [c| |] eqn:Hc;
      try discriminate H.
    cbn [mbind result_bind] in H.
    destruct (decide (c < threshold_cov)) as [Hlt|Hge].
    + injection H as <-. left. exists [], ks, c.
      repeat split; [exact Hc|exact Hlt|]. intros k' Hk'. inversion Hk'.
    + destruct (IH H) as [(ks1 & ks2 & c' & -> & Hs & Hlt & Hall)|[-> Hall]].
      * left. exists (k :: ks1), ks2, c'. repeat split; [exact Hs|exact Hlt|].
        intros k' Hk'. apply elem_of_cons in Hk' as [->|Hk'];
          [exists c; split; assumption|apply Hall; exact Hk'].
      * right. split; [reflexivity|].
        intros k' Hk'. apply elem_of_cons in Hk' as [->|Hk'];
          [exists c; split; assumption|apply Hall; exact Hk'].
Qed.

Lemma StronglySorted_app_r {A : Type} (R : A -> A -> Prop) (l1 l2 : list A) :
  StronglySorted R (l1 ++ l2) -> StronglySorted R l2.
Proof.
  induction l1 as [|x l1 IH]; [exact (fun H => H)|].
  intros H. apply StronglySorted_inv in H as [H _]. exact (IH H).
Qed.

Lemma sorted_reverse_elem (keys : list Z) (k : Z) :
  k ∈ sorted_reverse keys <-> k ∈ keys.
Proof.
  unfold sorted_reverse. rewrite (merge_sort_Permutation descending keys).
  reflexivity.
Qed.

Lemma sorted_reverse_split (keys ks1 ks2 : list Z) (s k : Z) :
  sorted_reverse keys = ks1 ++ s :: ks2 ->
  k ∈ keys -> (s < k)%Z -> k ∈ ks1.
Proof.
  intros E Hk Hlt.
  pose proof (@StronglySorted_merge_sort _ descending _
                descending_transitive descending_total keys) as Hsorted.
  fold (sorted_reverse keys) in Hsorted.
  apply sorted_reverse_elem in Hk. rewrite E in Hk, Hsorted.
  apply elem_of_app in Hk as [Hk|Hk]; [exact Hk|].
  apply StronglySorted_app_r in Hsorted.
  apply StronglySorted_inv in Hsorted as [_ Hall].
  apply elem_of_cons in Hk as [->|Hk]; [lia|].
  rewrite Forall_forall in Hall. specialize (Hall k Hk).
  unfold descending in Hall. lia.
Qed.

Lemma calculate_warm_start_stage_inv
  (approx : array2 -> list R)
  (samples : gmap Z array2) (betas : gmap Z R) (lls : gmap Z (list R))
  (threshold_cov : R) (s : Z) :
  calculate_warm_start_stage approx (samples, betas, lls) threshold_cov
  = Ok s ->
  (s ∈ dom samples /\
   (exists c, warm_start_cov approx (samples, betas, lls) s = Ok c /\
              c < threshold_cov) /\
   forall k, k ∈ dom samples -> (s < k)%Z ->
     exists c', warm_start_cov approx (samples, betas, lls) k = Ok c' /\
                ~ c' < threshold_cov) \/
  (s = 0%Z /\
   forall k, k ∈ dom samples ->
     exists c', warm_start_cov approx (samples, betas, lls) k = Ok c' /\
                ~ c' < threshold_cov).
Proof.
  unfold calculate_warm_start_stage. cbn [fst snd]. intros H.
  apply warm_start_scan_inv in H
    as [(ks1 & ks2 & c & E & Hs & Hlt & Hall)|[-> Hall]].
  - left. split; [|split].
    + apply elem_of_elements, sorted_reverse_elem. rewrite E.
      apply elem_of_app. right. left.
    + exists c. split; assumption.
    + intros k Hk Hsk. apply Hall.
      apply (sorted_reverse_split _ _ _ _ _ E); [|exact Hsk].
      apply elem_of_elements. exact Hk.
  - right. split; [reflexivity|]. intros k Hk. apply Hall.
    apply sorted_reverse_elem, elem_of_elements. exact Hk.
Qed.

(** X11.  The warm-start selector returns the highest admissible stage:
    when it returns [s], either [s] is a stored stage whose re-weighted
    coefficient of variation is below the threshold while every stored
    stage above [s] was evaluated and is not below it, or [s = 0] and no
    stored stage is below the threshold. *)
Theorem warm_start_returns_highest_admissible
  (approx : array2 -> list R)
  (samples : gmap Z array2) (betas : gmap Z R) (lls : gmap Z (list R))
  (threshold_cov : R) (s : Z) :
  calculate_warm_start_stage approx (samples, betas, lls) threshold_cov
  = Ok s ->
  (s ∈ dom samples /\
   (exists c, warm_start_cov approx (samples, betas, lls) s = Ok c /\
              c < threshold_cov) /\
   forall k, k ∈ dom samples -> (s < k)%Z ->
     exists c', warm_start_cov approx (samples, betas, lls) k = Ok c' /\
                ~ c' < threshold_cov) \/
  (s = 0%Z /\
   forall k, k ∈ dom samples ->
     exists c', warm_start_cov approx (samples, betas, lls) k = Ok c' /\
                ~ c' < threshold_cov).
Proof. apply calculate_warm_start_stage_inv. Qed.

Lemma warm_start_top_stage
  (approx : array2 -> list R)
  (samples : gmap Z array2) (betas : gmap Z R) (lls : gmap Z (list R))
  (threshold_cov : R) (s : Z) :
  s ∈ dom samples ->
  (forall k, k ∈ dom samples -> (k <= s)%Z) ->
  match warm_start_cov approx (samples, betas, lls) s with
  | Ok c =>
      c < threshold_cov ->
      calculate_warm_start_stage approx (samples, betas, lls) threshold_cov
      = Ok s
  | Raise e =>
      calculate_warm_start_stage approx (samples, betas, lls) threshold_cov
      = Raise e
  | Diverge => True
  end.
Proof.
  intros Hs Hmax.
  assert (E : exists rest,
             sorted_reverse (elements (dom samples)) = s :: rest).
  { apply sorted_reverse_head.
    - apply elem_of_elements. exact Hs.
    - intros k Hk. apply Hmax. apply elem_of_elements in Hk. exact Hk. }
  destruct E as [rest E].
  unfold calculate_warm_start_stage. cbn [fst snd]. rewrite E.
  cbn [warm_start_scan].
  destruct (warm_start_cov approx (samples, betas, lls) s) as [c| |];
    cbn [mbind result_bind]; [|reflexivity|exact I].
  intros Hc. destruct (decide (c < threshold_cov)); [reflexivity|contradiction].
Qed.

Lemma stored_top_stage (k : Z) : k ∈ dom stored_samples -> (k <= 1)%Z.
Proof.
  unfold stored_samples. rewrite dom_insert_L, dom_singleton_L.
  intros Hk.
  apply elem_of_union in Hk as [Hk|Hk]; apply elem_of_singleton in Hk; lia.
Qed.

Lemma stored_top_stage_cov :
  warm_start_cov (fun _ => [-1; -2])
    (stored_samples, stored_betas, stored_log_likelihoods) 1%Z
  = Ok 0.
Proof.
  unfold warm_start_cov, lookup_key. cbn [fst snd].
  change (stored_samples !! 1%Z) with (Some (Array2 1 [[2]; [3]])).
  change (stored_log_likelihoods !! 1%Z) with (Some [-1; -2]).
  change (stored_betas !! 1%Z) with (Some 1).
  cbn [mbind result_bind].
  destruct (calculate_weights_warm_start_same 1 [-1; -2])
    as (w & -> & Hcov); [discriminate|].
  simpl_result. rewrite Hcov. reflexivity.
Qed.

Lemma stored_results_selection :
  calculate_warm_start_stage (fun _ => [-1; -2])
    (stored_samples, stored_betas, stored_log_likelihoods) 1
  = Ok 1%Z.
Proof.
  pose proof (warm_start_top_stage (fun _ => [-1; -2]) stored_samples
                stored_betas stored_log_likelihoods 1 1%Z) as H.
  rewrite stored_top_stage_cov in H. apply H; [|exact stored_top_stage|lra].
  apply elem_of_dom. exists (Array2 1 [[2]; [3]]). reflexivity.
Qed.

Lemma warm_start_returns_highest_admissible_witness :
  (1%Z ∈ dom stored_samples /\
   (exists c,
      warm_start_cov (fun _ => [-1; -2])
        (stored_samples, stored_betas, stored_log_likelihoods) 1%Z = Ok c /\
      c < 1) /\
   forall k, k ∈ dom stored_samples -> (1 < k)%Z ->
     exists c',
       warm_start_cov (fun _ => [-1; -2])
         (stored_samples, stored_betas, stored_log_likelihoods) k = Ok c' /\
       ~ c' < 1) \/
  (1%Z = 0%Z /\
   forall k, k ∈ dom stored_samples ->
     exists c',
       warm_start_cov (fun _ => [-1; -2])
         (stored_samples, stored_betas, stored_log_likelihoods) k = Ok c' /\
       ~ c' < 1).
Proof.
  exact (warm_start_returns_highest_admissible (fun _ => [-1; -2])
           stored_samples stored_betas stored_log_likelihoods 1 1%Z
           stored_results_selection).
Defined.

(** X12.  Missing entries in the stored results.  With no stored stage the
    selector returns 0.  Otherwise it looks at the highest stored stage
    first, and raises [KeyError] for that stage when its log-likelihoods
    or its beta are missing, whatever the lower stages hold. *)
Theorem warm_start_missing_entries
  (approx : array2 -> list R)
  (samples : gmap Z array2) (betas : gmap Z R) (lls : gmap Z (list R))
  (threshold_cov : R) :
  calculate_warm_start_stage approx (∅, betas, lls) threshold_cov = Ok 0%Z /\
  forall s,
    s ∈ dom samples ->
    (forall k, k ∈ dom samples -> (k <= s)%Z) ->
    lls !! s = None \/ betas !! s = None ->
    calculate_warm_start_stage approx (samples, betas, lls) threshold_cov
    = Raise (KeyError s).
Proof.
  split.
  - unfold calculate_warm_start_stage. cbn [fst snd].
    rewrite dom_empty_L, elements_empty. reflexivity.
  - intros s Hs Hmax Hmiss.
    pose proof (warm_start_top_stage approx samples betas lls threshold_cov
                  s Hs Hmax) as H.
    assert (E : warm_start_cov approx (samples, betas, lls) s
                = Raise (KeyError s)).
    { apply elem_of_dom in Hs as [smp Hsmp].
      unfold warm_start_cov, lookup_key. cbn [fst snd]. rewrite Hsmp.
      cbn [mbind result_bind].
      destruct (lls !! s) as [l|] eqn:El; [|reflexivity].
      destruct Hmiss as [Hm|Hm]; [discriminate Hm|].
      rewrite Hm. reflexivity. }
    rewrite E in H. exact H.
Qed.

Lemma warm_start_missing_entries_witness :
  calculate_warm_start_stage (fun _ => [-1; -2])
    (stored_samples, stored_betas, ∅) 1
  = Raise (KeyError 1%Z).
Proof.
  apply (proj2 (warm_start_missing_entries (fun _ => [-1; -2])
                  stored_samples stored_betas ∅ 1) 1%Z).
  - apply elem_of_dom. exists (Array2 1 [[2]; [3]]). reflexivity.
  - exact stored_top_stage.
  - left. apply lookup_empty.
Defined.

Lemma warm_start_cov_zero_beta
  (approx : array2 -> list R)
  (samples : gmap Z array2) (betas : gmap Z R) (lls : gmap Z (list R))
  (k : Z) (smp : array2) (l : list R) :
  samples !! k = Some smp -> betas !! k = Some 0 -> lls !! k = Some l ->
  l <> [] -> length (approx smp) = length l ->
  warm_start_cov approx (samples, betas, lls) k = Ok 0.
Proof.
  intros Hsmp Hb Hl Hne Hlen.
  unfold warm_start_cov, lookup_key. cbn [fst snd].
  rewrite Hsmp, Hl, Hb. cbn [mbind result_bind].
  rewrite calculate_weights_warm_start_unfold. unfold np_subtract.
  destruct (decide (length (approx smp) = length l)) as [_|]; [|contradiction].
  cbn [mbind result_bind].
  assert (Hd : zip_with Rminus (approx smp) l <> []).
  { destruct (approx smp), l; try discriminate; congruence. }
  rewrite (weights_at_spec _ 0 Hd). simpl_result. f_equal.
  apply (cov_at_zero _ Hd).
Qed.

(** X13.  A stored stage with beta 0 is always admissible: re-weighting
    with a zero exponent gives uniform weights.  So when the stored results
    hold such a stage [k] with as many log-likelihoods as the new
    approximation returns, and the threshold is positive, the selector
    never returns a stage below [k]. *)
Theorem warm_start_not_below_prior_stage
  (approx : array2 -> list R)
  (samples : gmap Z array2) (betas : gmap Z R) (lls : gmap Z (list R))
  (threshold_cov : R) (k s : Z) (smp : array2) (l : list R) :
  0 < threshold_cov ->
  samples !! k = Some smp -> betas !! k = Some 0 -> lls !! k = Some l ->
  l <> [] -> length (approx smp) = length l ->
  calculate_warm_start_stage approx (samples, betas, lls) threshold_cov
  = Ok s ->
  warm_start_cov approx (samples, betas, lls) k = Ok 0 /\
  s ∈ dom samples /\ (k <= s)%Z.
Proof.
  intros Ht Hsmp Hb Hl Hne Hlen Hs.
  pose proof (warm_start_cov_zero_beta approx samples betas lls k smp l
                Hsmp Hb Hl Hne Hlen) as Hk.
  assert (Hdom : k ∈ dom samples) by (apply elem_of_dom; eauto).
  split; [exact Hk|].
  apply calculate_warm_start_stage_inv in Hs
    as [(Hin & _ & Habove)|[_ Hnone]].
  - split; [exact Hin|].
    destruct (Z_le_gt_dec k s) as [Hle|Hgt]; [exact Hle|].
    destruct (Habove k Hdom ltac:(lia)) as (c' & Hc' & Hn).
    rewrite Hk in Hc'. injection Hc' as <-. contradiction.
  - destruct (Hnone k Hdom) as (c' & Hc' & Hn).
    rewrite Hk in Hc'. injection Hc' as <-. contradiction.
Qed.

Lemma warm_start_not_below_prior_stage_witness :
  warm_start_cov (fun _ => [-1; -2])
    (stored_samples, stored_betas, stored_log_likelihoods) 0%Z = Ok 0 /\
  1%Z ∈ dom stored_samples /\ (0 <= 1)%Z.
Proof.
  apply (warm_start_not_below_prior_stage (fun _ => [-1; -2])
           stored_samples stored_betas stored_log_likelihoods 1 0%Z 1%Z
           (Array2 1 [[0]; [1]]) [0; -1]);
    [lra|reflexivity|reflexivity|reflexivity|discriminate|reflexivity|].
  exact stored_results_selection.
Defined.

Lemma zip_with_Rminus_offset (c : R) (l : list R) :
  zip_with Rminus (map (fun x => x + c) l) l = repeat c (length l).
Proof.
  induction l as [|x l IH]; [reflexivity|].
  cbn [map zip_with length repeat]. rewrite IH. f_equal. lra.
Qed.

(** X14.  The warm-start weights see only the change of the
    log-likelihoods up to a constant: when the new approximation differs
    from the stored log-likelihoods by the same offset at every sample,
    the weights are uniform for every beta, their coefficient of variation
    is 0, and the highest stored stage with this property is the one
    selected. *)
Theorem warm_start_constant_offset
  (approx : array2 -> list R)
  (samples : gmap Z array2) (betas : gmap Z R) (lls : gmap Z (list R))
  (threshold_cov : R) (s : Z) (smp : array2) (l : list R) (b c : R) :
  0 < threshold_cov ->
  samples !! s = Some smp ->
  (forall k, k ∈ dom samples -> (k <= s)%Z) ->
  betas !! s = Some b -> lls !! s = Some l -> l <> [] ->
  approx smp = map (fun x => x + c) l ->
  _calculate_weights_warm_start b (approx smp) l
  = Ok (repeat (1 / INR (length l)) (length l)) /\
  calculate_warm_start_stage approx (samples, betas, lls) threshold_cov
  = Ok s.
Proof.
  intros Ht Hsmp Hmax Hb Hl Hne Happrox.
  assert (Hw : _calculate_weights_warm_start b (approx smp) l
               = Ok (repeat (1 / INR (length l)) (length l))).
  { rewrite calculate_weights_warm_start_unfold, Happrox. unfold np_subtract.
    destruct (decide (length (map (fun x => x + c) l) = length l)) as [_|Hn];
      [|rewrite length_map in Hn; congruence].
    cbn [mbind result_bind]. rewrite zip_with_Rminus_offset.
    destruct l as [|x l]; [congruence|]. cbn [length].
    apply calculate_weights_repeat. }
  split; [exact Hw|].
  pose proof (warm_start_top_stage approx samples betas lls threshold_cov s)
    as H.
  assert (E : warm_start_cov approx (samples, betas, lls) s = Ok 0).
  { unfold warm_start_cov, lookup_key. cbn [fst snd].
    rewrite Hsmp, Hl, Hb. cbn [mbind result_bind]. rewrite Hw.
    simpl_result. f_equal.
    destruct l as [|x l]; [congruence|]. cbn [length].
    apply cov_of_weights_repeat. }
  rewrite E in H. apply H; [|exact Hmax|exact Ht].
  apply elem_of_dom. eauto.
Qed.

Lemma warm_start_constant_offset_witness :
  _calculate_weights_warm_start 1 [2; 1] [-1; -2]
  = Ok (repeat (1 / INR 2) 2) /\
  calculate_warm_start_stage (fun _ => [2; 1])
    (stored_samples, stored_betas, stored_log_likelihoods) 1
  = Ok 1%Z.
Proof.
  apply (warm_start_constant_offset (fun _ => [2; 1]) stored_samples
           stored_betas stored_log_likelihoods 1 1%Z (Array2 1 [[2]; [3]])
           [-1; -2] 1 3);
    [lra|reflexivity|exact stored_top_stage|reflexivity|reflexivity
    |discriminate|].
  cbn [map]. repeat f_equal; lra.
Defined.

(** ** The proposal covariance *)

Lemma dot_weighted_comm (a b w : list R) :
  dot a (zip_with Rmult b w) = dot b (zip_with Rmult a w).
Proof.
  revert b w. induction a as [|x a IH]; intros [|y b] [|z w];
    try reflexivity.
  cbn [zip_with]. rewrite !dot_cons, IH. ring.
Qed.

Lemma gram_lookup_symmetric {A : Type} (g : A -> A -> R) (X : list A) :
  (forall a b, g a b = g b a) ->
  forall i j,
    (map (fun a => map (g a) X) X !! i) ≫= (.!! j)
    = (map (fun a => map (g a) X) X !! j) ≫= (.!! i).
Proof.
  intros Hg i j. rewrite !list_lookup_fmap.
  destruct (X !! i) as [a|] eqn:Ei, (X !! j) as [b|] eqn:Ej; cbn;
    rewrite ?list_lookup_fmap, ?Ei, ?Ej; cbn; try reflexivity.
  f_equal. apply Hg.
Qed.

(** X15.  The proposal covariance is a symmetric [d x d] matrix: when
    [_get_scaled_proposal_covariance] returns a finite two-dimensional
    array for samples with [d] columns, it has [d] rows of [d] entries and
    its entry [(i, j)] equals its entry [(j, i)], for every weight vector
    and scale factor. *)
Theorem proposal_covariance_symmetric (samples : array2) (weights : list R)
  (scale_factor : R) (c : list (list R)) :
  _get_scaled_proposal_covariance samples weights scale_factor
  = Ok (Cov2d (Some c)) ->
  length c = shape1 samples /\
  Forall (fun r => length r = shape1 samples) c /\
  forall i j, (c !! i) ≫= (.!! j) = (c !! j) ≫= (.!! i).
Proof.
  unfold _get_scaled_proposal_covariance, np_cov.
  destruct (decide (shape1 samples = 0%nat)) as [E|_].
  { cbn [mbind result_bind mret result_ret cov_scale option_bind map].
    intros [= <-]. rewrite E.
    split; [reflexivity|]. split; [constructor|]. intros i j.
    destruct i, j; reflexivity. }
  destruct (decide (length weights <> shape0 samples)); [discriminate|].
  destruct (decide (Exists _ weights)); [discriminate|].
  destruct (decide (np_sum weights = 0)); [discriminate|].
  destruct (decide (_ <= 0)).
  { destruct (decide (shape1 samples = 1%nat)); discriminate. }
  destruct (decide (shape1 samples = 1%nat)); [discriminate|].
  cbn [mbind result_bind mret result_ret cov_scale option_bind].
  intros [= <-].
  set (X := map (fun j => column j (rows samples)) (seq 0 (shape1 samples))).
  set (Xc := zip_with (fun x a => map (fun v => v - a) x) X
               (map (fun x => dot x weights / np_sum weights) X)).
  assert (HX : length Xc = shape1 samples).
  { unfold Xc, X. rewrite length_zip_with, !length_map, length_seq. lia. }
  rewrite !map_map.
  erewrite (map_ext _ (fun xj => map (fun xk => _) Xc));
    [|intros xj; rewrite !map_map; reflexivity].
  split; [rewrite length_map; exact HX|]. split.
  - apply Forall_map, Forall_true. intros xj. cbn beta.
    rewrite length_map. exact HX.
  - apply (gram_lookup_symmetric
             (fun xj xk => scale_factor ^ 2
                           * (dot xj (zip_with Rmult xk weights) * (1 / _)))).
    intros a b. rewrite dot_weighted_comm. reflexivity.
Qed.

Lemma proposal_covariance_symmetric_witness :
  length [[4 / 3; 0]; [0; 4 / 3]] = shape1 square_samples /\
  Forall (fun r => length r = shape1 square_samples)
    [[4 / 3; 0]; [0; 4 / 3]] /\
  forall i j,
    ([[4 / 3; 0]; [0; 4 / 3]] !! i) ≫= (.!! j)
    = ([[4 / 3; 0]; [0; 4 / 3]] !! j) ≫= (.!! i).
Proof.
  exact (proposal_covariance_symmetric square_samples (repeat (1 / INR 4) 4)
           1 _ scaled_covariance_of_square).
Defined.

(** ** Stages *)

Lemma set_item_length {A : Type} (a a' : list A) (i : nat) (x : A) :
  set_item a i x = Ok a' -> length a' = length a /\ a' !! i = Some x.
Proof.
  unfold set_item. destruct (decide (i < length a)%nat) as [Hi|]; [|discriminate].
  intros [= <-]. split; [apply length_insert|].
  apply list_lookup_insert_eq. exact Hi.
Qed.

Lemma set_row_shape (a a' : array2) (i : nat) (r : list R) :
  set_row a i r = Ok a' -> shape1 a' = shape1 a /\ shape0 a' = shape0 a.
Proof.
  unfold set_row.
  destruct (set_item (rows a) i r) as [rs| |] eqn:E; try discriminate.
  cbn [mbind result_bind mret result_ret]. intros [= <-].
  apply set_item_length in E as [E _].
  split; [reflexivity|exact E].
Qed.

Lemma for_each_invariant {K S : Type} (P : S -> Prop) (ks : list K)
  (body : K -> S -> result S) :
  (forall k s s', body k s = Ok s' -> P s -> P s') ->
  forall s s', P s -> for_each ks body s = Ok s' -> P s'.
Proof.
  intros Hstep. induction ks as [|k ks IH]; intros s s' Hs H.
  - injection H as <-. exact Hs.
  - cbn [for_each] in H. destruct (body k s) as [s1| |] eqn:E;
      try discriminate H.
    cbn [mbind result_bind] in H. eapply IH; [|exact H].
    eapply Hstep; eassumption.
Qed.

Lemma stage_turn_shape cholesky self beta new_beta llf ltdf
  target_acceptance_rate burn_in_steps num_samples do_thinning k s s' :
  stage_turn cholesky self beta new_beta llf ltdf target_acceptance_rate
    burn_in_steps num_samples do_thinning k s = Ok s' ->
  emitted_shape s'.2 = emitted_shape s.2.
Proof.
  destruct s as [[n c] out]. unfold stage_turn.
  destruct (rng_choice (c_rng c) num_samples (c_weights c))
    as [[index rng]| |]; try discriminate.
  cbn [mbind result_bind].
  match goal with
  | |- context [mh_steps ?a ?b ?c ?d ?e ?f ?g ?h ?i ?j ?k ?l] =>
      destruct (mh_steps a b c d e f g h i j k l) as [c1| |]
  end; try discriminate.
  cbn [mbind result_bind].
  destruct (decide (k >= burn_in_steps)%Z); [|intros [= <-]; reflexivity].
  destruct (get_item (rows (c_current_samples c1)) index) as [r| |];
    try discriminate.
  cbn [mbind result_bind].
  destruct (set_row (new_samples out) _ r) as [ns| |] eqn:E1;
    try discriminate.
  cbn [mbind result_bind].
  destruct (get_item (c_current_log_likelihoods c1) index) as [l| |];
    try discriminate.
  cbn [mbind result_bind].
  destruct (set_item (new_log_likelihoods out) _ l) as [nll| |] eqn:E2;
    try discriminate.
  cbn [mbind result_bind].
  destruct (get_item (c_current_log_target_density_values c1) index)
    as [t| |]; try discriminate.
  cbn [mbind result_bind].
  destruct (set_item (new_log_target_density_values out) _ t)
    as [nltd| |] eqn:E3; try discriminate.
  cbn [mbind result_bind mret result_ret]. intros [= <-].
  apply set_row_shape in E1 as [E1 E1'].
  apply set_item_length in E2 as [E2 _].
  apply set_item_length in E3 as [E3 _].
  unfold emitted_shape. cbn [snd new_samples new_log_likelihoods
    new_log_target_density_values]. congruence.
Qed.

Lemma run_one_stage_shape
  (root_scalar : (R -> result R) -> R -> R -> result RootResults)
  (cholesky : list (list R) -> option (list (list R)))
  (self : TMCMC) (fuel : nat) samples log_likelihoods
  log_target_density_values beta rng llf ltdf scale_factor
  target_acceptance_rate do_thinning burn_in_steps
  ns nll nltd new_beta log_evidence rng' :
  _run_one_stage root_scalar cholesky self fuel samples log_likelihoods
    log_target_density_values beta rng llf ltdf scale_factor
    target_acceptance_rate do_thinning burn_in_steps
  = Ok (ns, nll, nltd, new_beta, log_evidence, rng') ->
  shape0 ns = shape0 samples /\ shape1 ns = shape1 samples /\
  length nll = length log_likelihoods /\
  length nltd = length log_target_density_values.
Proof.
  intros H.
  destruct (run_one_stage_inv _ _ _ _ _ _ _ _ _ _ _ _ _ _ _ _ _ _ _ _ _ H)
    as (Hb & _ & w & c & L & Hw & Hc & HL).
  rewrite (run_one_stage_entry _ _ _ _ _ _ _ _ _ _ _ _ _ _ _ _ _ _ _
             Hb Hw Hc HL) in H.
  match type of H with
  | mbind _ (for_each ?ks ?body ?s0) = _ =>
      destruct (for_each ks body s0) as [[[n c'] out]| |] eqn:E;
      try discriminate H;
      pose proof (for_each_invariant
                    (fun s => emitted_shape s.2 = emitted_shape s0.2)
                    ks body
                    (fun k s s' Hk Hs =>
                       eq_trans (stage_turn_shape _ _ _ _ _ _ _ _ _ _ _ _ _
                                   Hk) Hs)
                    s0 _ eq_refl E) as Hshape
  end.
  cbn [mbind result_bind mret result_ret] in H.
  injection H as <- <- <- _ _.
  unfold emitted_shape in Hshape.
  cbn [snd new_samples new_log_likelihoods new_log_target_density_values]
    in Hshape.
  injection Hshape as H0 H1 H2 H3.
  unfold zeros_like1 in H2, H3. rewrite length_map in H2, H3.
  unfold zeros_like2 in H0, H1. unfold shape0 in H0 |- *.
  cbn [rows shape1] in H0, H1. rewrite length_map in H0.
  repeat split; assumption.
Qed.

(** X16.  A stage keeps the size of the population: when
    [_run_one_stage] returns, the new sample array has as many rows and
    columns as the samples it was given, and the new log-likelihood and
    log-target-density vectors have the lengths of the ones it was given,
    whatever the burn-in, the thinning and the evaluators. *)
Theorem stage_preserves_population
  (root_scalar : (R -> result R) -> R -> R -> result RootResults)
  (cholesky : list (list R) -> option (list (list R)))
  (self : TMCMC) (fuel : nat) samples log_likelihoods
  log_target_density_values beta rng llf ltdf scale_factor
  target_acceptance_rate do_thinning burn_in_steps
  ns nll nltd new_beta log_evidence rng' :
  _run_one_stage root_scalar cholesky self fuel samples log_likelihoods
    log_target_density_values beta rng llf ltdf scale_factor
    target_acceptance_rate do_thinning burn_in_steps
  = Ok (ns, nll, nltd, new_beta, log_evidence, rng') ->
  shape0 ns = shape0 samples /\ shape1 ns = shape1 samples /\
  length nll = length log_likelihoods /\
  length nltd = length log_target_density_values.
Proof. apply run_one_stage_shape. Qed.

Lemma stage_preserves_population_witness :
  shape0 (Array2 2 [[1; 1]; [1; 1]; [1; 1]; [1; 1]]) = shape0 square_samples /\
  shape1 (Array2 2 [[1; 1]; [1; 1]; [1; 1]; [1; 1]]) = shape1 square_samples /\
  length [0; 0; 0; 0] = length zeros4 /\
  length [0; 0; 0; 0] = length zeros4.
Proof.
  exact (stage_preserves_population _ _ _ _ _ _ _ _ _ _ _ _ _ _ _ _ _ _ _ _ _
           square_stage_all_rejected).
Defined.

Lemma np_cov_weights_inv (samples : array2) (w : list R) (c : cov_array) :
  np_cov samples w = Ok c ->
  shape1 samples = 0%nat \/ length w = shape0 samples.
Proof.
  unfold np_cov.
  destruct (decide (shape1 samples = 0%nat)); [left; assumption|].
  destruct (decide (length w <> shape0 samples)) as [|Hn]; [discriminate|].
  intros _. right. destruct (decide (length w = shape0 samples)); tauto.
Qed.

(** X17.  The samples and the log-likelihoods of a stage must have the
    same number of entries: with [d >= 1] columns and a log-likelihood
    vector whose length differs from the number of rows, a stage that gets
    past the stepper stops at [np.cov] with numpy's [RuntimeError], which
    is not the Cholesky failure the stage reports itself. *)
Theorem stage_rejects_mismatched_lengths
  (root_scalar : (R -> result R) -> R -> R -> result RootResults)
  (cholesky : list (list R) -> option (list (list R)))
  (self : TMCMC) (fuel : nat) samples log_likelihoods
  log_target_density_values beta rng llf ltdf scale_factor
  target_acceptance_rate do_thinning burn_in_steps new_beta :
  shape1 samples <> 0%nat ->
  length log_likelihoods <> shape0 samples ->
  _increment_beta root_scalar fuel log_likelihoods beta 1 = Ok new_beta ->
  _run_one_stage root_scalar cholesky self fuel samples log_likelihoods
    log_target_density_values beta rng llf ltdf scale_factor
    target_acceptance_rate do_thinning burn_in_steps
  = Raise (RuntimeError "incompatible numbers of samples and aweights").
Proof.
  intros Hd Hlen Hb.
  pose proof (increment_beta_nonempty _ _ _ _ _ _ Hb) as Hne.
  unfold _run_one_stage. rewrite Hb. simpl_result.
  rewrite (calculate_log_evidence_spec _ _ Hne). simpl_result.
  pose proof (weights_at_spec log_likelihoods (new_beta - beta) Hne) as Hw.
  rewrite Hw. simpl_result.
  destruct (weights_nonneg_sum _ _ _ Hw) as (_ & _ & Hwl).
  unfold _get_scaled_proposal_covariance, np_cov.
  destruct (decide (shape1 samples = 0%nat)); [contradiction|].
  destruct (decide (length (weights_at log_likelihoods (new_beta - beta))
                    <> shape0 samples)) as [|Hn]; [reflexivity|].
  exfalso. apply Hn. rewrite Hwl. exact Hlen.
Qed.

Lemma stage_rejects_mismatched_lengths_witness :
  _run_one_stage bisect cholesky_lower two_valued_sampler 0 square_samples
    (repeat 0 3) zeros4 0 fixed_generator
    (_log_likelihood_approximation two_valued_sampler)
    (_log_posterior_approximation two_valued_sampler) 1 (1 / 3) false 0
  = Raise (RuntimeError "incompatible numbers of samples and aweights").
Proof.
  apply (stage_rejects_mismatched_lengths bisect cholesky_lower
           two_valued_sampler 0 square_samples (repeat 0 3) zeros4 0
           fixed_generator _ _ 1 (1 / 3) false 0 1).
  - discriminate.
  - discriminate.
  - apply increment_beta_repeat.
Defined.

(** X18.  Equal log-likelihoods end the tempering in one stage: when all
    samples of a stage have the same log-likelihood [c] and the stage
    returns, its new beta is 1 and its log-evidence increment is
    [(1 - beta) * c]. *)
Theorem constant_likelihood_stage
  (root_scalar : (R -> result R) -> R -> R -> result RootResults)
  (cholesky : list (list R) -> option (list (list R)))
  (self : TMCMC) (fuel : nat) samples (c : R) (n : nat)
  log_target_density_values beta rng llf ltdf scale_factor
  target_acceptance_rate do_thinning burn_in_steps
  ns nll nltd new_beta log_evidence rng' :
  _run_one_stage root_scalar cholesky self fuel samples (repeat c (S n))
    log_target_density_values beta rng llf ltdf scale_factor
    target_acceptance_rate do_thinning burn_in_steps
  = Ok (ns, nll, nltd, new_beta, log_evidence, rng') ->
  new_beta = 1 /\ log_evidence = (1 - beta) * c.
Proof.
  intros H.
  destruct (run_one_stage_inv _ _ _ _ _ _ _ _ _ _ _ _ _ _ _ _ _ _ _ _ _ H)
    as (Hb & He & _).
  rewrite increment_beta_repeat in Hb. injection Hb as <-.
  split; [reflexivity|].
  apply calculate_log_evidence_inv in He as [_ ->].
  unfold log_evidence_increment_spec.
  rewrite map_repeat, np_sum_repeat, repeat_length.
  pose proof (INR_S_neq_0 n) as HN.
  assert (0 < INR (S n)) by (pose proof (pos_INR (S n)); lra).
  rewrite ln_mult, ln_exp by (try apply exp_pos; assumption). lra.
Qed.

Lemma constant_likelihood_stage_witness :
  1 = 1 /\ log_evidence_increment_spec (1 - 0) zeros4 = (1 - 0) * 0.
Proof.
  exact (constant_likelihood_stage _ _ _ _ _ 0 3 _ _ _ _ _ _ _ _ _ _ _ _ _ _
           _ square_stage_all_rejected).
Defined.

(** X19.  A one-dimensional population cannot be rejuvenated: [np.cov]
    squeezes the covariance of a single variable to a zero-dimensional
    array, which [np.linalg.cholesky] refuses, so every stage on samples
    with one column that gets past the stepper raises the stage's
    [RuntimeError] for a failed Cholesky decomposition. *)
Theorem one_dimensional_stage_fails
  (root_scalar : (R -> result R) -> R -> R -> result RootResults)
  (cholesky : list (list R) -> option (list (list R)))
  (self : TMCMC) (fuel : nat) samples log_likelihoods
  log_target_density_values beta rng llf ltdf scale_factor
  target_acceptance_rate do_thinning burn_in_steps new_beta :
  shape1 samples = 1%nat ->
  length log_likelihoods = shape0 samples ->
  _increment_beta root_scalar fuel log_likelihoods beta 1 = Ok new_beta ->
  _run_one_stage root_scalar cholesky self fuel samples log_likelihoods
    log_target_density_values beta rng llf ltdf scale_factor
    target_acceptance_rate do_thinning burn_in_steps
  = Raise (RuntimeError
      ("Cholesky decomposition failed: " +:+
       "0-dimensional array given. Array must be at least two-dimensional")).
Proof. apply run_one_stage_one_dimensional. Qed.

Lemma one_dimensional_stage_fails_witness :
  _run_one_stage bisect cholesky_lower tmcmc_sampler 0
    (Array2 1 [[0]; [1]; [2]]) (repeat (-1) 3) (repeat (-1) 3) 0
    fixed_generator _log_likelihood_approximation_function
    _log_target_density_approximation_function 2.4 0.44 false 100
  = Raise (RuntimeError
      ("Cholesky decomposition failed: " +:+
       "0-dimensional array given. Array must be at least two-dimensional")).
Proof.
  apply (one_dimensional_stage_fails bisect cholesky_lower tmcmc_sampler 0
           (Array2 1 [[0]; [1]; [2]]) (repeat (-1) 3) (repeat (-1) 3) 0
           fixed_generator _ _ 2.4 0.44 false 100 1).
  - reflexivity.
  - reflexivity.
  - apply increment_beta_repeat.
Defined.

Lemma mh_step_zero_adapt_frequency cholesky self beta new_beta llf ltdf
  target_acceptance_rate burn_in_steps k index c :
  adapt_frequency self = 0%Z ->
  mh_step cholesky self beta new_beta llf ltdf target_acceptance_rate
    burn_in_steps k index c = Raise ZeroDivisionError.
Proof.
  intros H0. unfold mh_step, adapt_proposal.
  destruct (decide (adapt_frequency self = 0)%Z); [reflexivity|contradiction].
Qed.

Lemma stage_turn_zero_adapt_frequency cholesky self beta new_beta llf ltdf
  target_acceptance_rate burn_in_steps num_samples do_thinning k c out :
  adapt_frequency self = 0%Z ->
  (0 < num_steps self)%Z -> (0 < thinning_factor self)%Z ->
  match rng_choice (c_rng c) num_samples (c_weights c) with
  | Ok _ =>
      stage_turn cholesky self beta new_beta llf ltdf target_acceptance_rate
        burn_in_steps num_samples do_thinning k (num_steps self, c, out)
      = Raise ZeroDivisionError
  | Raise e =>
      stage_turn cholesky self beta new_beta llf ltdf target_acceptance_rate
        burn_in_steps num_samples do_thinning k (num_steps self, c, out)
      = Raise e
  | Diverge => False
  end.
Proof.
  intros H0 Hn Ht.
  destruct (rng_choice (c_rng c) num_samples (c_weights c))
    as [[index rng]|e|] eqn:E.
  - eapply stage_turn_steps_raise; [exact E|].
    apply mh_steps_first_raise;
      [|apply mh_step_zero_adapt_frequency; exact H0].
    destruct (decide (k >= burn_in_steps)%Z); [|exact Hn].
    destruct (bool_decide (new_beta = 1) || do_thinning); [nia|exact Hn].
  - unfold stage_turn. rewrite E. reflexivity.
  - unfold rng_choice in E. repeat destruct (decide _); discriminate E.
Qed.

(** X20.  A sampler built with [adapt_frequency = 0] cannot run a stage:
    the first step of the first chain computes
    [step_count % self.adapt_frequency].  With at least one sample, one
    step per chain and a non-negative burn-in, no stage returns; a stage
    that gets as far as its loop, on samples of dimension [d >= 1], ends
    with [ZeroDivisionError]. *)
Theorem zero_adapt_frequency_is_fatal
  (root_scalar : (R -> result R) -> R -> R -> result RootResults)
  (cholesky : list (list R) -> option (list (list R)))
  (self : TMCMC) (fuel : nat) samples log_likelihoods
  log_target_density_values beta rng llf ltdf scale_factor
  target_acceptance_rate do_thinning burn_in_steps :
  adapt_frequency self = 0%Z ->
  (0 < num_steps self)%Z -> (0 < thinning_factor self)%Z ->
  shape0 samples <> 0%nat -> (0 <= burn_in_steps)%Z ->
  (forall v,
     _run_one_stage root_scalar cholesky self fuel samples log_likelihoods
       log_target_density_values beta rng llf ltdf scale_factor
       target_acceptance_rate do_thinning burn_in_steps <> Ok v) /\
  (forall new_beta weights c L,
     shape1 samples <> 0%nat ->
     _increment_beta root_scalar fuel log_likelihoods beta 1 = Ok new_beta ->
     _calculate_weights (new_beta - beta) log_likelihoods = Ok weights ->
     _get_scaled_proposal_covariance samples weights scale_factor = Ok c ->
     np_linalg_cholesky cholesky c = Ok L ->
     _run_one_stage root_scalar cholesky self fuel samples log_likelihoods
       log_target_density_values beta rng llf ltdf scale_factor
       target_acceptance_rate do_thinning burn_in_steps
     = Raise ZeroDivisionError).
Proof.
  intros H0 Hn Ht HN Hburn.
  destruct (range_pos (burn_in_steps + Z.of_nat (shape0 samples)))
    as [ks Hks]; [lia|].
  assert (Hentry : forall new_beta weights c L,
    _increment_beta root_scalar fuel log_likelihoods beta 1 = Ok new_beta ->
    _calculate_weights (new_beta - beta) log_likelihoods = Ok weights ->
    _get_scaled_proposal_covariance samples weights scale_factor = Ok c ->
    np_linalg_cholesky cholesky c = Ok L ->
    match rng_choice rng (shape0 samples) weights with
    | Ok _ =>
        _run_one_stage root_scalar cholesky self fuel samples log_likelihoods
          log_target_density_values beta rng llf ltdf scale_factor
          target_acceptance_rate do_thinning burn_in_steps
        = Raise ZeroDivisionError
    | Raise e =>
        _run_one_stage root_scalar cholesky self fuel samples log_likelihoods
          log_target_density_values beta rng llf ltdf scale_factor
          target_acceptance_rate do_thinning burn_in_steps
        = Raise e
    | Diverge => False
    end).
  { intros nb w c L Hb Hw Hc HL.
    rewrite (run_one_stage_entry _ _ _ _ _ _ _ _ _ _ _ _ _ _ _ _ _ _ _
               Hb Hw Hc HL).
    rewrite Hks.
    pose proof (stage_turn_zero_adapt_frequency cholesky self beta nb llf
                  ltdf target_acceptance_rate burn_in_steps (shape0 samples)
                  do_thinning 0%Z
                  (mkChain rng w scale_factor L samples log_likelihoods
                     log_target_density_values 0 1 0)
                  (mkEmitted (zeros_like2 samples)
                     (zeros_like1 log_likelihoods)
                     (zeros_like1 log_target_density_values)) H0 Hn Ht) as H.
    cbn [c_rng c_weights] in H.
    destruct (rng_choice rng (shape0 samples) w) as [v|e|];
      [| |exact H];
      rewrite (for_each_first_raise _ _ _ _ _ H); reflexivity. }
  split.
  - intros v Hv. destruct v as [[[[[ns nll] nltd] nb] le] rng'].
    destruct (run_one_stage_inv _ _ _ _ _ _ _ _ _ _ _ _ _ _ _ _ _ _ _ _ _ Hv)
      as (Hb & _ & w & c & L & Hw & Hc & HL).
    specialize (Hentry nb w c L Hb Hw Hc HL).
    destruct (rng_choice rng (shape0 samples) w); [| |exact Hentry];
      rewrite Hentry in Hv; discriminate Hv.
  - intros nb w c L Hd Hb Hw Hc HL.
    specialize (Hentry nb w c L Hb Hw Hc HL).
    rewrite rng_choice_ok in Hentry; [exact Hentry|exact HN| | |].
    + unfold _get_scaled_proposal_covariance in Hc.
      destruct (np_cov samples w) as [c0| |] eqn:E; try discriminate Hc.
      destruct (np_cov_weights_inv _ _ _ E); [contradiction|assumption].
    + destruct (weights_nonneg_sum _ _ _ Hw) as (Hpos & _ & _).
      eapply Forall_impl; [exact Hpos|]. intros x Hx. simpl in Hx. lra.
    + destruct (weights_nonneg_sum _ _ _ Hw) as (_ & Hsum & _). exact Hsum.
Qed.

Lemma zero_adapt_frequency_is_fatal_witness :
  _run_one_stage bisect cholesky_lower unadapted_sampler 0 square_samples
    zeros4 zeros4 0 fixed_generator _log_likelihood_approximation_function
    _log_target_density_approximation_function 1 (1 / 3) false 0
  = Raise ZeroDivisionError.
Proof.
  destruct cholesky_of_square_covariance as [L HL].
  refine (proj2 (zero_adapt_frequency_is_fatal bisect cholesky_lower
                   unadapted_sampler 0 square_samples zeros4 zeros4 0
                   fixed_generator _ _ 1 (1 / 3) false 0 _ _ _ _ _)
            1 (repeat (1 / INR 4) 4) (Cov2d (Some [[4 / 3; 0]; [0; 4 / 3]]))
            L _ _ _ _ _).
  - reflexivity.
  - reflexivity.
  - reflexivity.
  - discriminate.
  - reflexivity.
  - discriminate.
  - apply (increment_beta_repeat bisect 0 0 3).
  - apply (calculate_weights_repeat (1 - 0) 0 3).
  - exact scaled_covariance_of_square.
  - cbn [np_linalg_cholesky]. rewrite HL. reflexivity.
Defined.

(** ** Steps with single-valued evaluators *)

Lemma truth_value_single (b : bool) : truth_value [b] = Ok b.
Proof. reflexivity. Qed.

Lemma length_one_item (a : list R) : length a = 1%nat -> a = [item a].
Proof.
  destruct a as [|x [|y a]]; try discriminate. reflexivity.
Qed.

(** X21.  With evaluators that return one value for a single row, a step
    is a Metropolis step and the size checks never fire: when the
    adaptation at its head succeeds and [index] is within the current
    arrays, the step returns; the proposal replaces the sample, the
    log-likelihood and the log-target density at [index] exactly when
    [log u <= ltd(proposal) - ltd[index]], in which case the acceptance
    counter grows by one and, after the burn-in, the weights are
    recomputed from the updated log-likelihoods; otherwise only the
    generator and the counters move. *)
Theorem metropolis_step
  (cholesky : list (list R) -> option (list (list R))) (self : TMCMC)
  (beta new_beta : R) (log_likelihood_function : array2 -> list R)
  (log_target_density_function : array2 -> list R -> list R)
  (target_acceptance_rate : R) (burn_in_steps : Z)
  (k : Z) (index : nat) (c : chain)
  (num_accepts n_adapt : Z) (scale_factor : R) (L : list (list R))
  (row : list R) (current_log_likelihood current_value : R) :
  single_valued log_likelihood_function log_target_density_function ->
  adapt_proposal cholesky self target_acceptance_rate (c_step_count c + 1) c
  = Ok (num_accepts, n_adapt, scale_factor, L) ->
  rows (c_current_samples c) !! index = Some row ->
  c_current_log_likelihoods c !! index = Some current_log_likelihood ->
  c_current_log_target_density_values c !! index = Some current_value ->
  let drawn := rng_standard_normal (c_rng c) (shape1 (c_current_samples c)) in
  let proposed_row := zip_with Rplus row (matvec L drawn.1) in
  let proposed_state := Array2 (length proposed_row) [proposed_row] in
  let ll := log_likelihood_function proposed_state in
  let ltd := log_target_density_function proposed_state ll in
  let u := (rng_uniform drawn.2).1 in
  let rng := (rng_uniform drawn.2).2 in
  mh_step cholesky self beta new_beta log_likelihood_function
    log_target_density_function target_acceptance_rate burn_in_steps
    k index c
  = Ok (if np_log_le u (item ltd - current_value) then
          mkChain rng
            (if decide (k >= burn_in_steps)%Z then
               weights_at (<[index := item ll]> (c_current_log_likelihoods c))
                 (new_beta - beta)
             else c_weights c)
            scale_factor L
            (Array2 (shape1 (c_current_samples c))
               (<[index := proposed_row]> (rows (c_current_samples c))))
            (<[index := item ll]> (c_current_log_likelihoods c))
            (<[index := item ltd]> (c_current_log_target_density_values c))
            (num_accepts + 1) n_adapt (c_step_count c + 1)
        else
          mkChain rng (c_weights c) scale_factor L (c_current_samples c)
            (c_current_log_likelihoods c)
            (c_current_log_target_density_values c)
            num_accepts n_adapt (c_step_count c + 1)).
Proof.
  intros Hsv Hadapt Hrow Hll Hcur drawn proposed_row proposed_state ll ltd u
    rng.
  destruct (Hsv proposed_row) as [Hl1 Hl2].
  fold proposed_state in Hl1, Hl2. fold ll in Hl1, Hl2. fold ltd in Hl2.
  unfold mh_step. rewrite Hadapt. cbn [mbind result_bind].
  fold drawn. destruct drawn as [z rng1] eqn:Hdrawn.
  unfold get_item. rewrite Hrow, Hcur. cbn [mbind result_bind].
  cbn [fst snd] in *. fold proposed_row. fold proposed_state. fold ll.
  fold ltd.
  destruct (rng_uniform rng1) as [u' rng2] eqn:Hu. cbn [fst snd] in *.
  subst u rng.
  rewrite (length_one_item ltd Hl2) at 1. cbn [map].
  rewrite truth_value_single. cbn [mbind result_bind].
  change (item [item ltd]) with (item ltd).
  destruct (np_log_le u' (item ltd - current_value)); [|reflexivity].
  unfold set_row, set_item.
  destruct (decide (index < length (rows (c_current_samples c)))%nat)
    as [_|Hge]; [|exfalso; apply Hge; eapply lookup_lt_Some; exact Hrow].
  simpl_result.
  destruct (decide (length ll <> 1%nat)) as [|_]; [contradiction|].
  destruct (decide (index < length (c_current_log_likelihoods c))%nat)
    as [Hi|Hge]; [|exfalso; apply Hge; eapply lookup_lt_Some; exact Hll].
  simpl_result.
  destruct (decide (length ltd <> 1%nat)) as [|_]; [contradiction|].
  destruct (decide
              (index < length (c_current_log_target_density_values c))%nat)
    as [_|Hge]; [|exfalso; apply Hge; eapply lookup_lt_Some; exact Hcur].
  simpl_result.
  destruct (decide (k >= burn_in_steps)%Z); [|reflexivity].
  rewrite weights_at_spec; [reflexivity|].
  intros E. apply (f_equal length) in E. rewrite length_insert in E.
  destruct (c_current_log_likelihoods c); [inversion Hi|discriminate E].
Qed.

Lemma demonstration_single_valued :
  single_valued _log_likelihood_approximation_function
    _log_target_density_approximation_function.
Proof. intros row. split; reflexivity. Qed.

Lemma half_accepts_gain (x : R) : 0 <= x -> np_log_le (1 / 2) x = true.
Proof.
  intros Hx. unfold np_log_le.
  destruct (decide (1 / 2 < 0)) as [|_]; [lra|].
  destruct (decide (1 / 2 = 0)) as [|_]; [lra|].
  apply bool_decide_eq_true.
  assert (ln (1 / 2) < ln 1) by (apply ln_increasing; lra).
  rewrite ln_1 in *. lra.
Qed.

Lemma metropolis_step_witness :
  exists c',
    mh_step cholesky_lower tmcmc_sampler 0 1
      _log_likelihood_approximation_function
      _log_target_density_approximation_function (1 / 3) 0 0 0 unlikely_chain
    = Ok c' /\
    c_num_accepts c' = 1%Z /\
    c_current_log_likelihoods c' = [-81; -100; -100; -100].
Proof.
  pose proof (metropolis_step cholesky_lower tmcmc_sampler 0 1
                _log_likelihood_approximation_function
                _log_target_density_approximation_function (1 / 3) 0 0 0
                unlikely_chain 0 1 1 [[1]; [0; 1]] [1; 1] (-100) (-100)
                demonstration_single_valued eq_refl eq_refl eq_refl eq_refl)
    as H.
  cbv zeta in H. rewrite half_accepts_gain in H.
  - eexists. split; [exact H|]. split; [reflexivity|].
    cbn. f_equal. unfold np_sum, dot, np_sum. simpl. lra.
  - cbn. unfold np_sum, dot, np_sum. simpl. lra.
Defined.

(** ** The number of draws of a stage *)

Lemma for_each_app {K S : Type} (ks1 ks2 : list K)
  (body : K -> S -> result S) (s : S) :
  for_each (ks1 ++ ks2) body s
  = (s' ← for_each ks1 body s; for_each ks2 body s').
Proof.
  revert s. induction ks1 as [|k ks1 IH]; intros s; [reflexivity|].
  cbn [app for_each]. destruct (body k s) as [s1| |]; cbn [mbind result_bind];
    [apply IH|reflexivity|reflexivity].
Qed.

Lemma for_each_count {K S : Type} (I : S -> Prop) (f : S -> nat) (a : nat)
  (ks : list K) (body : K -> S -> result S) :
  (forall k s s', k ∈ ks -> body k s = Ok s' -> I s ->
                  I s' /\ f s' = (f s + a)%nat) ->
  forall s s', I s -> for_each ks body s = Ok s' ->
               I s' /\ f s' = (f s + length ks * a)%nat.
Proof.
  induction ks as [|k ks IH]; intros Hstep s s' Hs H.
  - injection H as <-. split; [exact Hs|]. cbn [length]. lia.
  - cbn [for_each] in H. destruct (body k s) as [s1| |] eqn:E;
      try discriminate H.
    cbn [mbind result_bind] in H.
    destruct (Hstep k s s1 ltac:(left) E Hs) as [Hs1 Hf1].
    destruct (IH (fun k' t t' Hk' =>
                    Hstep k' t t' (proj2 (elem_of_cons ks k' k) (or_intror Hk')))
                s1 s' Hs1 H) as [Hs' Hf'].
    split; [exact Hs'|]. cbn [length]. lia.
Qed.

Lemma mh_step_draws cholesky self beta new_beta llf ltdf
  target_acceptance_rate burn_in_steps k index c c' :
  mh_step cholesky self beta new_beta llf ltdf target_acceptance_rate
    burn_in_steps k index c = Ok c' ->
  position (c_rng c') = (position (c_rng c) + 2)%nat.
Proof.
  unfold mh_step.
  destruct (adapt_proposal cholesky self target_acceptance_rate
              (c_step_count c + 1) c) as [[[[na nd] sf] L]| |];
    try discriminate.
  cbn [mbind result_bind]. unfold rng_standard_normal, rng_uniform.
  destruct (get_item (rows (c_current_samples c)) index) as [row| |];
    try discriminate.
  cbn [mbind result_bind].
  destruct (get_item (c_current_log_target_density_values c) index)
    as [cv| |]; try discriminate.
  cbn [mbind result_bind].
  destruct (truth_value _) as [[|]| |]; try discriminate;
    cbn [mbind result_bind].
  - destruct (set_row _ _ _) as [cs| |]; try discriminate.
    cbn [mbind result_bind].
    match goal with
    | |- context [decide (length ?x <> 1%nat)] =>
        destruct (decide (length x <> 1%nat)); [discriminate|]
    end.
    destruct (set_item (c_current_log_likelihoods c) _ _) as [cl| |];
      try discriminate.
    cbn [mbind result_bind].
    match goal with
    | |- context [decide (length ?x <> 1%nat)] =>
        destruct (decide (length x <> 1%nat)); [discriminate|]
    end.
    destruct (set_item (c_current_log_target_density_values c) _ _)
      as [ct| |]; try discriminate.
    cbn [mbind result_bind].
    destruct (if decide (k >= burn_in_steps)%Z
              then _calculate_weights (new_beta - beta) cl
              else mret (c_weights c)) as [w| |]; try discriminate.
    cbn [mbind result_bind mret result_ret]. intros [= <-].
    cbn [c_rng advance position]. lia.
  - cbn [mret result_ret]. intros [= <-]. cbn [c_rng advance position]. lia.
Qed.

Lemma length_range (n : Z) : length (range n) = Z.to_nat n.
Proof. unfold range. rewrite length_map, length_seq. reflexivity. Qed.

Lemma mh_steps_draws cholesky self beta new_beta llf ltdf
  target_acceptance_rate burn_in_steps n k index c c' :
  mh_steps cholesky self beta new_beta llf ltdf target_acceptance_rate
    burn_in_steps n k index c = Ok c' ->
  position (c_rng c') = (position (c_rng c) + Z.to_nat n * 2)%nat.
Proof.
  unfold mh_steps. intros H.
  destruct (for_each_count (fun _ => True) (fun c => position (c_rng c)) 2
              (range n) _
              (fun _ s s' _ Hb _ => conj I (mh_step_draws _ _ _ _ _ _ _ _ _ _
                                             _ _ Hb))
              c c' I H) as [_ Hf].
  rewrite length_range in Hf. exact Hf.
Qed.

Lemma rng_choice_draws (g g' : Generator) (a index : nat) (p : list R) :
  rng_choice g a p = Ok (index, g') ->
  position g' = S (position g) /\ (index < a)%nat.
Proof.
  unfold rng_choice. repeat (destruct (decide _); try discriminate).
  cbn [mret result_ret]. intros [= <- <-]. split; [reflexivity|].
  apply Nat.mod_upper_bound. assumption.
Qed.

Lemma stage_turn_draws cholesky self beta new_beta llf ltdf
  target_acceptance_rate burn_in_steps num_samples do_thinning k
  n c out n' c' out' :
  stage_turn cholesky self beta new_beta llf ltdf target_acceptance_rate
    burn_in_steps num_samples do_thinning k (n, c, out) = Ok (n', c', out') ->
  n' = (if decide (k >= burn_in_steps)%Z then
          if bool_decide (new_beta = 1) || do_thinning
          then (num_steps self * thinning_factor self)%Z
          else n
        else n) /\
  position (c_rng c')
  = (position (c_rng c) + (1 + Z.to_nat n' * 2))%nat.
Proof.
  unfold stage_turn.
  destruct (rng_choice (c_rng c) num_samples (c_weights c))
    as [[index rng]| |] eqn:Hc; try discriminate.
  cbn [mbind result_bind].
  apply rng_choice_draws in Hc as [Hc _].
  match goal with
  | |- context [mh_steps ?a ?b ?c ?d ?e ?f ?g ?h ?i ?j ?k ?l] =>
      destruct (mh_steps a b c d e f g h i j k l) as [c1| |] eqn:Hs
  end; try discriminate.
  apply mh_steps_draws in Hs. cbn [c_rng] in Hs.
  cbn [mbind result_bind].
  assert (Hgoal : forall n0 c0 out0,
            Ok (n0, c1, out0) = Ok (n', c0, out') ->
            n0 = n' /\ c1 = c0)
    by (intros ? ? ? [= -> -> _]; split; reflexivity).
  destruct (decide (k >= burn_in_steps)%Z).
  - destruct (get_item (rows (c_current_samples c1)) index) as [r| |];
      try discriminate.
    cbn [mbind result_bind].
    destruct (set_row _ _ _) as [ns| |]; try discriminate.
    cbn [mbind result_bind].
    destruct (get_item (c_current_log_likelihoods c1) index) as [l| |];
      try discriminate.
    cbn [mbind result_bind].
    destruct (set_item _ _ _) as [nll| |]; try discriminate.
    cbn [mbind result_bind].
    destruct (get_item (c_current_log_target_density_values c1) index)
      as [t| |]; try discriminate.
    cbn [mbind result_bind].
    destruct (set_item _ _ _) as [nltd| |]; try discriminate.
    cbn [mbind result_bind mret result_ret]. intros H.
    apply Hgoal in H as [<- <-]. split; [reflexivity|]. lia.
  - cbn [mret result_ret]. intros H.
    apply Hgoal in H as [<- <-]. split; [reflexivity|]. lia.
Qed.

Lemma range_burn_in (burn_in_steps : Z) (n : nat) :
  (0 <= burn_in_steps)%Z ->
  range (burn_in_steps + Z.of_nat n)
  = map Z.of_nat (seq 0 (Z.to_nat burn_in_steps))
    ++ map Z.of_nat (seq (Z.to_nat burn_in_steps) n).
Proof.
  intros Hb. unfold range.
  replace (Z.to_nat (burn_in_steps + Z.of_nat n))
    with (Z.to_nat burn_in_steps + n)%nat by lia.
  rewrite seq_app, map_app. reflexivity.
Qed.

(** X22.  The cost of a stage.  Every chain draws its seed once and every
    step draws one proposal and one uniform number, so a stage that
    returns, with a burn-in of [b >= 0] chains, has advanced the generator
    by [b * (1 + 2 * num_steps)] draws for the burn-in and by
    [N * (1 + 2 * n)] draws for the [N] emitted samples, where [n] is
    [num_steps * thinning_factor] when the stage reached beta 1 or thinning
    was requested, and [num_steps] otherwise: the last stage thins even if
    [do_thinning] is false. *)
Theorem stage_draw_count
  (root_scalar : (R -> result R) -> R -> R -> result RootResults)
  (cholesky : list (list R) -> option (list (list R)))
  (self : TMCMC) (fuel : nat) samples log_likelihoods
  log_target_density_values beta rng llf ltdf scale_factor
  target_acceptance_rate do_thinning burn_in_steps
  ns nll nltd new_beta log_evidence rng' :
  (0 <= burn_in_steps)%Z ->
  _run_one_stage root_scalar cholesky self fuel samples log_likelihoods
    log_target_density_values beta rng llf ltdf scale_factor
    target_acceptance_rate do_thinning burn_in_steps
  = Ok (ns, nll, nltd, new_beta, log_evidence, rng') ->
  let steps_per_sample :=
    if bool_decide (new_beta = 1) || do_thinning
    then (num_steps self * thinning_factor self)%Z
    else num_steps self in
  position rng'
  = (position rng
     + (Z.to_nat burn_in_steps * (1 + Z.to_nat (num_steps self) * 2)
        + shape0 samples * (1 + Z.to_nat steps_per_sample * 2)))%nat.
Proof.
  intros Hburn H per.
  destruct (run_one_stage_inv _ _ _ _ _ _ _ _ _ _ _ _ _ _ _ _ _ _ _ _ _ H)
    as (Hb & _ & w & c & L & Hw & Hc & HL).
  rewrite (run_one_stage_entry _ _ _ _ _ _ _ _ _ _ _ _ _ _ _ _ _ _ _
             Hb Hw Hc HL) in H.
  rewrite (range_burn_in _ _ Hburn), for_each_app in H.
  match type of H with
  | mbind _ (mbind _ (for_each ?ks ?body ?s0)) = _ =>
      destruct (for_each ks body s0) as [[[n1 c1] out1]| |] eqn:E1;
      try discriminate H
  end.
  cbn [mbind result_bind] in H.
  match type of H with
  | mbind _ (for_each ?ks ?body ?s0) = _ =>
      destruct (for_each ks body s0) as [[[n2 c2] out2]| |] eqn:E2;
      try discriminate H
  end.
  cbn [mbind result_bind mret result_ret] in H.
  unfold mret, result_ret in H.
  assert (Hr : rng' = c_rng c2) by congruence. subst rng'. clear H.
  apply (for_each_count
           (fun s : Z * chain * emitted => s.1.1 = num_steps self)
           (fun s => position (c_rng s.1.2))
           (1 + Z.to_nat (num_steps self) * 2)) in E1;
    [|clear E1 E2|reflexivity].
  2:{ intros k [[n c0] out0] [[n' c'] out'] Hk Hstep Hn.
      cbn [fst snd] in *. subst n.
      apply stage_turn_draws in Hstep as [Hn' Hpos].
      apply list_elem_of_fmap in Hk as (i & -> & Hi).
      apply elem_of_seq in Hi.
      destruct (decide (Z.of_nat i >= burn_in_steps)%Z) as [Hge|_]; [lia|].
      subst n'. split; [reflexivity|exact Hpos]. }
  destruct E1 as [Hn1 Hp1]. cbn [fst snd] in Hn1, Hp1.
  apply (for_each_count
           (fun s : Z * chain * emitted =>
              s.1.1 = num_steps self \/ s.1.1 = per)
           (fun s => position (c_rng s.1.2))
           (1 + Z.to_nat per * 2)) in E2;
    [|clear E2|left; exact Hn1].
  2:{ intros k [[n c0] out0] [[n' c'] out'] Hk Hstep Hn.
      cbn [fst snd] in *.
      apply stage_turn_draws in Hstep as [Hn' Hpos].
      apply list_elem_of_fmap in Hk as (i & -> & Hi).
      apply elem_of_seq in Hi.
      destruct (decide (Z.of_nat i >= burn_in_steps)%Z) as [_|Hlt]; [|lia].
      assert (Hper : n' = per).
      { subst n' per.
        destruct (bool_decide (new_beta = 1) || do_thinning);
          [reflexivity|]. destruct Hn; assumption. }
      rewrite Hper in *. split; [right; reflexivity|exact Hpos]. }
  destruct E2 as [_ Hp2]. cbn [fst snd] in Hp2.
  rewrite Hp2, Hp1. cbn [c_rng].
  rewrite !length_map, !length_seq. unfold shape0.
  symmetry. apply Nat.add_assoc.
Qed.

Lemma stage_draw_count_witness :
  position (generator_at 12)
  = (position fixed_generator
     + (Z.to_nat 0 * (1 + Z.to_nat (num_steps two_valued_sampler) * 2)
        + shape0 square_samples
          * (1 + Z.to_nat
                   (if bool_decide (1 = 1)%R || false
                    then (num_steps two_valued_sampler
                          * thinning_factor two_valued_sampler)%Z
                    else num_steps two_valued_sampler) * 2)))%nat.
Proof.
  pose proof (stage_draw_count _ _ _ _ _ _ _ _ _ _ _ _ _ _ _ _ _ _ _ _ _
                (Z.le_refl 0) square_stage_all_rejected) as H.
  cbv zeta in H. exact H.
Defined.

(** ** A complete run on the square samples *)

Lemma scaled_covariance_of_square_at (s : R) :
  _get_scaled_proposal_covariance square_samples (repeat (1 / INR 4) 4) s
  = Ok (Cov2d (Some [[s ^ 2 * (4 / 3); s ^ 2 * 0];
                     [s ^ 2 * 0; s ^ 2 * (4 / 3)]])).
Proof.
  pose proof (uniform_weights_valid 3) as [Hpos Hsum].
  unfold _get_scaled_proposal_covariance, np_cov.
  destruct (decide (shape1 square_samples = 0%nat)) as [H | _];
    [discriminate H|].
  destruct (decide (length (repeat (1 / INR 4) 4) <> shape0 square_samples))
    as [H | _]; [exfalso; apply H; reflexivity|].
  destruct (decide (Exists (fun w => w < 0) (repeat (1 / INR 4) 4)))
    as [Hex | _].
  { exfalso. apply Exists_exists in Hex as (x & Hx & Hneg).
    rewrite Forall_forall in Hpos. specialize (Hpos x Hx). simpl in Hpos. lra. }
  rewrite Hsum.
  destruct (decide (1 = 0)) as [H | _]; [lra|].
  destruct (decide (shape1 square_samples = 1%nat)) as [H | _];
    [discriminate H|].
  destruct (decide (_ <= 0)) as [Hfact | _].
  { exfalso. revert Hfact. unfold np_sum. simpl. lra. }
  cbn [mbind result_bind mret result_ret cov_scale option_bind].
  do 3 f_equal.
  unfold square_samples, column, dot, np_sum. simpl.
  repeat f_equal; field.
Qed.

Lemma cholesky_of_scaled_square (a : R) :
  0 < a ->
  exists L, cholesky_lower [[a * (4 / 3); a * 0]; [a * 0; a * (4 / 3)]]
            = Some L.
Proof.
  intros Ha.
  unfold cholesky_lower. cbn [cholesky_rows cholesky_row length nth app].
  unfold dot, np_sum. cbn [zip_with fold_right].
  destruct (decide (0 < a * (4 / 3) - 0)) as [_ | H]; [|exfalso; apply H; lra].
  cbn [cholesky_rows cholesky_row length nth app zip_with fold_right].
  destruct (decide _) as [_ | H]; [eauto|].
  exfalso. apply H.
  replace (a * 0 - 0) with 0 by lra. unfold Rdiv at 2 3.
  rewrite !Rmult_0_l. lra.
Qed.

Lemma scaled_square_turn_rejected (s tar : R) (k p : nat) (L : list (list R))
  (out : emitted) :
  (k < 4)%nat ->
  (k < length (rows (new_samples out)))%nat ->
  (k < length (new_log_likelihoods out))%nat ->
  (k < length (new_log_target_density_values out))%nat ->
  stage_turn cholesky_lower two_valued_sampler 0 1
    (_log_likelihood_approximation two_valued_sampler)
    (_log_posterior_approximation two_valued_sampler) tar 0 4 false
    (Z.of_nat k) (1%Z, scaled_square_chain s p L k, out)
  = Ok (1%Z, scaled_square_chain s (3 + p) L (S k),
        mkEmitted
          (Array2 (shape1 (new_samples out))
             (<[k := [1; 1]]> (rows (new_samples out))))
          (<[k := 0]> (new_log_likelihoods out))
          (<[k := 0]> (new_log_target_density_values out))).
Proof.
  intros Hk H1 H2 H3.
  pose proof (uniform_weights_valid 3) as [Hpos Hsum].
  unfold stage_turn.
  cbn [scaled_square_chain c_rng c_weights c_scale_factor c_cholesky
       c_current_samples c_current_log_likelihoods
       c_current_log_target_density_values c_num_accepts c_n_adapt
       c_step_count].
  rewrite rng_choice_ok; [| discriminate | reflexivity | exact Hpos | exact Hsum].
  cbn [mbind result_bind].
  destruct (decide (Z.of_nat k >= 0)%Z) as [_ | Hneg]; [|lia].
  rewrite bool_decide_eq_true_2 by reflexivity.
  cbn [orb two_valued_sampler num_steps thinning_factor].
  change (1 * 1)%Z with 1%Z.
  unfold mh_steps. change (range 1) with [0%Z]. cbn [for_each].
  rewrite (mh_step_rejected cholesky_lower two_valued_sampler 0 1 _ _ tar
             0 (Z.of_nat k) _ _ 0%Z 1%Z s L [1; 1] 0).
  - cbn [mbind result_bind].
    cbn [c_current_samples c_current_log_likelihoods
         c_current_log_target_density_values].
    unfold get_item, set_row, set_item.
    cbn [generator_at choice_at position].
    change (0 `mod` 4)%nat with 0%nat.
    change (rows square_samples !! 0%nat) with (Some [1; 1]).
    change (zeros4 !! 0%nat) with (Some 0).
    simpl_result.
    rewrite Z.sub_0_r, Nat2Z.id.
    rewrite !decide_True by assumption.
    simpl_result.
    unfold scaled_square_chain. repeat f_equal. cbn [c_step_count]. lia.
  - apply adapt_proposal_skip; [discriminate|].
    apply square_step_count, Hk.
  - reflexivity.
  - reflexivity.
  - cbn. rewrite half_rejects. reflexivity.
Qed.

Lemma scaled_square_stage (s tar : R) :
  0 < s ->
  _run_one_stage bisect cholesky_lower two_valued_sampler 0 square_samples
    zeros4 zeros4 0 fixed_generator
    (_log_likelihood_approximation two_valued_sampler)
    (_log_posterior_approximation two_valued_sampler) s tar false 0
  = Ok (Array2 2 [[1; 1]; [1; 1]; [1; 1]; [1; 1]], [0; 0; 0; 0],
        [0; 0; 0; 0], 1, log_evidence_increment_spec (1 - 0) zeros4,
        generator_at 12).
Proof.
  intros Hs.
  destruct (cholesky_of_scaled_square (s ^ 2)) as [L HL]; [nra|].
  rewrite (run_one_stage_entry bisect cholesky_lower two_valued_sampler 0
             square_samples zeros4 zeros4 0 fixed_generator _ _ s tar false
             0 1 (repeat (1 / INR 4) 4) _ L
             (increment_beta_repeat bisect 0 0 3 0 1)
             (calculate_weights_repeat (1 - 0) 0 3)
             (scaled_covariance_of_square_at s)).
  2:{ cbn [np_linalg_cholesky]. rewrite HL. reflexivity. }
  change (num_steps two_valued_sampler) with 1%Z.
  change (mkChain fixed_generator (repeat (1 / INR 4) 4) s L square_samples
            zeros4 zeros4 0 1 0) with (scaled_square_chain s 0 L 0).
  change (range (0 + Z.of_nat (shape0 square_samples)))
    with [Z.of_nat 0; Z.of_nat 1; Z.of_nat 2; Z.of_nat 3].
  cbn [for_each].
  rewrite scaled_square_turn_rejected by (cbn; lia). cbn [mbind result_bind].
  rewrite scaled_square_turn_rejected by (cbn; lia). cbn [mbind result_bind].
  rewrite scaled_square_turn_rejected by (cbn; lia). cbn [mbind result_bind].
  rewrite scaled_square_turn_rejected by (cbn; lia). cbn [mbind result_bind].
  reflexivity.
Qed.

(** ** What a run writes *)

Lemma same_stage_appended (h : run_state) (s k : Z) ns nll nltd nb le :
  k <> (s + 1)%Z -> same_stage h (appended h s ns nll nltd nb le) k.
Proof.
  intros Hk. unfold same_stage, appended.
  cbn [samples_dict betas_dict log_likelihoods_dict
       log_target_density_values_dict log_evidence_dict].
  rewrite !lookup_insert_ne by congruence. repeat split.
Qed.

Lemma stored_stage_appended (h : run_state) (s : Z) ns nll nltd nb le :
  stored_stage (appended h s ns nll nltd nb le) (s + 1).
Proof.
  unfold stored_stage, appended.
  cbn [samples_dict betas_dict log_likelihoods_dict
       log_target_density_values_dict log_evidence_dict].
  rewrite !lookup_insert_eq. repeat split; eexists; reflexivity.
Qed.

Lemma same_stage_trans (h1 h2 h3 : run_state) (k : Z) :
  same_stage h1 h2 k -> same_stage h2 h3 k -> same_stage h1 h3 k.
Proof.
  unfold same_stage. intros (A1 & A2 & A3 & A4 & A5) (B1 & B2 & B3 & B4 & B5).
  repeat split; congruence.
Qed.

Lemma stored_stage_same (h h' : run_state) (k : Z) :
  same_stage h h' k -> stored_stage h k -> stored_stage h' k.
Proof.
  unfold same_stage, stored_stage.
  intros (A1 & A2 & A3 & A4 & A5) (B1 & B2 & B3 & B4 & B5).
  rewrite A1, A2, A3, A4, A5. repeat split; assumption.
Qed.

Section DriverFootprint.

Variable root_scalar : (R -> result R) -> R -> R -> result RootResults.
Variable cholesky : list (list R) -> option (list (list R)).
Variable self : TMCMC.
Variable fuel : nat.
Variables (scale_factor target_acceptance_rate : R).
Variable num_burn_in : Z.

Local Notation "'turn'" :=
  (run_turn root_scalar cholesky self fuel scale_factor
     target_acceptance_rate num_burn_in).

Local Notation "'loop'" :=
  (run_loop root_scalar cholesky self fuel scale_factor
     target_acceptance_rate num_burn_in).

Lemma run_turn_ok (rng : Generator) (s : Z) (h : run_state)
  samples ll ltd beta ns nll nltd nb le rng' :
  samples_dict h !! s = Some samples ->
  log_likelihoods_dict h !! s = Some ll ->
  log_target_density_values_dict h !! s = Some ltd ->
  betas_dict h !! s = Some beta ->
  _run_one_stage root_scalar cholesky self fuel samples ll ltd beta rng
    (_log_likelihood_approximation self)
    (_log_posterior_approximation self) scale_factor
    target_acceptance_rate false num_burn_in
  = Ok (ns, nll, nltd, nb, le, rng') ->
  turn rng s h = (Ok ((s + 1)%Z, rng'), appended h s ns nll nltd nb le).
Proof.
  intros H1 H2 H3 H4 Hstage. unfold run_turn.
  unfold mbind, M_bind, getitem, lift.
  rewrite H1, H2, H3, H4, Hstage. reflexivity.
Qed.

Lemma stage_boundary_footprint x y :
  stage_boundary turn x y ->
  (x.2 <= y.2)%Z /\
  (forall k, (k <= x.2 \/ y.2 < k)%Z -> same_stage x.1.1 y.1.1 k) /\
  (forall k, (x.2 < k <= y.2)%Z -> stored_stage y.1.1 k).
Proof.
  induction 1 as [x | h rng s beta h' rng' s' y Hb Hlt Hturn Hrest IH].
  - split; [lia|]. split; [|intros k Hk; lia].
    intros k _. unfold same_stage. repeat split.
  - cbn [fst snd] in *.
    apply run_turn_inv in Hturn as [[_ Hno] | Hturn];
      [exfalso; eapply Hno; reflexivity|].
    destruct Hturn as (? & ? & ? & ? & ns & nll & nltd & nb & le & rng1 & H0).
    destruct H0 as (_ & _ & _ & _ & _ & [= -> ->] & ->).
    destruct IH as (Hle & Hsame & Hstored).
    split; [lia|]. split.
    + intros k Hk. cbn [fst snd] in Hk.
      apply (same_stage_trans _ (appended h s ns nll nltd nb le));
        [apply same_stage_appended; lia|].
      apply Hsame. lia.
    + intros k Hk. cbn [fst snd] in Hk.
      destruct (decide (k = (s + 1)%Z)) as [->|Hne].
      * eapply stored_stage_same; [apply Hsame; lia|].
        apply stored_stage_appended.
      * apply Hstored. lia.
Qed.

(** Along the stages of a run the population keeps its size. *)
Lemma stage_boundary_population x y :
  stage_boundary turn x y ->
  forall i, (x.2 <= i < y.2)%Z ->
    exists smp smp' ll ll' ltd ltd',
      samples_dict y.1.1 !! i = Some smp /\
      samples_dict y.1.1 !! (i + 1)%Z = Some smp' /\
      log_likelihoods_dict y.1.1 !! i = Some ll /\
      log_likelihoods_dict y.1.1 !! (i + 1)%Z = Some ll' /\
      log_target_density_values_dict y.1.1 !! i = Some ltd /\
      log_target_density_values_dict y.1.1 !! (i + 1)%Z = Some ltd' /\
      shape0 smp' = shape0 smp /\ shape1 smp' = shape1 smp /\
      length ll' = length ll /\ length ltd' = length ltd.
Proof.
  induction 1 as [x | h rng s beta h' rng' s' y Hb Hlt Hturn Hrest IH];
    [intros i Hi; lia|].
  cbn [fst snd] in *. intros i Hi.
  pose proof (stage_boundary_footprint _ _ Hrest) as (Hle & Hsame & _).
  cbn [fst snd] in *.
  apply run_turn_inv in Hturn as [[_ Hno] | Hturn];
    [exfalso; eapply Hno; reflexivity|].
  destruct Hturn as (smp & ll & ltd & beta0 & ns & nll & nltd & nb & le
                     & rng1 & H0).
  destruct H0 as (H1 & H2 & H3 & _ & Hstage & [= -> ->] & ->).
  destruct (decide (i = s)) as [-> | Hne]; [|apply IH; lia].
  exists smp, ns, ll, nll, ltd, nltd.
  destruct (Hsame s ltac:(lia)) as (A1 & _ & A3 & A4 & _).
  destruct (Hsame (s + 1)%Z ltac:(lia)) as (B1 & _ & B3 & B4 & _).
  rewrite A1, A3, A4, B1, B3, B4.
  cbn [appended samples_dict log_likelihoods_dict
       log_target_density_values_dict].
  rewrite !lookup_insert_eq. rewrite !lookup_insert_ne by lia.
  apply run_one_stage_shape in Hstage.
  repeat split; tauto.
Qed.

End DriverFootprint.

Lemma run_inv
  (root_scalar : (R -> result R) -> R -> R -> result RootResults)
  (cholesky : list (list R) -> option (list (list R)))
  (self : TMCMC) (fuel stages : nat) (rng : Generator) (stage_num : Z)
  (num_burn_in : Z) (h h' : run_state) (r : result run_state) :
  run root_scalar cholesky self fuel stages rng stage_num num_burn_in h
  = (r, h') ->
  (h' = h /\ forall v, r <> Ok v) \/
  exists samples0 r0,
    samples_dict h !! 0%Z = Some samples0 /\ shape1 samples0 <> 0%nat /\
    run_loop root_scalar cholesky self fuel
      (2.4 / sqrt (INR (shape1 samples0)))
      (0.23 + 0.21 / INR (shape1 samples0)) num_burn_in stages rng stage_num h
    = (r0, h') /\
    r = match r0 with
        | Ok _ => Ok h'
        | Raise e => Raise e
        | Diverge => Diverge
        end.
Proof.
  unfold run. unfold mbind at 1. unfold M_bind at 1. unfold getitem at 1.
  destruct (samples_dict h !! 0%Z) as [samples0|] eqn:H0;
    [|intros [= <- <-]; left; split; [reflexivity|discriminate]].
  destruct (decide (shape1 samples0 = 0%nat)) as [Hd|Hd].
  - cbn. intros [= <- <-]. left. split; [reflexivity|discriminate].
  - unfold mbind, M_bind, mret, M_ret, get_state.
    destruct (run_loop _ _ _ _ _ _ _ _ _ _ h) as [r0 h1] eqn:Hloop.
    intros Hr. right. exists samples0, r0.
    destruct r0 as [v| |]; injection Hr as <- <-; repeat split; assumption.
Qed.

Lemma run_at_final_beta
  (root_scalar : (R -> result R) -> R -> R -> result RootResults)
  (cholesky : list (list R) -> option (list (list R)))
  (self : TMCMC) (fuel stages : nat) (rng : Generator) (stage_num : Z)
  (num_burn_in : Z) (h : run_state) (samples0 : array2) (b : R) :
  samples_dict h !! 0%Z = Some samples0 -> shape1 samples0 <> 0%nat ->
  betas_dict h !! stage_num = Some b -> 1 <= b ->
  run root_scalar cholesky self fuel stages rng stage_num num_burn_in h
  = (Ok h, h).
Proof.
  intros H0 Hd Hb Hge. unfold run. unfold mbind at 1. unfold M_bind at 1.
  unfold getitem at 1. rewrite H0.
  destruct (decide (shape1 samples0 = 0%nat)) as [|_]; [contradiction|].
  unfold mbind, M_bind, mret, M_ret.
  rewrite (run_loop_done _ _ _ _ _ _ _ stages rng stage_num h b Hb Hge).
  reflexivity.
Qed.

Lemma run_loop_step
  (root_scalar : (R -> result R) -> R -> R -> result RootResults)
  (cholesky : list (list R) -> option (list (list R)))
  (self : TMCMC) (fuel : nat) (scale_factor target_acceptance_rate : R)
  (num_burn_in : Z) (stages : nat) (rng rng' : Generator) (s s' : Z)
  (h h' : run_state) (b : R) :
  betas_dict h !! s = Some b -> b < 1 ->
  run_turn root_scalar cholesky self fuel scale_factor
    target_acceptance_rate num_burn_in rng s h = (Ok (s', rng'), h') ->
  run_loop root_scalar cholesky self fuel scale_factor
    target_acceptance_rate num_burn_in (S stages) rng s h
  = run_loop root_scalar cholesky self fuel scale_factor
      target_acceptance_rate num_burn_in stages rng' s' h'.
Proof.
  intros Hb Hlt Hturn. cbn [run_loop].
  unfold mbind at 1. unfold M_bind at 1. unfold getitem at 1. rewrite Hb.
  destruct (decide (b < 1)) as [_|]; [|contradiction].
  unfold mbind at 1. unfold M_bind at 1. rewrite Hturn. reflexivity.
Qed.

Lemma run_return
  (root_scalar : (R -> result R) -> R -> R -> result RootResults)
  (cholesky : list (list R) -> option (list (list R)))
  (self : TMCMC) (fuel stages : nat) (rng : Generator) (stage_num : Z)
  (num_burn_in : Z) (h h' : run_state) (samples0 : array2)
  (v : Z * Generator) :
  samples_dict h !! 0%Z = Some samples0 ->
  shape1 samples0 <> 0%nat ->
  run_loop root_scalar cholesky self fuel (2.4 / sqrt (INR (shape1 samples0)))
    (0.23 + 0.21 / INR (shape1 samples0)) num_burn_in stages rng stage_num h
  = (Ok v, h') ->
  run root_scalar cholesky self fuel stages rng stage_num num_burn_in h
  = (Ok h', h').
Proof.
  intros H0 Hd Hloop. unfold run. unfold mbind at 1. unfold M_bind at 1.
  unfold getitem at 1. rewrite H0.
  destruct (decide (shape1 samples0 = 0%nat)) as [|_]; [contradiction|].
  unfold mbind, M_bind, mret, M_ret. rewrite Hloop. reflexivity.
Qed.

Lemma square_run :
  run bisect cholesky_lower two_valued_sampler 0 1 fixed_generator 0 0
    square_state
  = (Ok square_state_after, square_state_after).
Proof.
  assert (Hs : 0 < 2.4 / sqrt (INR (shape1 square_samples))).
  { apply Rdiv_lt_0_compat; [lra|]. apply sqrt_lt_R0. simpl. lra. }
  apply (run_return _ _ _ _ _ _ _ _ _ _ square_samples (1%Z, generator_at 12));
    [reflexivity|discriminate|].
  rewrite (run_loop_step _ _ _ _ _ _ _ 0 fixed_generator (generator_at 12)
             0%Z 1%Z square_state square_state_after 0 eq_refl ltac:(lra)).
  - apply (run_loop_done _ _ _ _ _ _ _ 0 (generator_at 12) 1%Z
             square_state_after 1); [reflexivity|lra].
  - apply (run_turn_ok _ _ _ _ _ _ _ fixed_generator 0%Z square_state
             square_samples zeros4 zeros4 0 _ _ _ _ _ _
             eq_refl eq_refl eq_refl eq_refl).
    apply scaled_square_stage. exact Hs.
Qed.

(** X23.  A run only appends: whatever its outcome, there is a last stage
    number [last >= stage_num] such that the five mappings hold the same
    entries as before at every key up to [stage_num] and at every key
    above [last], and all five hold an entry at every key in between.
    Nothing is deleted, stages up to the entry stage are never rewritten,
    and the five mappings always get the same new keys. *)
Theorem run_writes_only_new_stages
  (root_scalar : (R -> result R) -> R -> R -> result RootResults)
  (cholesky : list (list R) -> option (list (list R)))
  (self : TMCMC) (fuel stages : nat) (rng : Generator) (stage_num : Z)
  (num_burn_in : Z) (h h' : run_state) (r : result run_state) :
  run root_scalar cholesky self fuel stages rng stage_num num_burn_in h
  = (r, h') ->
  exists last,
    (stage_num <= last)%Z /\
    (forall k, (k <= stage_num \/ last < k)%Z -> same_stage h h' k) /\
    (forall k, (stage_num < k <= last)%Z -> stored_stage h' k).
Proof.
  intros Hrun.
  apply run_inv in Hrun as [[-> _]|(samples0 & r0 & _ & _ & Hloop & _)].
  - exists stage_num. split; [lia|]. split; [|intros k Hk; lia].
    intros k _. unfold same_stage. repeat split.
  - apply run_loop_boundary in Hloop as (rngb & sb & Hbd & _).
    apply stage_boundary_footprint in Hbd. cbn [fst snd] in Hbd.
    exists sb. exact Hbd.
Qed.

Lemma run_writes_only_new_stages_witness :
  exists last,
    (0 <= last)%Z /\
    (forall k, (k <= 0 \/ last < k)%Z ->
       same_stage square_state square_state_after k) /\
    (forall k, (0 < k <= last)%Z -> stored_stage square_state_after k).
Proof.
  exact (run_writes_only_new_stages bisect cholesky_lower two_valued_sampler
           0 1 fixed_generator 0 0 square_state square_state_after _
           square_run).
Defined.

(** X24.  A run keeps the size of the population from stage to stage: for
    the last stage number [last] it reached (the one with beta [>= 1] when
    it returns), every stage [i] from [stage_num] to [last - 1] and its
    successor hold sample arrays of the same shape and log-likelihood and
    log-target-density vectors of the same lengths. *)
Theorem run_keeps_population_size
  (root_scalar : (R -> result R) -> R -> R -> result RootResults)
  (cholesky : list (list R) -> option (list (list R)))
  (self : TMCMC) (fuel stages : nat) (rng : Generator) (stage_num : Z)
  (num_burn_in : Z) (h h' : run_state) (r : result run_state) :
  run root_scalar cholesky self fuel stages rng stage_num num_burn_in h
  = (r, h') ->
  exists last,
    (stage_num <= last)%Z /\
    (forall v, r = Ok v ->
       exists b, betas_dict h' !! last = Some b /\ 1 <= b) /\
    forall i, (stage_num <= i < last)%Z ->
      exists smp smp' ll ll' ltd ltd',
        samples_dict h' !! i = Some smp /\
        samples_dict h' !! (i + 1)%Z = Some smp' /\
        log_likelihoods_dict h' !! i = Some ll /\
        log_likelihoods_dict h' !! (i + 1)%Z = Some ll' /\
        log_target_density_values_dict h' !! i = Some ltd /\
        log_target_density_values_dict h' !! (i + 1)%Z = Some ltd' /\
        shape0 smp' = shape0 smp /\ shape1 smp' = shape1 smp /\
        length ll' = length ll /\ length ltd' = length ltd.
Proof.
  intros Hrun.
  apply run_inv in Hrun as [[-> Hno]|(samples0 & r0 & _ & _ & Hloop & ->)].
  - exists stage_num. split; [lia|]. split; [|intros i Hi; lia].
    intros v ->. exfalso. eapply Hno. reflexivity.
  - apply run_loop_boundary in Hloop as (rngb & sb & Hbd & Hres).
    pose proof (stage_boundary_footprint _ _ _ _ _ _ _ _ _ Hbd)
      as (Hle & _ & _).
    pose proof (stage_boundary_population _ _ _ _ _ _ _ _ _ Hbd) as Hpop.
    cbn [fst snd] in *. exists sb. split; [exact Hle|].
    split; [|exact Hpop].
    intros v Hv. destruct r0 as [[sf rngf]| |]; try discriminate Hv.
    destruct Hres as (_ & _ & Hb). exact Hb.
Qed.

Lemma run_keeps_population_size_witness :
  exists last,
    (0 <= last)%Z /\
    (forall v, Ok square_state_after = Ok v ->
       exists b, betas_dict square_state_after !! last = Some b /\ 1 <= b) /\
    forall i, (0 <= i < last)%Z ->
      exists smp smp' ll ll' ltd ltd',
        samples_dict square_state_after !! i = Some smp /\
        samples_dict square_state_after !! (i + 1)%Z = Some smp' /\
        log_likelihoods_dict square_state_after !! i = Some ll /\
        log_likelihoods_dict square_state_after !! (i + 1)%Z = Some ll' /\
        log_target_density_values_dict square_state_after !! i = Some ltd /\
        log_target_density_values_dict square_state_after !! (i + 1)%Z
        = Some ltd' /\
        shape0 smp' = shape0 smp /\ shape1 smp' = shape1 smp /\
        length ll' = length ll /\ length ltd' = length ltd.
Proof.
  exact (run_keeps_population_size bisect cholesky_lower two_valued_sampler
           0 1 fixed_generator 0 0 square_state square_state_after _
           square_run).
Defined.

(** X25.  A finished run is stable: when [run], entered at a stage number
    [>= 0], returns, it returns the store it leaves behind, and calling
    [run] again on that store at the last stage it reached returns the same
    store at once, for every sampler, generator, burn-in and budget. *)
Theorem finished_run_is_stable
  (root_scalar : (R -> result R) -> R -> R -> result RootResults)
  (cholesky : list (list R) -> option (list (list R)))
  (self : TMCMC) (fuel stages : nat) (rng : Generator) (stage_num : Z)
  (num_burn_in : Z) (h h' v : run_state) :
  (0 <= stage_num)%Z ->
  run root_scalar cholesky self fuel stages rng stage_num num_burn_in h
  = (Ok v, h') ->
  v = h' /\
  exists last,
    (stage_num <= last)%Z /\
    forall root_scalar' cholesky' self' fuel' stages' rng' num_burn_in',
      run root_scalar' cholesky' self' fuel' stages' rng' last num_burn_in' h'
      = (Ok h', h').
Proof.
  intros Hs Hrun.
  apply run_inv in Hrun as [[_ Hno]|(samples0 & r0 & H0 & Hd & Hloop & Hr)];
    [exfalso; eapply Hno; reflexivity|].
  destruct r0 as [[sf rngf]| |]; try discriminate Hr.
  injection Hr as ->. split; [reflexivity|].
  apply run_loop_boundary in Hloop as (rngb & sb & Hbd & _ & _ & b & Hb & Hge).
  apply stage_boundary_footprint in Hbd as (Hle & Hsame & _).
  cbn [fst snd] in *. exists sb. split; [exact Hle|].
  intros rs' ch' self' fuel' stages' rng' nb'.
  destruct (Hsame 0%Z ltac:(lia)) as (A1 & _).
  eapply run_at_final_beta; [rewrite A1; exact H0|exact Hd|exact Hb|exact Hge].
Qed.

Lemma finished_run_is_stable_witness :
  square_state_after = square_state_after /\
  exists last,
    (0 <= last)%Z /\
    forall root_scalar' cholesky' self' fuel' stages' rng' num_burn_in',
      run root_scalar' cholesky' self' fuel' stages' rng' last num_burn_in'
        square_state_after
      = (Ok square_state_after, square_state_after).
Proof.
  exact (finished_run_is_stable bisect cholesky_lower two_valued_sampler
           0 1 fixed_generator 0 0 square_state square_state_after
           square_state_after ltac:(lia) square_run).
Defined.
